(** * newBolt content-management core: a shallow embedding

    The development follows the repository's sources:
    - [src/utils/contentManager.ts]: [generateSlug], the record formats
      and the calls to the API;
    - [server/middleware/auth.ts]: [JWT_SECRET], [authenticate], [isAdmin];
    - [server/routes/content.js] and [server/routes/media.ts]: the route
      handlers and their middleware chains;
    - the migration script: the tables and their constraints;
    - [src/utils/auth.ts] and [AdminProtectedRoute.tsx]: the client's
      session and the route guard;
    - [ContentEditor.tsx]: the form state and its handlers.

    Definitions come first, properties afterwards. *)

From Stdlib Require Import ZArith List String Ascii Bool Lia.
From Stdlib Require Import Permutation Sorted Orders Mergesort.
From Stdlib Require DecimalString.
Import ListNotations.
Local Open Scope string_scope.
Local Open Scope list_scope.
Local Open Scope Z_scope.

(* ================================================================== *)
(** * Part I: the model *)
(* ================================================================== *)

(** ** JavaScript strings as sequences of UTF-16 code units *)

Module JsString.

Definition code_unit := Z.
Definition jsstring := list code_unit.

Definition of_string (s : string) : jsstring :=
  map (fun a => Z.of_N (N_of_ascii a)) (list_ascii_of_string s).

Definition HYPHEN : code_unit := 45.

Definition is_upper (c : code_unit) : bool := (65 <=? c) && (c <=? 90).
Definition is_lower (c : code_unit) : bool := (97 <=? c) && (c <=? 122).
Definition is_digit (c : code_unit) : bool := (48 <=? c) && (c <=? 57).

(** The class [\w] of a regular expression without flags: [[A-Za-z0-9_]]. *)
Definition is_word (c : code_unit) : bool :=
  is_upper c || is_lower c || is_digit c || (c =? 95).

(** The class [\s]: WhiteSpace and LineTerminator code points, which is
    also the set that [String.prototype.trim] strips. *)
Definition is_space (c : code_unit) : bool :=
  ((9 <=? c) && (c <=? 13)) || (c =? 32) || (c =? 160) || (c =? 5760)
  || ((8192 <=? c) && (c <=? 8202)) || (c =? 8232) || (c =? 8233)
  || (c =? 8239) || (c =? 8287) || (c =? 12288) || (c =? 65279).

Definition is_hyphen (c : code_unit) : bool := c =? HYPHEN.

(** [s.replace(/[^C]/g, '')] for a character class [C]: the code units
    outside the class are deleted. *)
Definition remove_outside (keep : code_unit -> bool) (s : jsstring) : jsstring :=
  filter keep s.

(** [s.replace(/C+/g, r)] for a character class [C] and a one-unit
    replacement [r]: every maximal run of class members becomes one [r].
    [in_run] records that the previous code unit belonged to the run
    being replaced. *)
Fixpoint replace_runs (p : code_unit -> bool) (r : code_unit)
         (in_run : bool) (s : jsstring) : jsstring :=
  match s with
  | [] => []
  | c :: s' =>
      if p c then
        if in_run then replace_runs p r true s'
        else r :: replace_runs p r true s'
      else c :: replace_runs p r false s'
  end.

Fixpoint trim_start (s : jsstring) : jsstring :=
  match s with
  | [] => []
  | c :: s' => if is_space c then trim_start s' else s
  end.

Definition trim (s : jsstring) : jsstring :=
  rev (trim_start (rev (trim_start s))).

(** Lower-case ASCII letters, digits, [_] and [-]. *)
Definition slug_unit (c : code_unit) : bool :=
  is_lower c || is_digit c || (c =? 95) || is_hyphen c.

(** [String.prototype.toLowerCase] applies the Unicode case mapping,
    which the repository does not define. It is taken as a parameter;
    the two laws are the facts about it that [generateSlug] relies on:
    the result holds no ASCII capital, and a string made of slug units
    only is left as it is. *)
Class CaseMapping := {
  toLowerCase : jsstring -> jsstring;
  toLowerCase_no_upper :
    forall s, forallb (fun c => negb (is_upper c)) (toLowerCase s) = true;
  toLowerCase_slug_units :
    forall s, forallb slug_unit s = true -> toLowerCase s = s
}.

(** A case mapping that obeys the laws: ASCII capitals are lowered, every
    other code unit is kept. *)
Definition ascii_lower_unit (c : code_unit) : code_unit :=
  if is_upper c then c + 32 else c.

Definition ascii_toLowerCase (s : jsstring) : jsstring := map ascii_lower_unit s.

End JsString.

(** ** JavaScript values carried by JSON bodies *)

Module Js.

#[local] Set Warnings "-register-all".

(** [JUndefined] stands for an absent property. [JNum] carries the
    integer-valued numbers that JavaScript prints digit by digit, which
    is what the store sends for ids, sizes and the 0/1 of a BOOLEAN
    column. *)
Inductive jsval : Type :=
| JUndefined
| JNull
| JBool (b : bool)
| JNum (n : Z)
| JStr (s : string)
| JArr (elems : list jsval)
| JObj (props : list (string * jsval)).

(** ToBoolean. *)
Definition truthy (v : jsval) : bool :=
  match v with
  | JUndefined | JNull => false
  | JBool b => b
  | JNum n => negb (n =? 0)
  | JStr s => negb (String.eqb s "")
  | JArr _ | JObj _ => true
  end.

(** [a || b] *)
Definition js_or (a b : jsval) : jsval := if truthy a then a else b.

(** [Boolean(v)] *)
Definition Boolean (v : jsval) : jsval := JBool (truthy v).

Definition is_array (v : jsval) : bool :=
  match v with JArr _ => true | _ => false end.

Definition is_number (v : jsval) : bool :=
  match v with JNum _ => true | _ => false end.

(** [null] or [undefined]. *)
Definition is_nullish (v : jsval) : bool :=
  match v with JUndefined | JNull => true | _ => false end.

Definition string_of_Z (n : Z) : string :=
  DecimalString.NilZero.string_of_int (Z.to_int n).

Definition has_prop (k : string) (props : list (string * jsval)) : bool :=
  existsb (fun kv => String.eqb (fst kv) k) props.

(** [v.toString()]; [None] is the TypeError of a call on [null] or
    [undefined], or on an object whose own [toString] property (never a
    function in JSON) hides the inherited method. An array joins its
    elements with commas, [null] and [undefined] elements giving the
    empty string. *)
Fixpoint toString (v : jsval) : option string :=
  match v with
  | JUndefined | JNull => None
  | JBool b => Some (if b then "true" else "false")
  | JNum n => Some (string_of_Z n)
  | JStr s => Some s
  | JArr elems =>
      let elem_string e :=
        match e with
        | JUndefined | JNull => Some ""
        | _ => toString e
        end in
      (fix join (l : list jsval) : option string :=
         match l with
         | [] => Some ""
         | e :: l' =>
             match elem_string e, l' with
             | None, _ => None
             | Some se, [] => Some se
             | Some se, _ :: _ =>
                 match join l' with
                 | None => None
                 | Some sl => Some (se ++ "," ++ sl)%string
                 end
             end
         end) elems
  | JObj props => if has_prop "toString" props then None
                  else Some "[object Object]"
  end.

End Js.

(** ** [contentManager.ts]: slugs and API records *)

Module ContentManager.
Import JsString Js.

Section Slug.
Context {CM : CaseMapping}.

(** title.toLowerCase()
         .replace(/[^\w\s-]/g, '')
         .replace(/\s+/g, '-')
         .replace(/-+/g, '-')
         .trim() *)
Definition generateSlug (title : jsstring) : jsstring :=
  trim
    (replace_runs is_hyphen HYPHEN false
       (replace_runs is_space HYPHEN false
          (remove_outside (fun c => is_word c || is_space c || is_hyphen c)
             (toLowerCase title)))).

(** The class that the first replacement keeps. *)
Definition kept (c : code_unit) : bool := is_word c || is_space c || is_hyphen c.

(** The string before the final [trim]. *)
Definition hyphenated (title : jsstring) : jsstring :=
  replace_runs is_hyphen HYPHEN false
    (replace_runs is_space HYPHEN false
       (remove_outside kept (toLowerCase title))).
End Slug.

(** *** Records exchanged with the API *)

(** The object a content route answers with, as [formatContentFromApi]
    receives it ([apiContent: any]): one JavaScript value per property
    read, [JUndefined] when the property is absent. *)
Record ApiContent := {
  api_id : jsval;
  api_type : jsval;
  api_title : jsval;
  api_content : jsval;
  api_slug : jsval;
  api_author : jsval;
  api_created_at : jsval;
  api_updated_at : jsval;
  api_featured : jsval;
  api_image : jsval;
  api_category : jsval;
  api_tags : jsval;
  api_position : jsval;
  api_company : jsval
}.

(** The object literal that [formatContentFromApi] builds. *)
Record ContentItem := {
  id : jsval;
  type : jsval;
  title : jsval;
  content : jsval;
  slug : jsval;
  author : jsval;
  createdAt : jsval;
  updatedAt : jsval;
  featured : jsval;
  image : jsval;
  category : jsval;
  tags : jsval;
  position : jsval;
  company : jsval
}.

(** What the content routes send ([res.json] of a row of [content] with
    its [tags] property set from [content_tags]): the id is a number, and
    [tags], when it is there, is an array. *)
Definition api_response_record (a : ApiContent) : bool :=
  is_number (api_id a) && (is_nullish (api_tags a) || is_array (api_tags a)).

(** [None] is the TypeError thrown by [apiContent.id.toString()]. *)
Definition formatContentFromApi (apiContent : ApiContent) : option ContentItem :=
  match toString (api_id apiContent) with
  | None => None
  | Some id_string =>
      Some {| id := JStr id_string;
              type := api_type apiContent;
              title := api_title apiContent;
              content := api_content apiContent;
              slug := api_slug apiContent;
              author := api_author apiContent;
              createdAt := api_created_at apiContent;
              updatedAt := api_updated_at apiContent;
              featured := Boolean (api_featured apiContent);
              image := js_or (api_image apiContent) JUndefined;
              category := js_or (api_category apiContent) JUndefined;
              tags := js_or (api_tags apiContent) (JArr []);
              position := js_or (api_position apiContent) JUndefined;
              company := js_or (api_company apiContent) JUndefined |}
  end.

(** A record as the content routes send it. *)
Definition sample_api_testimonial : ApiContent :=
  {| api_id := JNum 7;
     api_type := JStr "testimonial";
     api_title := JStr "Incredible Analytics";
     api_content := JStr "The insights have helped us.";
     api_slug := JStr "testimonial-2";
     api_author := JStr "Hakim Mulinde";
     api_created_at := JStr "2025-03-02T07:24:01.000Z";
     api_updated_at := JStr "2025-03-02T07:24:01.000Z";
     api_featured := JNum 0;
     api_image := JNull;
     api_category := JStr "";
     api_tags := JUndefined;
     api_position := JStr "CTO";
     api_company := JStr "Nkumba University" |}.

End ContentManager.

(** ** The relational store (migration script) *)

Module Storage.

(** Rows of [content]; [c_featured] is the BOOLEAN column, the nullable
    VARCHAR columns are options. Timestamps are seconds. *)
Record ContentRow := {
  c_id : Z;
  c_type : string;
  c_title : string;
  c_content : string;
  c_slug : string;
  c_author : string;
  c_featured : bool;
  c_image : option string;
  c_category : option string;
  c_position : option string;
  c_company : option string;
  c_created_at : Z;
  c_updated_at : Z
}.

(** Rows of [content_tags]. *)
Record TagRow := {
  ct_id : Z;
  ct_content_id : Z;
  ct_tag : string
}.

(** Rows of [media]. *)
Record MediaRow := {
  m_id : Z;
  m_type : string;
  m_title : string;
  m_url : string;
  m_thumbnail_url : option string;
  m_file_size : option Z;
  m_dimensions : option string;
  m_uploaded_by : string;
  m_created_at : Z
}.

(** The rows, which a transaction can restore; the AUTO_INCREMENT
    counters, which a rollback leaves where they are; and the server's
    clock, which the statements read CURRENT_TIMESTAMP from. *)
Record Tables := {
  t_content : list ContentRow;
  t_content_tags : list TagRow;
  t_media : list MediaRow
}.

Record Database := {
  tables : Tables;
  content_auto_increment : Z;
  content_tags_auto_increment : Z;
  media_auto_increment : Z;
  current_timestamp : Z
}.

(** Errors a statement is rejected with (the server runs in strict SQL
    mode, its default), the fault of a lost connection, and the TypeError
    of the JavaScript around the statements. *)
Inductive Error :=
| ER_BAD_NULL_ERROR (column : string)
| ER_DATA_TOO_LONG (column : string)
| WARN_DATA_TRUNCATED (column : string)
| ER_DUP_ENTRY (key : string)
| ER_NO_REFERENCED_ROW_2 (key : string)
| PROTOCOL_CONNECTION_LOST
| TypeError (message : string).

Definition Result (A : Type) : Type := (Error + A)%type.

(** *** Column checks *)

Definition is_null {A} (v : option A) : bool :=
  match v with None => true | Some _ => false end.

Definition text (v : option string) : string :=
  match v with Some s => s | None => "" end.

Definition longer_than (n : Z) (v : option string) : bool :=
  match v with Some s => n <? Z.of_nat (String.length s) | None => false end.

Definition first_violation (checks : list (bool * Error)) : option Error :=
  match find (fun c => fst c) checks with
  | Some c => Some (snd c)
  | None => None
  end.

(** ENUM('page', 'blog', 'testimonial') *)
Definition is_content_type (s : string) : bool :=
  String.eqb s "page" || String.eqb s "blog" || String.eqb s "testimonial".

(** ENUM('image', 'video', 'document') *)
Definition is_media_type (s : string) : bool :=
  String.eqb s "image" || String.eqb s "video" || String.eqb s "document".

(** The parameter array of the content INSERT and UPDATE, in column
    order; [None] is the NULL that [undefined] is sent as. *)
Record ContentParams := {
  p_type : option string;
  p_title : option string;
  p_content : option string;
  p_slug : option string;
  p_author : option string;
  p_featured : bool;
  p_image : option string;
  p_category : option string;
  p_position : option string;
  p_company : option string
}.

Definition content_violation (p : ContentParams) : option Error :=
  first_violation
    [ (is_null (p_type p), ER_BAD_NULL_ERROR "type");
      (negb (is_content_type (text (p_type p))), WARN_DATA_TRUNCATED "type");
      (is_null (p_title p), ER_BAD_NULL_ERROR "title");
      (longer_than 255 (p_title p), ER_DATA_TOO_LONG "title");
      (is_null (p_content p), ER_BAD_NULL_ERROR "content");
      (longer_than 65535 (p_content p), ER_DATA_TOO_LONG "content");
      (is_null (p_slug p), ER_BAD_NULL_ERROR "slug");
      (longer_than 255 (p_slug p), ER_DATA_TOO_LONG "slug");
      (is_null (p_author p), ER_BAD_NULL_ERROR "author");
      (longer_than 255 (p_author p), ER_DATA_TOO_LONG "author");
      (longer_than 255 (p_image p), ER_DATA_TOO_LONG "image");
      (longer_than 255 (p_category p), ER_DATA_TOO_LONG "category");
      (longer_than 255 (p_position p), ER_DATA_TOO_LONG "position");
      (longer_than 255 (p_company p), ER_DATA_TOO_LONG "company") ].

Definition option_eqb {A} (eqb : A -> A -> bool) (a b : option A) : bool :=
  match a, b with
  | Some x, Some y => eqb x y
  | None, None => true
  | _, _ => false
  end.

(** The row already holds the values of the parameter array. *)
Definition holds_values (r : ContentRow) (p : ContentParams) : bool :=
  String.eqb (c_type r) (text (p_type p))
  && String.eqb (c_title r) (text (p_title p))
  && String.eqb (c_content r) (text (p_content p))
  && String.eqb (c_slug r) (text (p_slug p))
  && String.eqb (c_author r) (text (p_author p))
  && Bool.eqb (c_featured r) (p_featured p)
  && option_eqb String.eqb (c_image r) (p_image p)
  && option_eqb String.eqb (c_category r) (p_category p)
  && option_eqb String.eqb (c_position r) (p_position p)
  && option_eqb String.eqb (c_company r) (p_company p).

(** The row an INSERT builds; both timestamps default to
    CURRENT_TIMESTAMP. *)
Definition new_content_row (id now : Z) (p : ContentParams) : ContentRow :=
  {| c_id := id;
     c_type := text (p_type p);
     c_title := text (p_title p);
     c_content := text (p_content p);
     c_slug := text (p_slug p);
     c_author := text (p_author p);
     c_featured := p_featured p;
     c_image := p_image p;
     c_category := p_category p;
     c_position := p_position p;
     c_company := p_company p;
     c_created_at := now;
     c_updated_at := now |}.

(** The row an UPDATE leaves: [updated_at] moves (ON UPDATE
    CURRENT_TIMESTAMP) only when some column changes its value. *)
Definition assign_content (now : Z) (p : ContentParams) (r : ContentRow) : ContentRow :=
  {| c_id := c_id r;
     c_type := text (p_type p);
     c_title := text (p_title p);
     c_content := text (p_content p);
     c_slug := text (p_slug p);
     c_author := text (p_author p);
     c_featured := p_featured p;
     c_image := p_image p;
     c_category := p_category p;
     c_position := p_position p;
     c_company := p_company p;
     c_created_at := c_created_at r;
     c_updated_at := if holds_values r p then c_updated_at r else now |}.

(** *** Table updates *)

Definition with_tables (db : Database) (t : Tables) : Database :=
  {| tables := t;
     content_auto_increment := content_auto_increment db;
     content_tags_auto_increment := content_tags_auto_increment db;
     media_auto_increment := media_auto_increment db;
     current_timestamp := current_timestamp db |}.

Definition with_content (t : Tables) (rows : list ContentRow) : Tables :=
  {| t_content := rows; t_content_tags := t_content_tags t; t_media := t_media t |}.

Definition with_content_tags (t : Tables) (rows : list TagRow) : Tables :=
  {| t_content := t_content t; t_content_tags := rows; t_media := t_media t |}.

Definition with_media (t : Tables) (rows : list MediaRow) : Tables :=
  {| t_content := t_content t; t_content_tags := t_content_tags t; t_media := rows |}.

Definition has_content_id (id : Z) (rows : list ContentRow) : bool :=
  existsb (fun r => c_id r =? id) rows.

Definition has_slug (slug : string) (rows : list ContentRow) : bool :=
  existsb (fun r => String.eqb (c_slug r) slug) rows.

Definition has_tag (content_id : Z) (tag : string) (rows : list TagRow) : bool :=
  existsb (fun r => (ct_content_id r =? content_id) && String.eqb (ct_tag r) tag) rows.

(** *** Statements

    A statement either is rejected, leaving the database as it was, or
    yields its result and the database it leaves. *)

(** INSERT INTO content (type, title, content, slug, author, featured,
    image, category, position, company) VALUES (?, ..., ?); the result is
    [insertId]. *)
Definition insert_content (p : ContentParams) (db : Database)
  : Result (Z * Database) :=
  match content_violation p with
  | Some e => inl e
  | None =>
      let rows := t_content (tables db) in
      let id := content_auto_increment db in
      if has_content_id id rows then inl (ER_DUP_ENTRY "PRIMARY")
      else if has_slug (text (p_slug p)) rows then inl (ER_DUP_ENTRY "slug")
      else
        inr (id,
             {| tables :=
                  with_content (tables db)
                    (rows ++ [new_content_row id (current_timestamp db) p]);
                content_auto_increment := id + 1;
                content_tags_auto_increment := content_tags_auto_increment db;
                media_auto_increment := media_auto_increment db;
                current_timestamp := current_timestamp db |})
  end.

(** UPDATE content SET type = ?, ..., company = ? WHERE id = ?; the
    result is [affectedRows]. With no row of that id nothing is written
    and nothing is checked. *)
Definition update_content (p : ContentParams) (id : Z) (db : Database)
  : Result (Z * Database) :=
  let rows := t_content (tables db) in
  if negb (has_content_id id rows) then inr (0, db)
  else
    match content_violation p with
    | Some e => inl e
    | None =>
        if has_slug (text (p_slug p)) (filter (fun r => negb (c_id r =? id)) rows)
        then inl (ER_DUP_ENTRY "slug")
        else
          inr (Z.of_nat (List.length (filter (fun r => c_id r =? id) rows)),
               with_tables db
                 (with_content (tables db)
                    (map (fun r =>
                            if c_id r =? id
                            then assign_content (current_timestamp db) p r
                            else r)
                       rows)))
    end.

(** The rows of one bulk INSERT into [content_tags], checked and added
    one after the other: tag length, the unique key
    [(content_id, tag)], and the foreign key on [content(id)]. *)
Fixpoint add_tag_rows (content : list ContentRow) (values : list (Z * string))
         (rows : list TagRow) (next : Z) : Result (list TagRow * Z) :=
  match values with
  | [] => inr (rows, next)
  | (content_id, tag) :: values' =>
      if longer_than 255 (Some tag) then inl (ER_DATA_TOO_LONG "tag")
      else if existsb (fun r => ct_id r =? next) rows then inl (ER_DUP_ENTRY "PRIMARY")
      else if has_tag content_id tag rows then inl (ER_DUP_ENTRY "unique_content_tag")
      else if negb (has_content_id content_id content)
           then inl (ER_NO_REFERENCED_ROW_2 "content_tags_ibfk_1")
      else
        add_tag_rows content values'
          (rows ++ [{| ct_id := next; ct_content_id := content_id; ct_tag := tag |}])
          (next + 1)
  end.

(** INSERT INTO content_tags (content_id, tag) VALUES ? *)
Definition insert_content_tags (values : list (Z * string)) (db : Database)
  : Result (unit * Database) :=
  match add_tag_rows (t_content (tables db)) values
          (t_content_tags (tables db)) (content_tags_auto_increment db) with
  | inl e => inl e
  | inr (rows, next) =>
      inr (tt,
           {| tables := with_content_tags (tables db) rows;
              content_auto_increment := content_auto_increment db;
              content_tags_auto_increment := next;
              media_auto_increment := media_auto_increment db;
              current_timestamp := current_timestamp db |})
  end.

(** DELETE FROM content_tags WHERE content_id = ? *)
Definition delete_content_tags (content_id : Z) (db : Database)
  : Result (unit * Database) :=
  inr (tt,
       with_tables db
         (with_content_tags (tables db)
            (filter (fun r => negb (ct_content_id r =? content_id))
               (t_content_tags (tables db))))).

(** DELETE FROM content WHERE id = ?, with the ON DELETE CASCADE of
    [content_tags]; the result is [affectedRows]. *)
Definition delete_content (id : Z) (db : Database) : Result (Z * Database) :=
  let t := tables db in
  inr (Z.of_nat (List.length (filter (fun r => c_id r =? id) (t_content t))),
       with_tables db
         {| t_content := filter (fun r => negb (c_id r =? id)) (t_content t);
            t_content_tags :=
              if has_content_id id (t_content t)
              then filter (fun r => negb (ct_content_id r =? id)) (t_content_tags t)
              else t_content_tags t;
            t_media := t_media t |}).

(** SELECT * FROM content WHERE id = ? *)
Definition select_content_by_id (id : Z) (db : Database) : list ContentRow :=
  filter (fun r => c_id r =? id) (t_content (tables db)).

(** SELECT tag FROM content_tags WHERE content_id = ? (rows in table
    order; SQL itself promises no order here). *)
Definition select_tags (content_id : Z) (db : Database) : list TagRow :=
  filter (fun r => ct_content_id r =? content_id) (t_content_tags (tables db)).

(** ORDER BY updated_at DESC, as a merge sort on the timestamp. *)
Definition updated_at_desc (a b : ContentRow) : bool :=
  c_updated_at b <=? c_updated_at a.

Lemma updated_at_desc_total (a b : ContentRow) :
  updated_at_desc a b = true \/ updated_at_desc b a = true.
Proof.
  unfold updated_at_desc.
  destruct (Z.leb_spec (c_updated_at b) (c_updated_at a)); auto.
  right. apply Z.leb_le. lia.
Qed.

Module UpdatedAtDesc <: TotalLeBool.
Definition t := ContentRow.
Definition leb := updated_at_desc.
Definition leb_total := updated_at_desc_total.
End UpdatedAtDesc.

Module ContentSort := Sort UpdatedAtDesc.

(** SELECT * FROM content [WHERE type = ?] ORDER BY updated_at DESC;
    the comparison with the parameter is equality of strings. *)
Definition select_content (type : option string) (db : Database) : list ContentRow :=
  ContentSort.sort
    (match type with
     | Some ty => filter (fun r => String.eqb (c_type r) ty) (t_content (tables db))
     | None => t_content (tables db)
     end).

(** ORDER BY created_at DESC *)
Definition created_at_desc (a b : MediaRow) : bool :=
  m_created_at b <=? m_created_at a.

Lemma created_at_desc_total (a b : MediaRow) :
  created_at_desc a b = true \/ created_at_desc b a = true.
Proof.
  unfold created_at_desc.
  destruct (Z.leb_spec (m_created_at b) (m_created_at a)); auto.
  right. apply Z.leb_le. lia.
Qed.

Module CreatedAtDesc <: TotalLeBool.
Definition t := MediaRow.
Definition leb := created_at_desc.
Definition leb_total := created_at_desc_total.
End CreatedAtDesc.

Module MediaSort := Sort CreatedAtDesc.

(** The parameter array of the media INSERT. *)
Record MediaParams := {
  mp_type : option string;
  mp_title : option string;
  mp_url : option string;
  mp_thumbnail_url : option string;
  mp_file_size : option Z;
  mp_dimensions : option string;
  mp_uploaded_by : option string
}.

Definition media_violation (p : MediaParams) : option Error :=
  first_violation
    [ (is_null (mp_type p), ER_BAD_NULL_ERROR "type");
      (negb (is_media_type (text (mp_type p))), WARN_DATA_TRUNCATED "type");
      (is_null (mp_title p), ER_BAD_NULL_ERROR "title");
      (longer_than 255 (mp_title p), ER_DATA_TOO_LONG "title");
      (is_null (mp_url p), ER_BAD_NULL_ERROR "url");
      (longer_than 255 (mp_url p), ER_DATA_TOO_LONG "url");
      (longer_than 255 (mp_thumbnail_url p), ER_DATA_TOO_LONG "thumbnail_url");
      (longer_than 50 (mp_dimensions p), ER_DATA_TOO_LONG "dimensions");
      (is_null (mp_uploaded_by p), ER_BAD_NULL_ERROR "uploaded_by");
      (longer_than 255 (mp_uploaded_by p), ER_DATA_TOO_LONG "uploaded_by") ].

(** INSERT INTO media (type, title, url, thumbnail_url, file_size,
    dimensions, uploaded_by) VALUES (?, ..., ?) *)
Definition insert_media (p : MediaParams) (db : Database)
  : Result (Z * Database) :=
  match media_violation p with
  | Some e => inl e
  | None =>
      let rows := t_media (tables db) in
      let id := media_auto_increment db in
      if existsb (fun r => m_id r =? id) rows then inl (ER_DUP_ENTRY "PRIMARY")
      else
        inr (id,
             {| tables :=
                  with_media (tables db)
                    (rows ++ [{| m_id := id;
                                 m_type := text (mp_type p);
                                 m_title := text (mp_title p);
                                 m_url := text (mp_url p);
                                 m_thumbnail_url := mp_thumbnail_url p;
                                 m_file_size := mp_file_size p;
                                 m_dimensions := mp_dimensions p;
                                 m_uploaded_by := text (mp_uploaded_by p);
                                 m_created_at := current_timestamp db |}]);
                content_auto_increment := content_auto_increment db;
                content_tags_auto_increment := content_tags_auto_increment db;
                media_auto_increment := id + 1;
                current_timestamp := current_timestamp db |})
  end.

(** DELETE FROM media WHERE id = ? *)
Definition delete_media (id : Z) (db : Database) : Result (Z * Database) :=
  inr (Z.of_nat (List.length (filter (fun r => m_id r =? id) (t_media (tables db)))),
       with_tables db
         (with_media (tables db)
            (filter (fun r => negb (m_id r =? id)) (t_media (tables db))))).

(** SELECT * FROM media WHERE id = ? *)
Definition select_media_by_id (id : Z) (db : Database) : list MediaRow :=
  filter (fun r => m_id r =? id) (t_media (tables db)).

(** SELECT * FROM media [WHERE type = ?] ORDER BY created_at DESC *)
Definition select_media (type : option string) (db : Database) : list MediaRow :=
  MediaSort.sort
    (match type with
     | Some ty => filter (fun r => String.eqb (m_type r) ty) (t_media (tables db))
     | None => t_media (tables db)
     end).

End Storage.

(** ** The connection pool ([db.js]) and the request monad *)

Module Pool.
Import Storage.

(** The state a request runs against: the database, the faults the
    network will inject, and the borrowed connection's transaction. [faults] holds one
    flag per coming round trip to the database ([true]: the call is
    rejected with a lost connection and has no effect); beyond its end
    no fault occurs. [snapshot] is the table state an open transaction
    started from. *)
Record Server := {
  db : Database;
  faults : list bool;
  snapshot : option Tables;
  borrowed : nat
}.

Definition set_db (st : Server) (d : Database) : Server :=
  {| db := d; faults := faults st;
     snapshot := snapshot st; borrowed := borrowed st |}.

Definition set_faults (st : Server) (f : list bool) : Server :=
  {| db := db st; faults := f;
     snapshot := snapshot st; borrowed := borrowed st |}.

Definition set_snapshot (st : Server) (t : option Tables) : Server :=
  {| db := db st; faults := faults st;
     snapshot := t; borrowed := borrowed st |}.

Definition set_borrowed (st : Server) (n : nat) : Server :=
  {| db := db st; faults := faults st;
     snapshot := snapshot st; borrowed := n |}.

(** Asynchronous code that may throw: the state survives an exception. *)
Definition M (A : Type) : Type := Server -> Result A * Server.

Definition ret {A} (a : A) : M A := fun st => (inr a, st).

Definition bind {A B} (m : M A) (k : A -> M B) : M B :=
  fun st =>
    match m st with
    | (inl e, st') => (inl e, st')
    | (inr a, st') => k a st'
    end.

Definition throw {A} (e : Error) : M A := fun st => (inl e, st).

(** try { m } catch (err) { handler err } *)
Definition try_catch {A} (m : M A) (handler : Error -> M A) : M A :=
  fun st =>
    match m st with
    | (inl e, st') => handler e st'
    | (inr a, st') => (inr a, st')
    end.

Declare Scope request_scope.
Delimit Scope request_scope with request.
Notation "x <- m ;; k" := (bind m (fun x => k))
  (at level 61, m at next level, right associativity) : request_scope.
Notation "m ;; k" := (bind m (fun _ => k))
  (at level 61, right associativity) : request_scope.
Local Open Scope request_scope.

Fixpoint mapM {A B} (f : A -> M B) (l : list A) : M (list B) :=
  match l with
  | [] => ret []
  | a :: l' => b <- f a ;; bs <- mapM f l' ;; ret (b :: bs)
  end.

(** One round trip to the database server. *)
Definition round_trip : M unit :=
  fun st =>
    match faults st with
    | [] => (inr tt, st)
    | false :: rest => (inr tt, set_faults st rest)
    | true :: rest => (inl PROTOCOL_CONNECTION_LOST, set_faults st rest)
    end.

(** [pool.query] and [connection.query] with a writing statement. *)
Definition query {A} (statement : Database -> Result (A * Database)) : M A :=
  round_trip ;;
  fun st =>
    match statement (db st) with
    | inl e => (inl e, st)
    | inr (a, d) => (inr a, set_db st d)
    end.

(** The same with a SELECT. *)
Definition select {A} (rows : Database -> A) : M A :=
  query (fun d => inr (rows d, d)).

(** [pool.getConnection()]: the connection handed out is in no
    transaction. *)
Definition getConnection : M unit :=
  round_trip ;;
  fun st => (inr tt, set_snapshot (set_borrowed st (S (borrowed st))) None).

Definition beginTransaction : M unit :=
  round_trip ;;
  fun st => (inr tt, set_snapshot st (Some (tables (db st)))).

Definition commit : M unit :=
  round_trip ;;
  fun st => (inr tt, set_snapshot st None).

(** The end of an open transaction that is not committed: the tables
    are back where it started. Outside a transaction there is nothing to
    undo. *)
Definition undo_transaction (st : Server) : Server :=
  match snapshot st with
  | Some t => set_snapshot (set_db st (with_tables (db st) t)) None
  | None => st
  end.

(** [connection.rollback()] sends ROLLBACK, one more round trip, which
    can be cut off like any other: the call then rejects. The
    transaction is undone in both cases: by the ROLLBACK that arrives,
    or by the server when it finds the connection lost. *)
Definition rollback : M unit :=
  fun st => round_trip (undo_transaction st).

(** [connection.release()] hands the connection back to the pool; it
    makes no round trip and returns nothing to wait for. *)
Definition release : M unit :=
  fun st => (inr tt, set_borrowed st (Nat.pred (borrowed st))).

End Pool.

(** ** Express requests, responses and middleware *)

Module Express.
Import Storage Pool.

(** [req.user], as [AuthRequest] declares it. *)
Record User := {
  user_id : Z;
  role : string
}.

(** [req.body]: the properties the handlers destructure, typed as
    [formatContentForApi] and [formatMediaForApi] send them; [None] is an
    absent property. *)
Record Body := {
  b_type : option string;
  b_title : option string;
  b_content : option string;
  b_slug : option string;
  b_author : option string;
  b_featured : option bool;
  b_image : option string;
  b_category : option string;
  b_tags : option (list string);
  b_position : option string;
  b_company : option string;
  b_url : option string;
  b_thumbnail_url : option string;
  b_file_size : option Z;
  b_dimensions : option string;
  b_uploaded_by : option string
}.

(** [req]: the [x-auth-token] header, [req.user], the [:id] path
    parameter (taken as the number it denotes), the [type] query
    parameter and the body. *)
Record Request := {
  x_auth_token : option string;
  user : option User;
  params_id : Z;
  query_type : option string;
  body : Body
}.

Definition set_user (req : Request) (u : User) : Request :=
  {| x_auth_token := x_auth_token req;
     user := Some u;
     params_id := params_id req;
     query_type := query_type req;
     body := body req |}.

(** A content row with the [tags] property the handlers add to it. *)
Record ContentJson := {
  row : ContentRow;
  tags : list string
}.

Inductive Json :=
| Message (message : string)
| Content (item : ContentJson)
| ContentList (items : list ContentJson)
| Media (item : MediaRow)
| MediaList (items : list MediaRow)
| NoBody.

Record Response := {
  status : Z;
  json : Json
}.

(** A middleware or handler either calls [next()] or sends a response. *)
Inductive Outcome :=
| Next (req : Request)
| Sent (res : Response).

Definition Handler : Type := Request -> Server -> Outcome * Server.

(** The handlers of one route run in order until one sends a response;
    a request that falls off the end gets Express's 404. *)
Fixpoint run (stack : list Handler) (req : Request) (st : Server)
  : Response * Server :=
  match stack with
  | [] => ({| status := 404; json := Message "Not Found" |}, st)
  | h :: rest =>
      match h req st with
      | (Next req', st') => run rest req' st'
      | (Sent res, st') => (res, st')
      end
  end.

(** A JavaScript string is truthy unless absent or empty. *)
Definition truthy_string (s : option string) : bool :=
  match s with
  | Some s => negb (String.eqb s "")
  | None => false
  end.

(** try { ... } catch (err) { res.status(500).json({ message: 'Server
    error' }) } around a route's body. *)
Definition respond (m : M Response) : Server -> Outcome * Server :=
  fun st =>
    match m st with
    | (inr res, st') => (Sent res, st')
    | (inl _, st') => (Sent {| status := 500; json := Message "Server error" |}, st')
    end.

End Express.

(** ** [middleware/auth.ts] *)

Module Auth.
Import Storage Pool Express.

(** [jwt.verify] of the jsonwebtoken package: the payload of a token
    that is well formed, unexpired and signed with the secret, [None]
    when it throws. *)
Class Jsonwebtoken := {
  verify : string -> string -> option User
}.

Definition FALLBACK_SECRET : string :=
  "d5692e8f3e1bd1fe110cd2766a3a074f41898372a1e5458a4fabf6d62683844c".

(** const JWT_SECRET = process.env.JWT_SECRET || "d5692e..."; evaluated
    once, when the module is loaded. *)
Definition JWT_SECRET (env_JWT_SECRET : option string) : string :=
  if truthy_string env_JWT_SECRET then text env_JWT_SECRET else FALLBACK_SECRET.

(** Loading the module: [Some] secret when it loads, [None] if it threw.
    Nothing in it throws. *)
Definition load_auth_module (env_JWT_SECRET : option string) : option string :=
  Some (JWT_SECRET env_JWT_SECRET).

Section Middleware.
Context {JWT : Jsonwebtoken}.
Variable secret : string.

Definition authenticate : Handler :=
  fun req st =>
    let token := x_auth_token req in
    if negb (truthy_string token) then
      (Sent {| status := 401; json := Message "No token, authorization denied" |}, st)
    else
      match verify (text token) secret with
      | Some decoded => (Next (set_user req decoded), st)
      | None => (Sent {| status := 401; json := Message "Token is not valid" |}, st)
      end.

End Middleware.

Definition isAdmin : Handler :=
  fun req st =>
    match user req with
    | None => (Sent {| status := 401; json := Message "Not authenticated" |}, st)
    | Some u =>
        if negb (String.eqb (role u) "admin") then
          (Sent {| status := 403;
                   json := Message "Access denied. Admin role required." |}, st)
        else (Next req, st)
    end.

End Auth.

(** ** [routes/content.js] *)

Module ContentRoutes.
Import Storage Pool Express.
Local Open Scope request_scope.

(** The parameter array [[type, title, content, slug, author,
    featured || false, image, category, position, company]]. *)
Definition content_params (b : Body) : ContentParams :=
  {| p_type := b_type b;
     p_title := b_title b;
     p_content := b_content b;
     p_slug := b_slug b;
     p_author := b_author b;
     p_featured := match b_featured b with Some f => f | None => false end;
     p_image := b_image b;
     p_category := b_category b;
     p_position := b_position b;
     p_company := b_company b |}.

(** The [(content_id, tag)] pairs a request asks for: those of
    [tags.map(tag => [id, tag])] when [tags && tags.length > 0], none
    otherwise. *)
Definition tag_values (id : Z) (tags : option (list string)) : list (Z * string) :=
  match tags with
  | Some tags => map (fun t => (id, t)) tags
  | None => []
  end.

(** if (tags && tags.length > 0) { INSERT INTO content_tags ... } *)
Definition insert_tags_if_provided (id : Z) (tags : option (list string)) : M unit :=
  match tags with
  | Some (tag :: tags') =>
      query (insert_content_tags (map (fun t => (id, t)) (tag :: tags')))
  | _ => ret tt
  end.

(** [rows[0]] followed by an assignment to its [tags] property, a
    TypeError when there is no first row. *)
Definition first_row (rows : list ContentRow) : M ContentRow :=
  match rows with
  | r :: _ => ret r
  | [] => throw (TypeError "Cannot set properties of undefined (setting 'tags')")
  end.

Definition with_tags (r : ContentRow) (tag_rows : list TagRow) : ContentJson :=
  {| row := r; tags := map ct_tag tag_rows |}.

(** router.get('/') *)
Definition get_all_body (req : Request) : M Response :=
  let type := query_type req in
  content <- select (select_content (if truthy_string type then type else None)) ;;
  items <- mapM (fun item =>
                   tags <- select (select_tags (c_id item)) ;;
                   ret (with_tags item tags))
                content ;;
  ret {| status := 200; json := ContentList items |}.

Definition get_all : Handler := fun req => respond (get_all_body req).

(** router.get('/:id') *)
Definition get_by_id_body (req : Request) : M Response :=
  content <- select (select_content_by_id (params_id req)) ;;
  match content with
  | [] => ret {| status := 404; json := Message "Content not found" |}
  | contentItem :: _ =>
      tags <- select (select_tags (c_id contentItem)) ;;
      ret {| status := 200; json := Content (with_tags contentItem tags) |}
  end.

Definition get_by_id : Handler := fun req => respond (get_by_id_body req).

(** router.post('/'): the statements between [beginTransaction] and
    [commit]; the value is [contentId]. *)
Definition post_writes (req : Request) : M Z :=
  beginTransaction ;;
  contentId <- query (insert_content (content_params (body req))) ;;
  insert_tags_if_provided contentId (b_tags (body req)) ;;
  commit ;;
  ret contentId.

(** router.post('/'): what follows the commit inside the same [try]. *)
Definition post_read_back (contentId : Z) : M Response :=
  newContent <- select (select_content_by_id contentId) ;;
  contentTags <- select (select_tags contentId) ;;
  createdContent <- first_row newContent ;;
  release ;;
  ret {| status := 201; json := Content (with_tags createdContent contentTags) |}.

(** router.post('/'): the outer [try] block, with the inner
    try { ... } catch (err) { rollback; release; throw err }. *)
Definition post_body (req : Request) : M Response :=
  getConnection ;;
  try_catch
    (contentId <- post_writes req ;; post_read_back contentId)
    (fun err => rollback ;; release ;; throw err).

Definition post : Handler := fun req => respond (post_body req).

(** router.put('/:id'): the statements between [beginTransaction] and
    [commit]. *)
Definition put_writes (req : Request) : M unit :=
  beginTransaction ;;
  query (update_content (content_params (body req)) (params_id req)) ;;
  query (delete_content_tags (params_id req)) ;;
  insert_tags_if_provided (params_id req) (b_tags (body req)) ;;
  commit.

(** router.put('/:id'): what follows the commit inside the same [try]. *)
Definition put_read_back (req : Request) : M Response :=
  updatedContent <- select (select_content_by_id (params_id req)) ;;
  contentTags <- select (select_tags (params_id req)) ;;
  result <- first_row updatedContent ;;
  release ;;
  ret {| status := 200; json := Content (with_tags result contentTags) |}.

Definition put_body (req : Request) : M Response :=
  getConnection ;;
  try_catch
    (put_writes req ;; put_read_back req)
    (fun err => rollback ;; release ;; throw err).

Definition put : Handler := fun req => respond (put_body req).

(** router.delete('/:id') *)
Definition delete_body (req : Request) : M Response :=
  affectedRows <- query (delete_content (params_id req)) ;;
  if affectedRows =? 0
  then ret {| status := 404; json := Message "Content not found" |}
  else ret {| status := 200; json := Message "Content deleted" |}.

Definition delete : Handler := fun req => respond (delete_body req).

End ContentRoutes.

(** ** [routes/media.ts] *)

Module MediaRoutes.
Import Storage Pool Express.
Local Open Scope request_scope.

Definition media_params (b : Body) : MediaParams :=
  {| mp_type := b_type b;
     mp_title := b_title b;
     mp_url := b_url b;
     mp_thumbnail_url := b_thumbnail_url b;
     mp_file_size := b_file_size b;
     mp_dimensions := b_dimensions b;
     mp_uploaded_by := b_uploaded_by b |}.

(** router.get('/') *)
Definition get_all_body (req : Request) : M Response :=
  let type := query_type req in
  media <- select (select_media (if truthy_string type then type else None)) ;;
  ret {| status := 200; json := MediaList media |}.

Definition get_all : Handler := fun req => respond (get_all_body req).

(** router.get('/:id') *)
Definition get_by_id_body (req : Request) : M Response :=
  media <- select (select_media_by_id (params_id req)) ;;
  match media with
  | [] => ret {| status := 404; json := Message "Media not found" |}
  | m :: _ => ret {| status := 200; json := Media m |}
  end.

Definition get_by_id : Handler := fun req => respond (get_by_id_body req).

(** router.post('/'); [newMedia[0]] of an empty result is [undefined],
    which [res.json] sends as an empty body. *)
Definition post_body (req : Request) : M Response :=
  insertId <- query (insert_media (media_params (body req))) ;;
  newMedia <- select (select_media_by_id insertId) ;;
  match newMedia with
  | m :: _ => ret {| status := 201; json := Media m |}
  | [] => ret {| status := 201; json := NoBody |}
  end.

Definition post : Handler := fun req => respond (post_body req).

(** router.delete('/:id') *)
Definition delete_body (req : Request) : M Response :=
  affectedRows <- query (delete_media (params_id req)) ;;
  if affectedRows =? 0
  then ret {| status := 404; json := Message "Media not found" |}
  else ret {| status := 200; json := Message "Media deleted" |}.

Definition delete : Handler := fun req => respond (delete_body req).

End MediaRoutes.

(** ** The routing table *)

Module App.
Import Storage Pool Express Auth.

Inductive Method := GET | POST | PUT | DELETE.

Inductive Route :=
| GET_content
| GET_content_id
| POST_content
| PUT_content_id
| DELETE_content_id
| GET_media
| GET_media_id
| POST_media
| DELETE_media_id.

Definition method (r : Route) : Method :=
  match r with
  | GET_content | GET_content_id | GET_media | GET_media_id => GET
  | POST_content | POST_media => POST
  | PUT_content_id => PUT
  | DELETE_content_id | DELETE_media_id => DELETE
  end.

Definition mutating (r : Route) : bool :=
  match method r with
  | GET => false
  | POST | PUT | DELETE => true
  end.

(** The handler a route ends in. *)
Definition final_handler (r : Route) : Handler :=
  match r with
  | GET_content => ContentRoutes.get_all
  | GET_content_id => ContentRoutes.get_by_id
  | POST_content => ContentRoutes.post
  | PUT_content_id => ContentRoutes.put
  | DELETE_content_id => ContentRoutes.delete
  | GET_media => MediaRoutes.get_all
  | GET_media_id => MediaRoutes.get_by_id
  | POST_media => MediaRoutes.post
  | DELETE_media_id => MediaRoutes.delete
  end.

Section Routes.
Context {JWT : Jsonwebtoken}.
(** [process.env.JWT_SECRET] when the server starts. *)
Variable env_JWT_SECRET : option string.

(** The arguments of [router.get], [router.post], [router.put] and
    [router.delete], route by route. *)
Definition stack (r : Route) : list Handler :=
  match r with
  | GET_content => [ContentRoutes.get_all]
  | GET_content_id => [ContentRoutes.get_by_id]
  | POST_content =>
      [authenticate (JWT_SECRET env_JWT_SECRET); isAdmin; ContentRoutes.post]
  | PUT_content_id =>
      [authenticate (JWT_SECRET env_JWT_SECRET); isAdmin; ContentRoutes.put]
  | DELETE_content_id =>
      [authenticate (JWT_SECRET env_JWT_SECRET); isAdmin; ContentRoutes.delete]
  | GET_media => [MediaRoutes.get_all]
  | GET_media_id => [MediaRoutes.get_by_id]
  | POST_media =>
      [authenticate (JWT_SECRET env_JWT_SECRET); isAdmin; MediaRoutes.post]
  | DELETE_media_id =>
      [authenticate (JWT_SECRET env_JWT_SECRET); isAdmin; MediaRoutes.delete]
  end.

Definition handle (r : Route) (req : Request) (st : Server) : Response * Server :=
  run (stack r) req st.

End Routes.

End App.

(** ** The JSON a content route sends *)

Module Wire.
Import Storage Express Js.

Definition json_of_text (v : option string) : jsval :=
  match v with
  | Some s => JStr s
  | None => JNull
  end.

(** [res.json] of a row with its [tags], as the client reads it back:
    the driver hands INT and BOOLEAN columns over as numbers, NULL as
    [null] and a TIMESTAMP as a date, which JSON prints through
    [date_string]. *)
Definition json_of_content (date_string : Z -> string) (c : ContentJson)
  : ContentManager.ApiContent :=
  {| ContentManager.api_id := JNum (c_id (row c));
     ContentManager.api_type := JStr (c_type (row c));
     ContentManager.api_title := JStr (c_title (row c));
     ContentManager.api_content := JStr (c_content (row c));
     ContentManager.api_slug := JStr (c_slug (row c));
     ContentManager.api_author := JStr (c_author (row c));
     ContentManager.api_created_at := JStr (date_string (c_created_at (row c)));
     ContentManager.api_updated_at := JStr (date_string (c_updated_at (row c)));
     ContentManager.api_featured := JNum (if c_featured (row c) then 1 else 0);
     ContentManager.api_image := json_of_text (c_image (row c));
     ContentManager.api_category := json_of_text (c_category (row c));
     ContentManager.api_tags := JArr (map JStr (tags c));
     ContentManager.api_position := json_of_text (c_position (row c));
     ContentManager.api_company := json_of_text (c_company (row c)) |}.

End Wire.

(** ** Sample data *)

Module Samples.
Import Storage Pool Express Auth ContentRoutes.

(** A stand-in for jsonwebtoken: two tokens are valid under the fallback
    secret, one of an admin and one of an editor. *)
Definition sample_verify (token secret : string) : option User :=
  if negb (String.eqb secret FALLBACK_SECRET) then None
  else if String.eqb token "admin-token" then Some {| user_id := 1; role := "admin" |}
  else if String.eqb token "editor-token" then Some {| user_id := 2; role := "editor" |}
  else None.

#[export] Instance sample_jwt : Jsonwebtoken := {| verify := sample_verify |}.

Definition home_page : ContentRow :=
  {| c_id := 1; c_type := "page"; c_title := "Home";
     c_content := "Welcome to Tredumo."; c_slug := "home"; c_author := "Admin";
     c_featured := false; c_image := None; c_category := None;
     c_position := None; c_company := None;
     c_created_at := 100; c_updated_at := 100 |}.

Definition future_post : ContentRow :=
  {| c_id := 5; c_type := "blog"; c_title := "The Future of Education Management";
     c_content := "Explore how AI is transforming education.";
     c_slug := "future-education-management"; c_author := "Admin";
     c_featured := true; c_image := None; c_category := Some "Technology";
     c_position := None; c_company := None;
     c_created_at := 100; c_updated_at := 250 |}.

Definition admissions_post : ContentRow :=
  {| c_id := 6; c_type := "blog"; c_title := "Streamlining Admissions Processes";
     c_content := "Learn how to improve your admissions workflow.";
     c_slug := "streamlining-admissions"; c_author := "Admin";
     c_featured := false; c_image := None; c_category := Some "Best Practices";
     c_position := None; c_company := None;
     c_created_at := 100; c_updated_at := 180 |}.

Definition dashboard_preview : MediaRow :=
  {| m_id := 1; m_type := "image"; m_title := "Dashboard Preview";
     m_url := "https://images.example/dashboard.png";
     m_thumbnail_url := None; m_file_size := None;
     m_dimensions := Some "1920x1080"; m_uploaded_by := "Admin";
     m_created_at := 100 |}.

Definition seed_tables : Tables :=
  {| t_content := [home_page; future_post; admissions_post];
     t_content_tags :=
       [ {| ct_id := 1; ct_content_id := 5; ct_tag := "AI" |};
         {| ct_id := 2; ct_content_id := 5; ct_tag := "Education" |};
         {| ct_id := 3; ct_content_id := 6; ct_tag := "Admissions" |} ];
     t_media := [dashboard_preview] |}.

Definition seed_db : Database :=
  {| tables := seed_tables;
     content_auto_increment := 7;
     content_tags_auto_increment := 4;
     media_auto_increment := 2;
     current_timestamp := 300 |}.

Definition idle (faults : list bool) : Server :=
  {| db := seed_db; faults := faults; snapshot := None; borrowed := 0 |}.

Definition empty_body : Body :=
  {| b_type := None; b_title := None; b_content := None; b_slug := None;
     b_author := None; b_featured := None; b_image := None; b_category := None;
     b_tags := None; b_position := None; b_company := None; b_url := None;
     b_thumbnail_url := None; b_file_size := None; b_dimensions := None;
     b_uploaded_by := None |}.

(** { type: "blog", title: "X", content: "Y", slug: "x", author: "A",
      tags: [...] } *)
Definition blog_body (tags : option (list string)) : Body :=
  {| b_type := Some "blog"; b_title := Some "X"; b_content := Some "Y";
     b_slug := Some "x"; b_author := Some "A"; b_featured := None;
     b_image := None; b_category := None; b_tags := tags;
     b_position := None; b_company := None; b_url := None;
     b_thumbnail_url := None; b_file_size := None; b_dimensions := None;
     b_uploaded_by := None |}.

Definition request (token : option string) (id : Z) (type : option string)
           (b : Body) : Request :=
  {| x_auth_token := token; user := None; params_id := id;
     query_type := type; body := b |}.

(** POST /content with two tags, and the state it leaves. *)
Definition create_request : Request :=
  request (Some "admin-token") 0 None (blog_body (Some ["ai"; "edu"])).

Definition after_create : Server :=
  Eval vm_compute in snd (post create_request (idle [])).

(** The same with a tag given twice: the second tag row breaks the
    unique key after the content row has gone in. *)
Definition create_request_twice : Request :=
  request (Some "admin-token") 0 None (blog_body (Some ["ai"; "ai"])).

(** PUT /content/5 without tags, on a row that has two. *)
Definition update_request : Request :=
  request (Some "admin-token") 5 None (blog_body None).

Definition after_update : Server :=
  Eval vm_compute in snd (put update_request (idle [])).

(** PUT /content/999, complete fields, no tags, no row 999. *)
Definition update_missing_request : Request :=
  request (Some "admin-token") 999 None (blog_body None).

End Samples.

(** ** Predicates and constants of the statements *)

Module Spec.
Import JsString Storage Pool Express ContentRoutes.
Local Open Scope request_scope.

Definition starts_with (p : code_unit -> bool) (s : jsstring) : bool :=
  match s with
  | [] => false
  | c :: _ => p c
  end.

(** Two neighbouring code units never both satisfy [p]. *)
Fixpoint no_adjacent (p : code_unit -> bool) (s : jsstring) : bool :=
  match s with
  | [] => true
  | a :: s' => negb (p a && starts_with p s') && no_adjacent p s'
  end.

Definition no_token : Response :=
  {| status := 401; json := Message "No token, authorization denied" |}.

Definition forbidden : Response :=
  {| status := 403; json := Message "Access denied. Admin role required." |}.

Definition server_error : Response :=
  {| status := 500; json := Message "Server error" |}.

Definition content_not_found : Response :=
  {| status := 404; json := Message "Content not found" |}.

Definition media_not_found : Response :=
  {| status := 404; json := Message "Media not found" |}.

Definition cannot_set_tags : Error :=
  TypeError "Cannot set properties of undefined (setting 'tags')".

(** No fault lies ahead. *)
Definition quiet (st : Server) : Prop := forallb negb (faults st) = true.

(** The tables a rollback would leave. *)
Definition rolled_back (st : Server) : Tables :=
  match snapshot st with
  | Some t => t
  | None => tables (db st)
  end.

(** catch (err) { await connection.rollback(); connection.release();
    throw err; }: the error the block throws when it is entered with
    [e] in state [st]. The next fault flag is that of the ROLLBACK; when
    it is set, the rejection of [rollback] is what leaves the block. *)
Definition thrown_on (e : Error) (st : Server) : Error :=
  if hd false (faults st) then PROTOCOL_CONNECTION_LOST else e.

(** The connections borrowed after that block: [release] is reached
    only when the ROLLBACK got through. *)
Definition borrowed_after_catch (st : Server) : nat :=
  if hd false (faults st) then borrowed st else Nat.pred (borrowed st).

(** Ordered by [updated_at], latest first. *)
Definition newest_first (rows : list ContentRow) : Prop :=
  StronglySorted (fun a b => c_updated_at b <= c_updated_at a) rows.

(** The loop that attaches its tags to every item. *)
Definition attach_tags (item : ContentRow) : M ContentJson :=
  tags <- select (select_tags (c_id item)) ;;
  ret (ContentRoutes.with_tags item tags).

(** The filter the WHERE clause applies, if there is one. *)
Definition selected (type : option string) (d : Database) : list ContentRow :=
  match type with
  | Some ty => filter (fun r => String.eqb (c_type r) ty) (t_content (tables d))
  | None => t_content (tables d)
  end.

Definition tag_pair (r : TagRow) : Z * string := (ct_content_id r, ct_tag r).

(** What a committed creation has written: one content row, built from
    the request and carrying the generated id, and one tag row per
    submitted tag, in order; nothing else. *)
Definition created (req : Request) (contentId : Z) (before after : Database) : Prop :=
  t_content (tables after)
  = t_content (tables before)
    ++ [new_content_row contentId (current_timestamp before)
          (content_params (body req))]
  /\ (exists added,
         t_content_tags (tables after) = t_content_tags (tables before) ++ added
         /\ map tag_pair added = tag_values contentId (b_tags (body req)))
  /\ t_media (tables after) = t_media (tables before)
  /\ has_content_id contentId (t_content (tables before)) = false.

(** What a committed update has written: every content row of the id
    holds the request's values, and the tag rows of the id are the
    submitted tags, in order, and no others; nothing else has changed. *)
Definition replaced (req : Request) (before after : Database) : Prop :=
  t_content (tables after)
  = map (fun r =>
           if c_id r =? params_id req
           then assign_content (current_timestamp before) (content_params (body req)) r
           else r)
      (t_content (tables before))
  /\ (exists added,
         t_content_tags (tables after)
         = filter (fun r => negb (ct_content_id r =? params_id req))
             (t_content_tags (tables before)) ++ added
         /\ map tag_pair added = tag_values (params_id req) (b_tags (body req)))
  /\ t_media (tables after) = t_media (tables before).

(** [featured || false] *)
Definition featured_or_false (b : Body) : bool :=
  match b_featured b with Some f => f | None => false end.

(** The row holds the body's values in all ten writable columns. *)
Definition holds_body (r : ContentRow) (b : Body) : Prop :=
  b_type b = Some (c_type r)
  /\ b_title b = Some (c_title r)
  /\ b_content b = Some (c_content r)
  /\ b_slug b = Some (c_slug r)
  /\ b_author b = Some (c_author r)
  /\ c_featured r = featured_or_false b
  /\ c_image r = b_image b
  /\ c_category r = b_category b
  /\ c_position r = b_position b
  /\ c_company r = b_company b.


(** The database after the UPDATE left [d] and the tags of [id] were
    deleted. *)
Definition tags_deleted (id : Z) (d : Database) : Database :=
  with_tables d
    (with_content_tags (tables d)
       (filter (fun r => negb (ct_content_id r =? id)) (t_content_tags (tables d)))).

End Spec.

(** ** Predicates of the further properties *)

Module Laws.
Import Storage Pool Express.
Local Open Scope request_scope.

Definition invalid_token : Response :=
  {| status := 401; json := Message "Token is not valid" |}.

Definition not_authenticated : Response :=
  {| status := 401; json := Message "Not authenticated" |}.

(** Every run of [m] relates the state it starts in to the one it ends
    in by [R], whether it returns or throws. *)
Definition keeps {A} (R : Server -> Server -> Prop) (m : M A) : Prop :=
  forall st r st', m st = (r, st') -> R st st'.

(** Nothing but the list of coming faults differs. *)
Definition untouched (st st' : Server) : Prop :=
  db st' = db st /\ snapshot st' = snapshot st /\ borrowed st' = borrowed st.

(** Every value [m] returns satisfies [P]. *)
Definition answers {A} (P : A -> Prop) (m : M A) : Prop :=
  forall st a st', m st = (inr a, st') -> P a.

(** The constraints the migration script declares: primary keys, the
    unique [slug], the unique [(content_id, tag)], the foreign key of
    [content_tags] and the two ENUM columns. *)
Definition consistent (t : Tables) : Prop :=
  NoDup (map c_id (t_content t))
  /\ NoDup (map c_slug (t_content t))
  /\ Forall (fun r => is_content_type (c_type r) = true) (t_content t)
  /\ NoDup (map ct_id (t_content_tags t))
  /\ NoDup (map (fun r => (ct_content_id r, ct_tag r)) (t_content_tags t))
  /\ Forall (fun r => has_content_id (ct_content_id r) (t_content t) = true)
       (t_content_tags t)
  /\ NoDup (map m_id (t_media t))
  /\ Forall (fun r => is_media_type (m_type r) = true) (t_media t).

(** A server between two requests: consistent tables and no transaction
    left open. *)
Definition at_rest (st : Server) : Prop :=
  consistent (tables (db st)) /\ snapshot st = None.

End Laws.

(** ** The admin client *)

(** *** [./api]: the HTTP client

    The wrapper around the HTTP library is imported by the client's
    sources and kept out of the model: a call made through it either
    resolves with a response, of which only [response.data] is read, or
    rejects with an error. *)

Module ClientApi.

Inductive ClientError := RequestFailed | TypeError.

Inductive Reply (A : Type) :=
| Resolved (data : A)
| Rejected.
Arguments Resolved {A} data.
Arguments Rejected {A}.

(** An asynchronous function: the value of the promise it returns, or
    the error it rejects with. *)
Definition Throws (A : Type) : Type := (ClientError + A)%type.

Definition resolve {A} (a : A) : Throws A := inr a.
Definition reject {A} (e : ClientError) : Throws A := inl e.

(** [await api.get(...)], [await api.post(...)] and the like. *)
Definition await_api {A} (reply : Reply A) : Throws A :=
  match reply with
  | Resolved data => resolve data
  | Rejected => reject RequestFailed
  end.

Definition and_then {A B} (m : Throws A) (k : A -> Throws B) : Throws B :=
  match m with
  | inl e => inl e
  | inr a => k a
  end.

(** try { m } catch (error) { handler error } *)
Definition catch {A} (m : Throws A) (handler : ClientError -> Throws A) : Throws A :=
  match m with
  | inl e => handler e
  | inr a => inr a
  end.

(** [array.map(f)] for an [f] that may throw a TypeError. *)
Fixpoint map_throwing {A B} (f : A -> option B) (l : list A) : Throws (list B) :=
  match l with
  | [] => resolve []
  | a :: l' =>
      match f a with
      | None => reject TypeError
      | Some b => and_then (map_throwing f l') (fun bs => resolve (b :: bs))
      end
  end.

End ClientApi.

(** *** [contentManager.ts]: media records and the calls to the API *)

Module ContentClient.
Import Js Storage ContentManager ClientApi.

(** The object a media route answers with, as [formatMediaFromApi]
    receives it. *)
Record ApiMedia := {
  media_id : jsval;
  media_type : jsval;
  media_title : jsval;
  media_url : jsval;
  media_thumbnail_url : jsval;
  media_file_size : jsval;
  media_dimensions : jsval;
  media_created_at : jsval;
  media_uploaded_by : jsval
}.

(** The object literal that [formatMediaFromApi] builds. *)
Record MediaItem := {
  item_id : jsval;
  item_type : jsval;
  item_title : jsval;
  item_url : jsval;
  thumbnailUrl : jsval;
  fileSize : jsval;
  item_dimensions : jsval;
  uploadedAt : jsval;
  uploadedBy : jsval
}.

(** [None] is the TypeError thrown by [apiMedia.id.toString()]. *)
Definition formatMediaFromApi (apiMedia : ApiMedia) : option MediaItem :=
  match toString (media_id apiMedia) with
  | None => None
  | Some id_string =>
      Some {| item_id := JStr id_string;
              item_type := media_type apiMedia;
              item_title := media_title apiMedia;
              item_url := media_url apiMedia;
              thumbnailUrl := js_or (media_thumbnail_url apiMedia) JUndefined;
              fileSize := js_or (media_file_size apiMedia) JUndefined;
              item_dimensions := js_or (media_dimensions apiMedia) JUndefined;
              uploadedAt := media_created_at apiMedia;
              uploadedBy := media_uploaded_by apiMedia |}
  end.

(** The object literal that [formatMediaForApi] builds. *)
Record MediaBody := {
  body_type : jsval;
  body_title : jsval;
  body_url : jsval;
  body_thumbnail_url : jsval;
  body_file_size : jsval;
  body_dimensions : jsval;
  body_uploaded_by : jsval
}.

Definition formatMediaForApi (media : MediaItem) : MediaBody :=
  {| body_type := item_type media;
     body_title := item_title media;
     body_url := item_url media;
     body_thumbnail_url := thumbnailUrl media;
     body_file_size := fileSize media;
     body_dimensions := item_dimensions media;
     body_uploaded_by := uploadedBy media |}.

(** The object literal that [formatContentForApi] builds. *)
Record ContentBody := {
  body_content_type : jsval;
  body_content_title : jsval;
  body_content : jsval;
  body_slug : jsval;
  body_author : jsval;
  body_featured : jsval;
  body_image : jsval;
  body_category : jsval;
  body_tags : jsval;
  body_position : jsval;
  body_company : jsval
}.

Definition formatContentForApi (content : ContentItem) : ContentBody :=
  {| body_content_type := ContentManager.type content;
     body_content_title := ContentManager.title content;
     body_content := ContentManager.content content;
     body_slug := ContentManager.slug content;
     body_author := ContentManager.author content;
     body_featured := ContentManager.featured content;
     body_image := ContentManager.image content;
     body_category := ContentManager.category content;
     body_tags := ContentManager.tags content;
     body_position := ContentManager.position content;
     body_company := ContentManager.company content |}.

(** [res.json] of a row of [media], as the client reads it back. *)
Definition json_of_media (date_string : Z -> string) (m : MediaRow) : ApiMedia :=
  {| media_id := JNum (m_id m);
     media_type := JStr (m_type m);
     media_title := JStr (m_title m);
     media_url := JStr (m_url m);
     media_thumbnail_url := Wire.json_of_text (m_thumbnail_url m);
     media_file_size :=
       match m_file_size m with
       | Some n => JNum n
       | None => JNull
       end;
     media_dimensions := Wire.json_of_text (m_dimensions m);
     media_created_at := JStr (date_string (m_created_at m));
     media_uploaded_by := JStr (m_uploaded_by m) |}.

(** [getAllContent]; the argument is the outcome of
    [api.get('/content')]. *)
Definition getAllContent (reply : Reply (list ApiContent)) : Throws (list ContentItem) :=
  catch
    (and_then (await_api reply) (map_throwing formatContentFromApi))
    (fun _ => resolve []).

(** [getContentByType]; the argument is the outcome of the GET of
    [/content?type=...]. *)
Definition getContentByType (reply : Reply (list ApiContent)) : Throws (list ContentItem) :=
  catch
    (and_then (await_api reply) (map_throwing formatContentFromApi))
    (fun _ => resolve []).

(** [getContentById] *)
Definition getContentById (reply : Reply ApiContent) : Throws (option ContentItem) :=
  catch
    (and_then (await_api reply)
       (fun data =>
          match formatContentFromApi data with
          | Some item => resolve (Some item)
          | None => reject TypeError
          end))
    (fun _ => resolve None).

(** [createContent] and [updateContent] have the same body but for the
    request they send. *)
Definition createContent (reply : Reply ApiContent) : Throws ContentItem :=
  catch
    (and_then (await_api reply)
       (fun data =>
          match formatContentFromApi data with
          | Some item => resolve item
          | None => reject TypeError
          end))
    (fun error => reject error).

(** [deleteContent] *)
Definition deleteContent {A} (reply : Reply A) : Throws bool :=
  catch (and_then (await_api reply) (fun _ => resolve true))
        (fun _ => resolve false).

(** [getAllMedia] *)
Definition getAllMedia (reply : Reply (list ApiMedia)) : Throws (list MediaItem) :=
  catch
    (and_then (await_api reply) (map_throwing formatMediaFromApi))
    (fun _ => resolve []).

(** [deleteMedia] *)
Definition deleteMedia {A} (reply : Reply A) : Throws bool :=
  catch (and_then (await_api reply) (fun _ => resolve true))
        (fun _ => resolve false).

Record Stats := {
  pages : nat;
  blogPosts : nat;
  testimonials : nat;
  media : nat
}.

(** [getContentStats]; the arguments are the outcomes of the four
    requests. [Promise.all] resolves with the four results, or rejects
    with the first rejection. *)
Definition getContentStats
           (page_reply blog_reply testimonial_reply : Reply (list ApiContent))
           (media_reply : Reply (list ApiMedia)) : Throws Stats :=
  catch
    (and_then (getContentByType page_reply) (fun pages =>
     and_then (getContentByType blog_reply) (fun blogPosts =>
     and_then (getContentByType testimonial_reply) (fun testimonials =>
     and_then (getAllMedia media_reply) (fun mediaItems =>
     resolve {| pages := List.length pages;
                blogPosts := List.length blogPosts;
                testimonials := List.length testimonials;
                media := List.length mediaItems |})))))
    (fun _ => resolve {| pages := 0; blogPosts := 0; testimonials := 0; media := 0 |}).

End ContentClient.

(** *** [utils/auth.ts] and [AdminProtectedRoute.tsx] *)

Module AuthClient.
Import ClientApi.

(** [localStorage]: at most one value per key. *)
Definition LocalStorage := list (string * string).

Fixpoint getItem (key : string) (ls : LocalStorage) : option string :=
  match ls with
  | [] => None
  | (k, v) :: ls' => if String.eqb k key then Some v else getItem key ls'
  end.

Definition removeItem (key : string) (ls : LocalStorage) : LocalStorage :=
  filter (fun kv => negb (String.eqb (fst kv) key)) ls.

Definition setItem (key value : string) (ls : LocalStorage) : LocalStorage :=
  (key, value) :: removeItem key ls.

Record User := {
  user_id : Z;
  username : string;
  email : string;
  role : string
}.

Record AuthResponse := {
  token : string;
  user : User
}.

(** [login]; the argument is the outcome of [api.post('/auth/login',
    credentials)]. The error caught is thrown again. *)
Definition login (reply : Reply AuthResponse) (ls : LocalStorage)
  : Throws AuthResponse * LocalStorage :=
  match await_api reply with
  | inr data =>
      (resolve data,
       setItem "isAuthenticated" "true" (setItem "token" (token data) ls))
  | inl error => (reject error, ls)
  end.

Definition logout (ls : LocalStorage) : LocalStorage :=
  removeItem "isAuthenticated" (removeItem "token" ls).

(** [getCurrentUser]; the argument is the outcome of
    [api.get('/auth/user')], whose data is a user or [null]. *)
Definition getCurrentUser (reply : Reply (option User)) : Throws (option User) :=
  catch (await_api reply) (fun _ => resolve None).

Definition isAuthenticated (ls : LocalStorage) : bool :=
  match getItem "isAuthenticated" ls with
  | Some v => String.eqb v "true"
  | None => false
  end.

(** The two state variables of [AdminProtectedRoute]. *)
Record Guard := {
  loading : bool;
  authorized : bool
}.

Definition mounted : Guard := {| loading := true; authorized := false |}.

(** [checkAuth], run once by the effect; [reply] is what
    [api.get('/auth/user')] gives if it is called. *)
Definition checkAuth (ls : LocalStorage) (reply : Reply (option User)) : Guard :=
  if negb (isAuthenticated ls)
  then {| loading := false; authorized := false |}
  else
    match getCurrentUser reply with
    | inr (Some u) =>
        if String.eqb (role u) "admin"
        then {| loading := false; authorized := true |}
        else {| loading := false; authorized := false |}
    | inr None => {| loading := false; authorized := false |}
    | inl _ => {| loading := false; authorized := false |}
    end.

Inductive View := Spinner | RedirectToLogin | Children.

(** What the component returns. *)
Definition render (g : Guard) : View :=
  if loading g then Spinner
  else if negb (authorized g) then RedirectToLogin
  else Children.

End AuthClient.

(** *** [ContentEditor.tsx]: the form state and its handlers *)

Module ContentEditor.
Import JsString ContentManager.

Section Editor.
Context {CM : CaseMapping}.

(** [formData], a [Partial<ContentItem>]: [None] is a property that is
    not there. *)
Record FormData := {
  type : option jsstring;
  title : option jsstring;
  content : option jsstring;
  slug : option jsstring;
  author : option jsstring;
  featured : option bool;
  category : option jsstring;
  tags : option (list jsstring);
  position : option jsstring;
  company : option jsstring;
  image : option jsstring
}.

(** The [name] of the inputs that [handleChange] is attached to. *)
Inductive Input :=
| type_input | title_input | slug_input | author_input | content_input
| category_input | image_input | position_input | company_input.

(** { ...prev, [name]: value } *)
Definition set_field (name : Input) (value : jsstring) (prev : FormData) : FormData :=
  let v := Some value in
  match name with
  | type_input =>
      {| type := v; title := title prev; content := content prev;
         slug := slug prev; author := author prev; featured := featured prev;
         category := category prev; tags := tags prev;
         position := position prev; company := company prev;
         image := image prev |}
  | title_input =>
      {| type := type prev; title := v; content := content prev;
         slug := slug prev; author := author prev; featured := featured prev;
         category := category prev; tags := tags prev;
         position := position prev; company := company prev;
         image := image prev |}
  | slug_input =>
      {| type := type prev; title := title prev; content := content prev;
         slug := v; author := author prev; featured := featured prev;
         category := category prev; tags := tags prev;
         position := position prev; company := company prev;
         image := image prev |}
  | author_input =>
      {| type := type prev; title := title prev; content := content prev;
         slug := slug prev; author := v; featured := featured prev;
         category := category prev; tags := tags prev;
         position := position prev; company := company prev;
         image := image prev |}
  | content_input =>
      {| type := type prev; title := title prev; content := v;
         slug := slug prev; author := author prev; featured := featured prev;
         category := category prev; tags := tags prev;
         position := position prev; company := company prev;
         image := image prev |}
  | category_input =>
      {| type := type prev; title := title prev; content := content prev;
         slug := slug prev; author := author prev; featured := featured prev;
         category := v; tags := tags prev;
         position := position prev; company := company prev;
         image := image prev |}
  | image_input =>
      {| type := type prev; title := title prev; content := content prev;
         slug := slug prev; author := author prev; featured := featured prev;
         category := category prev; tags := tags prev;
         position := position prev; company := company prev;
         image := v |}
  | position_input =>
      {| type := type prev; title := title prev; content := content prev;
         slug := slug prev; author := author prev; featured := featured prev;
         category := category prev; tags := tags prev;
         position := v; company := company prev;
         image := image prev |}
  | company_input =>
      {| type := type prev; title := title prev; content := content prev;
         slug := slug prev; author := author prev; featured := featured prev;
         category := category prev; tags := tags prev;
         position := position prev; company := v;
         image := image prev |}
  end.

(** { ...prev, featured: checked } *)
Definition set_featured (checked : bool) (prev : FormData) : FormData :=
  {| type := type prev; title := title prev; content := content prev;
     slug := slug prev; author := author prev; featured := Some checked;
     category := category prev; tags := tags prev;
     position := position prev; company := company prev;
     image := image prev |}.

(** { ...prev, tags: new_tags } *)
Definition set_tags (new_tags : list jsstring) (prev : FormData) : FormData :=
  {| type := type prev; title := title prev; content := content prev;
     slug := slug prev; author := author prev; featured := featured prev;
     category := category prev; tags := Some new_tags;
     position := position prev; company := company prev;
     image := image prev |}.

(** The component's state, with the [id] of the route. *)
Record Editor := {
  id : option jsstring;
  formData : FormData;
  currentTag : jsstring;
  isLoading : bool;
  isSaved : bool;
  error : string
}.

Definition with_form (st : Editor) (f : FormData) (tag : jsstring) : Editor :=
  {| id := id st; formData := f; currentTag := tag;
     isLoading := isLoading st; isSaved := false; error := error st |}.

(** ToBoolean of a string that may be [undefined]. *)
Definition truthy_text (v : option jsstring) : bool :=
  match v with
  | Some (_ :: _) => true
  | _ => false
  end.

(** [a === b] on strings. *)
Definition same_text (a b : jsstring) : bool :=
  if list_eq_dec Z.eq_dec a b then true else false.

(** [prev.tags || []] *)
Definition tags_or_empty (f : FormData) : list jsstring :=
  match tags f with
  | Some l => l
  | None => []
  end.

(** The state a new editor starts in. *)
Definition initial (route_id : option jsstring) (contentType : jsstring) : Editor :=
  {| id := route_id;
     formData :=
       {| type := Some contentType; title := Some []; content := Some [];
          slug := Some []; author := Some (of_string "Admin");
          featured := Some false; category := Some []; tags := Some [];
          position := Some []; company := Some []; image := Some [] |};
     currentTag := [];
     isLoading := false;
     isSaved := false;
     error := "" |}.

(** The [formData] that the handler tests is that of the latest render,
    which is also the [prev] of the update when events come one by
    one. *)
Definition handleChange (name : Input) (value : jsstring) (st : Editor) : Editor :=
  match name with
  | title_input =>
      if negb (truthy_text (id st)) && negb (truthy_text (slug (formData st)))
      then with_form st
             (set_field slug_input (generateSlug value)
                (set_field name value (formData st)))
             (currentTag st)
      else with_form st (set_field name value (formData st)) (currentTag st)
  | _ => with_form st (set_field name value (formData st)) (currentTag st)
  end.

Definition handleCheckboxChange (checked : bool) (st : Editor) : Editor :=
  with_form st (set_featured checked (formData st)) (currentTag st).

Definition addTag (st : Editor) : Editor :=
  match trim (currentTag st) with
  | _ :: _ =>
      with_form st
        (set_tags (tags_or_empty (formData st) ++ [trim (currentTag st)])
           (formData st))
        []
  | [] => st
  end.

Definition handleTagKeyDown (key : string) (st : Editor) : Editor :=
  if String.eqb key "Enter" && truthy_text (Some (trim (currentTag st)))
  then addTag st
  else st.

Definition removeTag (tagToRemove : jsstring) (st : Editor) : Editor :=
  with_form st
    (set_tags
       (filter (fun tag => negb (same_text tag tagToRemove))
          (tags_or_empty (formData st)))
       (formData st))
    (currentTag st).

(** setCurrentTag(e.target.value) *)
Definition setCurrentTag (value : jsstring) (st : Editor) : Editor :=
  {| id := id st; formData := formData st; currentTag := value;
     isLoading := isLoading st; isSaved := isSaved st; error := error st |}.

(** What the user does to the form, by the handler the element is
    given. *)
Inductive Event :=
| Change (name : Input) (value : jsstring)
| CheckboxChange (checked : bool)
| TagInput (value : jsstring)
| TagKeyDown (key : string)
| AddTagClick
| RemoveTagClick (tag : jsstring).

Definition handle (e : Event) (st : Editor) : Editor :=
  match e with
  | Change name value => handleChange name value st
  | CheckboxChange checked => handleCheckboxChange checked st
  | TagInput value => setCurrentTag value st
  | TagKeyDown key => handleTagKeyDown key st
  | AddTagClick => addTag st
  | RemoveTagClick tag => removeTag tag st
  end.

(** One event after the other, each handled in the state the one
    before left. *)
Definition handle_all (events : list Event) (st : Editor) : Editor :=
  fold_left (fun s e => handle e s) events st.

End Editor.

End ContentEditor.

(* ================================================================== *)
(** * Part II: properties *)
(* ================================================================== *)

(** ** Facts about the string primitives *)

Module JsStringFacts.
Import JsString Spec.

Lemma replace_runs_forall (Q p : code_unit -> bool) r :
  Q r = true ->
  forall s b,
    forallb (fun c => p c || Q c) s = true ->
    forallb Q (replace_runs p r b s) = true.
Proof.
  intros Hr s; induction s as [|c s IH]; intros b H; simpl in *; auto.
  apply andb_true_iff in H as [Hc Hs].
  destruct (p c) eqn:Hp.
  - destruct b; simpl; rewrite ?Hr; apply IH; exact Hs.
  - simpl in Hc. simpl. rewrite Hc. apply IH; exact Hs.
Qed.

Lemma replace_runs_id p r :
  forall s b, forallb (fun c => negb (p c)) s = true ->
              replace_runs p r b s = s.
Proof.
  induction s as [|c s IH]; intros b H; simpl in *; auto.
  apply andb_true_iff in H as [Hc Hs].
  destruct (p c); simpl in *; try discriminate.
  f_equal; auto.
Qed.

(** After a run replacement no two class members are neighbours; with
    [in_run] set the result moreover does not start with one. *)
Lemma replace_runs_starts p r s :
  starts_with p (replace_runs p r true s) = false.
Proof.
  induction s as [|c s IH]; simpl; auto.
  destruct (p c) eqn:Hp; simpl; auto.
Qed.

Lemma replace_runs_no_adjacent p r :
  forall s b, no_adjacent p (replace_runs p r b s) = true.
Proof.
  induction s as [|c s IH]; intros b; simpl; auto.
  destruct (p c) eqn:Hp.
  - destruct b; auto.
    simpl. rewrite replace_runs_starts, andb_false_r. simpl. apply IH.
  - simpl. rewrite Hp. simpl. apply IH.
Qed.

(** A string whose class members are all the replacement itself and
    never adjacent is a fixed point of the run replacement. *)
Lemma replace_runs_fixed p r :
  (forall c, p c = true -> c = r) ->
  forall s, no_adjacent p s = true ->
    replace_runs p r false s = s /\
    (starts_with p s = false -> replace_runs p r true s = s).
Proof.
  intros Hp s; induction s as [|c s IH]; intros H; simpl in *; auto.
  apply andb_true_iff in H as [Hc Hs].
  destruct (IH Hs) as [IH1 IH2].
  destruct (p c) eqn:Hpc; simpl in Hc.
  - apply negb_true_iff in Hc.
    split; [|discriminate].
    rewrite (Hp c Hpc). f_equal. auto.
  - split; intros; f_equal; auto.
Qed.

Lemma trim_start_id s :
  forallb (fun c => negb (is_space c)) s = true -> trim_start s = s.
Proof.
  destruct s as [|c s]; simpl; auto.
  intros H. apply andb_true_iff in H as [Hc _].
  destruct (is_space c); simpl in *; congruence.
Qed.

Lemma forallb_rev {A} (f : A -> bool) l :
  forallb f (rev l) = forallb f l.
Proof.
  induction l as [|a l IH]; simpl; auto.
  rewrite forallb_app, IH. simpl. rewrite andb_true_r, andb_comm. reflexivity.
Qed.

Lemma trim_id s :
  forallb (fun c => negb (is_space c)) s = true -> trim s = s.
Proof.
  intros H. unfold trim. rewrite (trim_start_id s H).
  rewrite trim_start_id by (rewrite forallb_rev; exact H).
  apply rev_involutive.
Qed.

Lemma forallb_impl {A} (f g : A -> bool) l :
  (forall a, f a = true -> g a = true) ->
  forallb f l = true -> forallb g l = true.
Proof.
  intros Hfg. induction l as [|a l IH]; simpl; auto.
  intros H. apply andb_true_iff in H as [Ha Hl].
  rewrite (Hfg a Ha). auto.
Qed.

Lemma slug_unit_not_space c : slug_unit c = true -> is_space c = false.
Proof.
  unfold slug_unit, is_space, is_lower, is_digit, is_hyphen, HYPHEN.
  intros H.
  repeat (apply orb_true_iff in H as [H|H]);
    repeat match goal with
           | H : (_ && _) = true |- _ => apply andb_true_iff in H as [? ?]
           | H : (_ <=? _) = true |- _ => apply Z.leb_le in H
           | H : (_ =? _) = true |- _ => apply Z.eqb_eq in H
           end;
    repeat (apply orb_false_iff; split);
    try (apply andb_false_iff);
    try (apply Z.eqb_neq; lia);
    try (left; apply Z.leb_gt; lia);
    try (right; apply Z.leb_gt; lia).
Qed.

Lemma no_adjacent_spec p s :
  no_adjacent p s = true ->
  forall pre a b post, s = pre ++ a :: b :: post -> p a = true -> p b = false.
Proof.
  induction s as [|c s IH]; intros H pre a b post E Ha.
  - destruct pre; discriminate.
  - simpl in H. apply andb_true_iff in H as [Hc Hs].
    destruct pre as [|x pre]; simpl in E; injection E as -> Es.
    + subst s. simpl in Hc. rewrite Ha in Hc. simpl in Hc.
      apply negb_true_iff in Hc. exact Hc.
    + exact (IH Hs pre a b post Es Ha).
Qed.

End JsStringFacts.

(** ** [generateSlug] *)

Module SlugFacts.
Import JsString Spec JsStringFacts ContentManager.

Lemma ascii_lower_no_upper s :
  forallb (fun c => negb (is_upper c)) (ascii_toLowerCase s) = true.
Proof.
  induction s as [|c s IH]; simpl; auto.
  rewrite IH, andb_true_r.
  unfold ascii_lower_unit. destruct (is_upper c) eqn:E.
  - unfold is_upper in *. apply andb_true_iff in E as [E1 E2].
    apply Z.leb_le in E1, E2. apply negb_true_iff, andb_false_iff.
    right. apply Z.leb_gt. lia.
  - rewrite E. reflexivity.
Qed.

Lemma slug_unit_not_upper c : slug_unit c = true -> is_upper c = false.
Proof.
  unfold slug_unit, is_upper, is_lower, is_digit, is_hyphen, HYPHEN.
  intros H. apply andb_false_iff.
  repeat (apply orb_true_iff in H as [H|H]);
    repeat match goal with
           | H : (_ && _) = true |- _ => apply andb_true_iff in H as [? ?]
           | H : (_ <=? _) = true |- _ => apply Z.leb_le in H
           | H : (_ =? _) = true |- _ => apply Z.eqb_eq in H
           end;
    solve [left; apply Z.leb_gt; lia | right; apply Z.leb_gt; lia].
Qed.

Lemma ascii_lower_slug_units s :
  forallb slug_unit s = true -> ascii_toLowerCase s = s.
Proof.
  induction s as [|c s IH]; simpl; auto.
  intros H. apply andb_true_iff in H as [Hc Hs].
  unfold ascii_lower_unit. rewrite (slug_unit_not_upper c Hc), (IH Hs).
  reflexivity.
Qed.

(** The ASCII case mapping satisfies the two laws. *)
#[export] Instance ascii_case_mapping : CaseMapping :=
  {| toLowerCase := ascii_toLowerCase;
     toLowerCase_no_upper := ascii_lower_no_upper;
     toLowerCase_slug_units := ascii_lower_slug_units |}.

Section WithCaseMapping.
Context {CM : CaseMapping}.

(** What is left after the deletion step, in a lowered string, is a
    slug unit or white space. *)
Lemma kept_lowered_units s :
  forallb (fun c => negb (is_upper c)) s = true ->
  forallb (fun c => is_space c || slug_unit c) (remove_outside kept s) = true.
Proof.
  induction s as [|c s IH]; simpl; auto.
  intros H. apply andb_true_iff in H as [Hc Hs].
  destruct (kept c) eqn:K; auto.
  simpl. rewrite (IH Hs), andb_true_r.
  unfold kept, is_word in K. unfold slug_unit.
  apply negb_true_iff in Hc. rewrite Hc in K. simpl in K.
  destruct (is_space c); simpl; auto.
  rewrite orb_false_r in K. exact K.
Qed.

Lemma hyphenated_units s : forallb slug_unit (hyphenated s) = true.
Proof.
  unfold hyphenated.
  apply (replace_runs_forall slug_unit is_hyphen); [reflexivity|].
  apply forallb_impl with (f := slug_unit).
  { intros a Ha. rewrite Ha. apply orb_true_r. }
  apply (replace_runs_forall slug_unit is_space); [reflexivity|].
  apply kept_lowered_units, toLowerCase_no_upper.
Qed.

Lemma hyphenated_no_space s :
  forallb (fun c => negb (is_space c)) (hyphenated s) = true.
Proof.
  apply forallb_impl with (f := slug_unit); [|apply hyphenated_units].
  intros a Ha. rewrite (slug_unit_not_space a Ha). reflexivity.
Qed.

Lemma generateSlug_hyphenated s : generateSlug s = hyphenated s.
Proof. apply trim_id, hyphenated_no_space. Qed.

Lemma remove_outside_units s :
  forallb slug_unit s = true -> remove_outside kept s = s.
Proof.
  induction s as [|c s IH]; simpl; auto.
  intros H. apply andb_true_iff in H as [Hc Hs].
  assert (K : kept c = true).
  { unfold kept, is_word. unfold slug_unit in Hc.
    destruct (is_upper c), (is_lower c), (is_digit c), (c =? 95),
      (is_space c), (is_hyphen c); simpl in *; auto. }
  rewrite K, (IH Hs). reflexivity.
Qed.

Lemma hyphenated_fixed s :
  forallb slug_unit s = true -> no_adjacent is_hyphen s = true ->
  hyphenated s = s.
Proof.
  intros Hu Ha. unfold hyphenated.
  rewrite (toLowerCase_slug_units s Hu), (remove_outside_units s Hu).
  rewrite (replace_runs_id is_space).
  - apply replace_runs_fixed; auto.
    intros c Hc. apply Z.eqb_eq in Hc. exact Hc.
  - apply forallb_impl with (f := slug_unit); auto.
    intros a H. rewrite (slug_unit_not_space a H). reflexivity.
Qed.

(** C9. [generateSlug] is idempotent, and its result holds no white
    space and no two hyphens in a row, for every title and every case
    mapping that obeys the two laws of [CaseMapping]. *)
Theorem generateSlug_idempotent_clean (title : jsstring) :
  generateSlug (generateSlug title) = generateSlug title
  /\ (forall c, In c (generateSlug title) -> is_space c = false)
  /\ (forall pre post,
         generateSlug title <> pre ++ HYPHEN :: HYPHEN :: post).
Proof.
  rewrite !generateSlug_hyphenated.
  pose proof (hyphenated_units title) as Hu.
  assert (Ha : no_adjacent is_hyphen (hyphenated title) = true)
    by apply replace_runs_no_adjacent.
  split; [|split].
  - apply hyphenated_fixed; assumption.
  - intros c Hc. apply slug_unit_not_space.
    rewrite forallb_forall in Hu. auto.
  - intros pre post E.
    pose proof (no_adjacent_spec _ _ Ha pre HYPHEN HYPHEN post E eq_refl).
    discriminate.
Qed.
End WithCaseMapping.

(** A run on a concrete title, with the ASCII case mapping. *)
Example generateSlug_hello :
  generateSlug (of_string "  Hello,  World -- 2024! ")
  = of_string "-hello-world-2024-".
Proof. vm_compute. reflexivity. Qed.

End SlugFacts.

(** ** [formatContentFromApi] *)

Module ApiFormatFacts.
Import Js ContentManager.

Lemma js_or_falsy a b : truthy a = false -> js_or a b = b.
Proof. unfold js_or. intros ->. reflexivity. Qed.

Lemma js_or_truthy a b : truthy a = true -> js_or a b = a.
Proof. unfold js_or. intros ->. reflexivity. Qed.

Lemma null_or_empty_falsy v : v = JNull \/ v = JStr "" -> truthy v = false.
Proof. intros [-> | ->]; reflexivity. Qed.

(** Outside the records the routes send, a truthy [tags] value that is no
    array is handed on as it is. *)
Remark formatContentFromApi_tags_passed_on a item :
  formatContentFromApi a = Some item ->
  truthy (api_tags a) = true -> tags item = api_tags a.
Proof.
  unfold formatContentFromApi. destruct (toString (api_id a)); [|discriminate].
  intros [= <-] H. simpl. apply js_or_truthy, H.
Qed.

(** C10. For every API response record, [formatContentFromApi] returns an
    item whose [tags] is an array (the empty one when the record has no
    tags), whose [featured] is a boolean, and whose [image], [category],
    [position] and [company] are [undefined] whenever the API value is
    [null] or the empty string. *)
Theorem formatContentFromApi_normalizes (a : ApiContent) :
  api_response_record a = true ->
  exists item,
    formatContentFromApi a = Some item
    /\ (exists l, tags item = JArr l)
    /\ (is_nullish (api_tags a) = true -> tags item = JArr [])
    /\ (exists b, featured item = JBool b)
    /\ (api_image a = JNull \/ api_image a = JStr "" -> image item = JUndefined)
    /\ (api_category a = JNull \/ api_category a = JStr "" ->
        category item = JUndefined)
    /\ (api_position a = JNull \/ api_position a = JStr "" ->
        position item = JUndefined)
    /\ (api_company a = JNull \/ api_company a = JStr "" ->
        company item = JUndefined).
Proof.
  unfold api_response_record. intros H.
  apply andb_true_iff in H as [Hid Htags].
  unfold formatContentFromApi.
  destruct (api_id a) as [| | |n| | |] eqn:Eid; try discriminate.
  simpl. eexists. split; [reflexivity|]. simpl.
  repeat split.
  - destruct (api_tags a) as [| | | | |l|]; try discriminate;
      unfold js_or; simpl; eauto.
  - intros Hn. destruct (api_tags a); try discriminate; reflexivity.
  - eexists. reflexivity.
  - intros Hv. apply js_or_falsy, null_or_empty_falsy, Hv.
  - intros Hv. apply js_or_falsy, null_or_empty_falsy, Hv.
  - intros Hv. apply js_or_falsy, null_or_empty_falsy, Hv.
  - intros Hv. apply js_or_falsy, null_or_empty_falsy, Hv.
Qed.

Lemma formatContentFromApi_normalizes_witness :
  exists item,
    formatContentFromApi sample_api_testimonial = Some item
    /\ (exists l, tags item = JArr l)
    /\ (is_nullish (api_tags sample_api_testimonial) = true -> tags item = JArr [])
    /\ (exists b, featured item = JBool b)
    /\ (api_image sample_api_testimonial = JNull
        \/ api_image sample_api_testimonial = JStr "" -> image item = JUndefined)
    /\ (api_category sample_api_testimonial = JNull
        \/ api_category sample_api_testimonial = JStr "" ->
        category item = JUndefined)
    /\ (api_position sample_api_testimonial = JNull
        \/ api_position sample_api_testimonial = JStr "" ->
        position item = JUndefined)
    /\ (api_company sample_api_testimonial = JNull
        \/ api_company sample_api_testimonial = JStr "" ->
        company item = JUndefined).
Proof.
  apply (formatContentFromApi_normalizes sample_api_testimonial).
  reflexivity.
Defined.

Example formatContentFromApi_sample :
  formatContentFromApi sample_api_testimonial
  = Some {| id := JStr "7";
            type := JStr "testimonial";
            title := JStr "Incredible Analytics";
            content := JStr "The insights have helped us.";
            slug := JStr "testimonial-2";
            author := JStr "Hakim Mulinde";
            createdAt := JStr "2025-03-02T07:24:01.000Z";
            updatedAt := JStr "2025-03-02T07:24:01.000Z";
            featured := JBool false;
            image := JUndefined;
            category := JUndefined;
            tags := JArr [];
            position := JStr "CTO";
            company := JStr "Nkumba University" |}.
Proof. reflexivity. Qed.

(** Every item a content route sends is such a record. *)
Lemma sent_content_is_api_record date_string c :
  api_response_record (Wire.json_of_content date_string c) = true.
Proof. reflexivity. Qed.

Example toString_array :
  toString (JArr [JNum 1; JNull; JStr "a"; JArr [JNum 2; JNum 3]])
  = Some "1,,a,2,3".
Proof. reflexivity. Qed.

End ApiFormatFacts.

(** ** Authentication and authorisation *)

Module AuthFacts.
Import Storage Pool Express Auth App Samples Spec.

(** C5 as stated fails: with no key in the environment the module loads
    all the same, and the key is the one written in the source. *)
Lemma load_without_key_falls_back :
  truthy_string None = false
  /\ load_auth_module None = Some FALLBACK_SECRET
  /\ load_auth_module None <> None.
Proof. repeat split. discriminate. Qed.

(** C5, as the code has it. The key is computed once, when the module
    loads, and loading never fails: a non-empty JWT_SECRET of the
    environment is the key, and with JWT_SECRET unset or empty the key is
    the default written in the source. That value is the key every
    mutating route verifies tokens with. *)
Theorem JWT_SECRET_from_env_or_fallback (env_JWT_SECRET : option string) :
  load_auth_module env_JWT_SECRET = Some (JWT_SECRET env_JWT_SECRET)
  /\ (truthy_string env_JWT_SECRET = false ->
      JWT_SECRET env_JWT_SECRET = FALLBACK_SECRET)
  /\ (forall key, env_JWT_SECRET = Some key -> key <> "" ->
      JWT_SECRET env_JWT_SECRET = key)
  /\ (forall (JWT : Jsonwebtoken) r, mutating r = true ->
      hd_error (stack env_JWT_SECRET r)
      = Some (authenticate (JWT_SECRET env_JWT_SECRET))).
Proof.
  repeat split.
  - unfold JWT_SECRET. intros ->. reflexivity.
  - intros key -> Hkey. unfold JWT_SECRET. simpl.
    destruct (String.eqb_spec key ""); [contradiction | reflexivity].
  - intros JWT r Hm. destruct r; try discriminate; reflexivity.
Qed.

Lemma JWT_SECRET_from_env_or_fallback_witness :
  load_auth_module (Some "") = Some (JWT_SECRET (Some ""))
  /\ JWT_SECRET (Some "") = FALLBACK_SECRET
  /\ JWT_SECRET (Some "s3cret") = "s3cret".
Proof.
  split; [|split].
  - exact (proj1 (JWT_SECRET_from_env_or_fallback (Some ""))).
  - exact (proj1 (proj2 (JWT_SECRET_from_env_or_fallback (Some ""))) eq_refl).
  - apply (proj1 (proj2 (proj2 (JWT_SECRET_from_env_or_fallback (Some "s3cret"))))
             "s3cret" eq_refl).
    discriminate.
Defined.

Section WithJwt.
Context {JWT : Jsonwebtoken}.
Variable env_JWT_SECRET : option string.

Lemma stack_of_mutating (r : Route) :
  mutating r = true ->
  stack env_JWT_SECRET r
  = [authenticate (JWT_SECRET env_JWT_SECRET); isAdmin; final_handler r].
Proof. destruct r; simpl; intros H; try discriminate; reflexivity. Qed.

(** [authenticate] answers a request without a token itself, whatever
    comes after it in the stack. *)
Lemma authenticate_short_circuits secret (rest : list Handler) req st :
  truthy_string (x_auth_token req) = false ->
  run (authenticate secret :: rest) req st = (no_token, st).
Proof. intros H. simpl. unfold authenticate. rewrite H. reflexivity. Qed.

Lemma non_admin_is_forbidden secret (h : Handler) req st u :
  truthy_string (x_auth_token req) = true ->
  verify (text (x_auth_token req)) secret = Some u ->
  role u <> "admin" ->
  run [authenticate secret; isAdmin; h] req st = (forbidden, st).
Proof.
  intros Ht Hv Hr. simpl. unfold authenticate. rewrite Ht, Hv. simpl.
  unfold isAdmin. simpl.
  destruct (String.eqb_spec (role u) "admin"); [contradiction | reflexivity].
Qed.

(** C3. A request without the credential header to a mutating content or
    media route is answered 401 with the no-token message, and the
    server state, stored rows included, is what it was: no handler of the
    store ran. *)
Theorem no_credential_is_401_and_no_mutation (r : Route) req st :
  mutating r = true ->
  x_auth_token req = None ->
  handle env_JWT_SECRET r req st = (no_token, st).
Proof.
  intros Hm Ht. unfold handle. rewrite (stack_of_mutating r Hm).
  apply authenticate_short_circuits. rewrite Ht. reflexivity.
Qed.

(** C4. On every mutating route the stack is [authenticate], then
    [isAdmin], then the handler; a missing credential is answered by
    [authenticate] whatever follows it, so the role check does not run;
    and a valid credential whose role is not admin is answered 403 with
    the server state as it was. *)
Theorem identity_before_role_check (r : Route) :
  mutating r = true ->
  stack env_JWT_SECRET r
  = [authenticate (JWT_SECRET env_JWT_SECRET); isAdmin; final_handler r]
  /\ (forall rest req st,
         x_auth_token req = None ->
         run (authenticate (JWT_SECRET env_JWT_SECRET) :: rest) req st
         = (no_token, st))
  /\ (forall req st token u,
         x_auth_token req = Some token ->
         token <> "" ->
         verify token (JWT_SECRET env_JWT_SECRET) = Some u ->
         role u <> "admin" ->
         handle env_JWT_SECRET r req st = (forbidden, st)).
Proof.
  intros Hm. split; [|split].
  - apply stack_of_mutating, Hm.
  - intros rest req st Ht. apply authenticate_short_circuits.
    rewrite Ht. reflexivity.
  - intros req st token u Ht Hne Hv Hr.
    unfold handle. rewrite (stack_of_mutating r Hm).
    apply non_admin_is_forbidden with (u := u); auto.
    + rewrite Ht. simpl. destruct (String.eqb_spec token ""); auto.
    + rewrite Ht. exact Hv.
Qed.

End WithJwt.

Lemma no_credential_is_401_and_no_mutation_witness :
  handle None PUT_content_id
    (request None 5 None (blog_body (Some ["ai"]))) (idle [])
  = (no_token, idle []).
Proof.
  apply (no_credential_is_401_and_no_mutation None PUT_content_id);
    reflexivity.
Defined.

Lemma identity_before_role_check_witness :
  handle None DELETE_media_id
    (request (Some "editor-token") 1 None empty_body) (idle [])
  = (forbidden, idle []).
Proof.
  apply (proj2 (proj2 (identity_before_role_check None DELETE_media_id eq_refl)))
    with (token := "editor-token") (u := {| user_id := 2; role := "editor" |});
    [reflexivity | discriminate | reflexivity | discriminate].
Defined.

(** An admin's request does reach the handler. *)
Example admin_delete_reaches_store :
  handle None DELETE_media_id
    (request (Some "admin-token") 1 None empty_body) (idle [])
  = ({| status := 200; json := Message "Media deleted" |},
     set_db (idle [])
       (with_tables seed_db (with_media seed_tables []))).
Proof. reflexivity. Qed.

End AuthFacts.

(** ** The pool primitives *)

Module PoolFacts.
Import Storage Pool Express Spec.
Local Open Scope request_scope.

(** A round trip touches nothing but the list of faults to come. *)
Lemma round_trip_inv st r st' :
  round_trip st = (r, st') ->
  db st' = db st /\ snapshot st' = snapshot st /\ borrowed st' = borrowed st.
Proof.
  unfold round_trip. destruct (faults st) as [|[] rest]; intros [= <- <-]; auto.
Qed.

Lemma round_trip_quiet st :
  quiet st ->
  exists st', round_trip st = (inr tt, st')
              /\ db st' = db st /\ snapshot st' = snapshot st
              /\ borrowed st' = borrowed st /\ quiet st'.
Proof.
  unfold quiet, round_trip. destruct (faults st) as [|[] rest] eqn:E; simpl.
  - intros _. exists st. rewrite E. auto.
  - discriminate.
  - intros H. eexists. repeat split; auto.
Qed.

Lemma query_inv {A} (statement : Database -> Result (A * Database)) st r st' :
  query statement st = (r, st') ->
  snapshot st' = snapshot st /\ borrowed st' = borrowed st
  /\ match r with
     | inl e => db st' = db st
     | inr a => statement (db st) = inr (a, db st')
     end.
Proof.
  unfold query, bind.
  destruct (round_trip st) as [[e|[]] st1] eqn:E;
    apply round_trip_inv in E as (Hd & Hs & Hb).
  - intros [= <- <-]. auto.
  - rewrite <- Hd, <- Hs, <- Hb.
    destruct (statement (db st1)) as [e|[a d]] eqn:F; intros [= <- <-]; simpl; auto.
Qed.

Lemma query_quiet {A} (statement : Database -> Result (A * Database)) st :
  quiet st ->
  exists st1,
    quiet st1 /\ snapshot st1 = snapshot st /\ borrowed st1 = borrowed st
    /\ db st1 = db st
    /\ query statement st
       = match statement (db st) with
         | inl e => (inl e, st1)
         | inr (a, d) => (inr a, set_db st1 d)
         end.
Proof.
  intros Hq. destruct (round_trip_quiet st Hq) as (st1 & E & Hd & Hs & Hb & Hq1).
  exists st1. repeat split; auto.
  unfold query, bind. rewrite E, Hd. reflexivity.
Qed.

Lemma select_inv {A} (rows : Database -> A) st r st' :
  select rows st = (r, st') ->
  db st' = db st /\ snapshot st' = snapshot st /\ borrowed st' = borrowed st
  /\ match r with
     | inl e => True
     | inr a => a = rows (db st)
     end.
Proof.
  unfold select. intros H. apply query_inv in H as (Hs & Hb & H).
  destruct r as [e|a]; auto.
  injection H as -> <-. auto.
Qed.

Lemma select_quiet {A} (rows : Database -> A) st :
  quiet st ->
  exists st1,
    select rows st = (inr (rows (db st)), st1)
    /\ quiet st1 /\ snapshot st1 = snapshot st /\ borrowed st1 = borrowed st
    /\ db st1 = db st.
Proof.
  intros Hq.
  destruct (query_quiet (fun d => inr (rows d, d)) st Hq)
    as (st1 & Hq1 & Hs & Hb & Hd & E).
  exists (set_db st1 (db st)). unfold select. rewrite E.
  repeat split; auto.
Qed.

Lemma getConnection_inv st r st' :
  getConnection st = (r, st') ->
  db st' = db st
  /\ match r with
     | inl e => True
     | inr _ => snapshot st' = None
     end.
Proof.
  unfold getConnection, bind.
  destruct (round_trip st) as [[e|[]] st1] eqn:E;
    apply round_trip_inv in E as (Hd & Hs & Hb); intros [= <- <-]; auto.
Qed.

Lemma beginTransaction_inv st r st' :
  beginTransaction st = (r, st') ->
  db st' = db st
  /\ match r with
     | inl e => snapshot st' = snapshot st
     | inr _ => snapshot st' = Some (tables (db st))
     end.
Proof.
  unfold beginTransaction, bind.
  destruct (round_trip st) as [[e|[]] st1] eqn:E;
    apply round_trip_inv in E as (Hd & Hs & Hb); intros [= <- <-]; simpl; auto.
  rewrite Hd. auto.
Qed.

Lemma commit_inv st r st' :
  commit st = (r, st') ->
  db st' = db st
  /\ match r with
     | inl e => snapshot st' = snapshot st
     | inr _ => snapshot st' = None
     end.
Proof.
  unfold commit, bind.
  destruct (round_trip st) as [[e|[]] st1] eqn:E;
    apply round_trip_inv in E as (Hd & Hs & Hb); intros [= <- <-]; simpl; auto.
Qed.

Lemma rollback_inv st r st' :
  rollback st = (r, st') ->
  tables (db st') = rolled_back st
  /\ snapshot st' = None
  /\ borrowed st' = borrowed st
  /\ r = (if hd false (faults st) then inl PROTOCOL_CONNECTION_LOST else inr tt)
  /\ faults st' = tl (faults st).
Proof.
  unfold rollback, round_trip, undo_transaction, rolled_back.
  destruct (snapshot st) as [t|] eqn:Hs; simpl; rewrite ?Hs;
    destruct (faults st) as [|[] rest] eqn:Hf; intros [= <- <-]; simpl;
    rewrite ?Hs, ?Hf; repeat split; auto.
Qed.

(** catch (err) { await connection.rollback(); connection.release();
    throw err; }: the block always throws, and what it throws and
    whether it has released the connection depend on the ROLLBACK
    getting through. *)
Lemma rollback_release_throw {A} (e : Error) st :
  exists st',
    (rollback ;; release ;; throw e) st = (@inl Error A (thrown_on e st), st')
    /\ tables (db st') = rolled_back st
    /\ snapshot st' = None
    /\ borrowed st' = borrowed_after_catch st.
Proof.
  unfold bind, thrown_on, borrowed_after_catch.
  destruct (rollback st) as [r s1] eqn:E.
  apply rollback_inv in E as (Ht & Hs & Hb & -> & _).
  destruct (hd false (faults st)).
  - exists s1. auto.
  - eexists. split; [reflexivity|]. simpl. rewrite Hb. auto.
Qed.

(** Outside a transaction and with no fault ahead the block leaves the
    database alone and throws the error it was entered with. *)
Lemma rollback_release_throw_quiet {A} (e : Error) st :
  quiet st ->
  snapshot st = None ->
  exists st',
    (rollback ;; release ;; throw e) st = (@inl Error A e, st')
    /\ db st' = db st.
Proof.
  intros Hq Hs. unfold bind, rollback, undo_transaction. rewrite Hs.
  destruct (round_trip_quiet st Hq) as (s1 & E & Hd & _). rewrite E.
  eexists. split; [reflexivity|]. exact Hd.
Qed.

Lemma thrown_on_quiet e st : quiet st -> thrown_on e st = e.
Proof.
  unfold quiet, thrown_on. destruct (faults st) as [|[] rest]; simpl; auto.
  discriminate.
Qed.

Lemma bind_inr {A B} (m : M A) (k : A -> M B) st a st' :
  m st = (inr a, st') -> bind m k st = k a st'.
Proof. unfold bind. intros ->. reflexivity. Qed.

Lemma bind_inl {A B} (m : M A) (k : A -> M B) st e st' :
  m st = (inl e, st') -> bind m k st = (inl e, st').
Proof. unfold bind. intros ->. reflexivity. Qed.

Lemma getConnection_quiet st :
  quiet st ->
  exists st1,
    getConnection st = (inr tt, st1)
    /\ quiet st1 /\ db st1 = db st /\ snapshot st1 = None.
Proof.
  intros Hq. destruct (round_trip_quiet st Hq) as (s & E & Hd & _ & _ & Hq1).
  eexists. unfold getConnection. rewrite (bind_inr _ _ _ _ _ E).
  split; [reflexivity|]. auto.
Qed.

Lemma beginTransaction_quiet st :
  quiet st ->
  exists st1,
    beginTransaction st = (inr tt, st1)
    /\ quiet st1 /\ db st1 = db st /\ snapshot st1 = Some (tables (db st)).
Proof.
  intros Hq. destruct (round_trip_quiet st Hq) as (s & E & Hd & _ & _ & Hq1).
  eexists. unfold beginTransaction. rewrite (bind_inr _ _ _ _ _ E).
  split; [reflexivity|]. simpl. rewrite Hd. auto.
Qed.

Lemma commit_quiet st :
  quiet st ->
  exists st1,
    commit st = (inr tt, st1)
    /\ quiet st1 /\ db st1 = db st /\ snapshot st1 = None.
Proof.
  intros Hq. destruct (round_trip_quiet st Hq) as (s & E & Hd & _ & _ & Hq1).
  eexists. unfold commit. rewrite (bind_inr _ _ _ _ _ E).
  split; [reflexivity|]. auto.
Qed.

(** A statement that goes through, with no fault ahead. *)
Lemma query_quiet_ok {A} (statement : Database -> Result (A * Database)) st a d :
  quiet st ->
  statement (db st) = inr (a, d) ->
  exists st1,
    query statement st = (inr a, st1)
    /\ quiet st1 /\ db st1 = d /\ snapshot st1 = snapshot st.
Proof.
  intros Hq Hs.
  destruct (query_quiet statement st Hq) as (s & Hq1 & Hsn & _ & _ & E).
  rewrite Hs in E. exists (set_db s d). auto.
Qed.

End PoolFacts.

(** ** Deleting *)

Module DeleteFacts.
Import Storage Pool Express Spec PoolFacts Samples.
Local Open Scope request_scope.

Lemma filter_none {A} (f : A -> bool) l :
  existsb f l = false -> filter f l = [] /\ filter (fun a => negb (f a)) l = l.
Proof.
  induction l as [|a l IH]; simpl; auto.
  destruct (f a); simpl; [discriminate|].
  intros H. destruct (IH H) as [-> ->]. auto.
Qed.

(** A DELETE that matches no row reports zero affected rows, raises
    nothing and leaves the database as it was. *)
Lemma delete_content_missing id d :
  has_content_id id (t_content (tables d)) = false ->
  delete_content id d = inr (0, d).
Proof.
  intros H. unfold delete_content. rewrite H.
  destruct (filter_none _ _ H) as [-> ->].
  destruct d as [[c t m] a1 a2 a3 ts]. reflexivity.
Qed.

Lemma delete_media_missing id d :
  existsb (fun r => m_id r =? id) (t_media (tables d)) = false ->
  delete_media id d = inr (0, d).
Proof.
  intros H. unfold delete_media.
  destruct (filter_none _ _ H) as [-> ->].
  destruct d as [[c t m] a1 a2 a3 ts]. reflexivity.
Qed.

Lemma round_trip_unfaulted st :
  hd false (faults st) = false ->
  exists st', round_trip st = (inr tt, st') /\ db st' = db st.
Proof.
  unfold round_trip. destruct (faults st) as [|[] rest]; simpl; intros H;
    try discriminate; eexists; split; reflexivity.
Qed.

(** C7. When the round trip itself is not cut off, deleting an id that
    no row has makes the DELETE report zero affected rows without an
    error; the content and the media handler then answer 404, raise
    nothing, and the database is what it was. *)
Theorem delete_missing_id_is_404 req st :
  hd false (faults st) = false ->
  (has_content_id (params_id req) (t_content (tables (db st))) = false ->
   delete_content (params_id req) (db st) = inr (0, db st)
   /\ exists st',
       ContentRoutes.delete_body req st = (inr content_not_found, st')
       /\ ContentRoutes.delete req st = (Sent content_not_found, st')
       /\ db st' = db st)
  /\ (existsb (fun r => m_id r =? params_id req) (t_media (tables (db st))) = false ->
      delete_media (params_id req) (db st) = inr (0, db st)
      /\ exists st',
          MediaRoutes.delete_body req st = (inr media_not_found, st')
          /\ MediaRoutes.delete req st = (Sent media_not_found, st')
          /\ db st' = db st).
Proof.
  intros Hf. destruct (round_trip_unfaulted st Hf) as (st1 & E & Hd).
  split; intros Hid.
  - pose proof (delete_content_missing _ _ Hid) as D. split; [exact D|].
    exists (set_db st1 (db st)).
    assert (B : ContentRoutes.delete_body req st
                = (inr content_not_found, set_db st1 (db st))).
    { unfold ContentRoutes.delete_body, bind, query, bind.
      rewrite E, Hd, D. reflexivity. }
    repeat split; auto.
    unfold ContentRoutes.delete, respond. rewrite B. reflexivity.
  - pose proof (delete_media_missing _ _ Hid) as D. split; [exact D|].
    exists (set_db st1 (db st)).
    assert (B : MediaRoutes.delete_body req st
                = (inr media_not_found, set_db st1 (db st))).
    { unfold MediaRoutes.delete_body, bind, query, bind.
      rewrite E, Hd, D. reflexivity. }
    repeat split; auto.
    unfold MediaRoutes.delete, respond. rewrite B. reflexivity.
Qed.

Lemma delete_missing_id_is_404_witness :
  (delete_content 42 seed_db = inr (0, seed_db)
   /\ exists st',
       ContentRoutes.delete_body (request (Some "admin-token") 42 None empty_body)
         (idle [false])
       = (inr content_not_found, st')
       /\ ContentRoutes.delete (request (Some "admin-token") 42 None empty_body)
            (idle [false])
          = (Sent content_not_found, st')
       /\ db st' = seed_db)
  /\ (delete_media 42 seed_db = inr (0, seed_db)
      /\ exists st',
          MediaRoutes.delete_body (request (Some "admin-token") 42 None empty_body)
            (idle [false])
          = (inr media_not_found, st')
          /\ MediaRoutes.delete (request (Some "admin-token") 42 None empty_body)
               (idle [false])
             = (Sent media_not_found, st')
          /\ db st' = seed_db).
Proof.
  pose proof (delete_missing_id_is_404
                (request (Some "admin-token") 42 None empty_body)
                (idle [false]) eq_refl) as [Hc Hm].
  split; [apply Hc | apply Hm]; reflexivity.
Defined.

(** Deleting a row that is there takes its tags with it. *)
Example delete_cascades :
  delete_content 5 seed_db
  = inr (1,
         with_tables seed_db
           {| t_content := [home_page; admissions_post];
              t_content_tags :=
                [ {| ct_id := 3; ct_content_id := 6; ct_tag := "Admissions" |} ];
              t_media := [dashboard_preview] |}).
Proof. reflexivity. Qed.

End DeleteFacts.

(** ** Listing content *)

Module ListFacts.
Import Storage Pool Express Spec PoolFacts Samples.
Local Open Scope request_scope.

Lemma StronglySorted_impl {A} (R S : A -> A -> Prop) l :
  (forall a b, R a b -> S a b) -> StronglySorted R l -> StronglySorted S l.
Proof.
  intros HRS. induction 1 as [|a l Hl IH Ha]; constructor; auto.
  eapply Forall_impl; [|exact Ha]. auto.
Qed.

Lemma sort_newest_first rows : newest_first (ContentSort.sort rows).
Proof.
  unfold newest_first.
  apply StronglySorted_impl with (R := fun a b => is_true (UpdatedAtDesc.leb a b)).
  - intros a b H. apply Z.leb_le. exact H.
  - apply ContentSort.StronglySorted_sort.
    intros a b c Hab Hbc.
    unfold UpdatedAtDesc.leb, updated_at_desc, is_true in *.
    apply Z.leb_le in Hab, Hbc. apply Z.leb_le. lia.
Qed.

Lemma attach_all_quiet rows :
  forall st,
    quiet st ->
    exists st',
      mapM attach_tags rows st
      = (inr (map (fun item =>
                     ContentRoutes.with_tags item (select_tags (c_id item) (db st)))
                rows), st')
      /\ quiet st' /\ db st' = db st.
Proof.
  induction rows as [|r rows IH]; intros st Hq; simpl.
  - exists st. auto.
  - destruct (select_quiet (select_tags (c_id r)) st Hq)
      as (st1 & E & Hq1 & _ & _ & Hd1).
    destruct (IH st1 Hq1) as (st2 & E2 & Hq2 & Hd2).
    exists st2. unfold bind, attach_tags at 1, bind. rewrite E.
    unfold ret at 1. rewrite E2, Hd1. unfold ret. repeat split; auto.
    congruence.
Qed.

Lemma map_row_with_tags (f : ContentRow -> list TagRow) rows :
  map row (map (fun item => ContentRoutes.with_tags item (f item)) rows) = rows.
Proof. induction rows; simpl; congruence. Qed.

(** No row of a table of enum values has a type outside the enum. *)
Lemma unknown_type_selects_nothing ty rows :
  is_content_type ty = false ->
  forallb (fun r => is_content_type (c_type r)) rows = true ->
  filter (fun r => String.eqb (c_type r) ty) rows = [].
Proof.
  intros Hun. induction rows as [|r rows IH]; simpl; auto.
  intros H. apply andb_true_iff in H as [Hr Hrows].
  destruct (String.eqb_spec (c_type r) ty) as [E|_]; [|auto].
  rewrite E in Hr. congruence.
Qed.

Lemma get_all_quiet req st :
  quiet st ->
  exists st',
    ContentRoutes.get_all_body req st
    = (inr {| status := 200;
              json := ContentList
                        (map (fun item =>
                                ContentRoutes.with_tags item
                                  (select_tags (c_id item) (db st)))
                           (ContentSort.sort
                              (selected (if truthy_string (query_type req)
                                         then query_type req else None)
                                 (db st)))) |}, st')
    /\ quiet st' /\ db st' = db st.
Proof.
  intros Hq. unfold ContentRoutes.get_all_body.
  set (ty := if truthy_string (query_type req) then query_type req else None).
  destruct (select_quiet (select_content ty) st Hq) as (st1 & E & Hq1 & _ & _ & Hd1).
  destruct (attach_all_quiet (select_content ty (db st)) st1 Hq1)
    as (st2 & E2 & Hq2 & Hd2).
  exists st2. unfold bind at 1. rewrite E.
  unfold bind at 1. fold attach_tags. rewrite E2, Hd1.
  unfold ret. repeat split; auto. congruence.
Qed.

(** C8 as stated fails: [?type=video] is no enum value, and the list
    route answers with no item at all, which is not the stored content. *)
Lemma unknown_type_lists_nothing :
  is_content_type "video" = false
  /\ ContentRoutes.get_all (request None 0 (Some "video") empty_body) (idle [])
     = (Sent {| status := 200; json := ContentList [] |}, idle [])
  /\ t_content (tables (db (idle []))) = [home_page; future_post; admissions_post]
  /\ ~ Permutation (@nil ContentRow) (t_content (tables (db (idle [])))).
Proof.
  repeat split. intros H. apply Permutation_nil in H. discriminate.
Qed.

(** C8, as the code has it. When no fault cuts the queries off, the list
    route answers 200 with items ordered by [updated_at], latest first,
    each with the tags stored for it, and leaves the database alone. With
    a non-empty [type] the items are exactly the rows whose type equals
    it, so that a value outside the enum lists nothing from a table of
    enum values; with [type] absent or empty they are all the rows. *)
Theorem list_filters_exactly_and_orders req st :
  quiet st ->
  exists items st',
    ContentRoutes.get_all req st
    = (Sent {| status := 200; json := ContentList items |}, st')
    /\ db st' = db st
    /\ newest_first (map row items)
    /\ (forall item, In item items ->
          tags item = map ct_tag (select_tags (c_id (row item)) (db st)))
    /\ (forall ty, query_type req = Some ty -> ty <> "" ->
          Permutation (map row items)
            (filter (fun r => String.eqb (c_type r) ty) (t_content (tables (db st)))))
    /\ (query_type req = None \/ query_type req = Some "" ->
          Permutation (map row items) (t_content (tables (db st))))
    /\ (forall ty, query_type req = Some ty -> ty <> "" ->
          is_content_type ty = false ->
          forallb (fun r => is_content_type (c_type r)) (t_content (tables (db st)))
          = true ->
          items = []).
Proof.
  intros Hq. destruct (get_all_quiet req st Hq) as (st' & E & _ & Hd).
  eexists. exists st'. split.
  { unfold ContentRoutes.get_all, respond. rewrite E. reflexivity. }
  rewrite map_row_with_tags.
  split; [exact Hd|]. split; [apply sort_newest_first|]. split; [|split; [|split]].
  - intros item Hi. apply in_map_iff in Hi as (r & <- & _). reflexivity.
  - intros ty -> Hne. simpl.
    destruct (String.eqb_spec ty ""); [contradiction|]. simpl.
    apply Permutation_sym, ContentSort.Permuted_sort.
  - intros [-> | ->]; simpl; apply Permutation_sym, ContentSort.Permuted_sort.
  - intros ty -> Hne Hun Hall. simpl.
    destruct (String.eqb_spec ty ""); [contradiction|]. simpl.
    rewrite (unknown_type_selects_nothing _ _ Hun Hall). reflexivity.
Qed.

Lemma list_filters_exactly_and_orders_witness :
  exists items st',
    ContentRoutes.get_all (request None 0 (Some "blog") empty_body) (idle [false])
    = (Sent {| status := 200; json := ContentList items |}, st')
    /\ db st' = seed_db
    /\ newest_first (map row items)
    /\ (forall item, In item items ->
          tags item = map ct_tag (select_tags (c_id (row item)) seed_db))
    /\ (forall ty, Some "blog" = Some ty -> ty <> "" ->
          Permutation (map row items)
            (filter (fun r => String.eqb (c_type r) ty) (t_content seed_tables)))
    /\ (Some "blog" = None \/ Some "blog" = Some "" ->
          Permutation (map row items) (t_content seed_tables))
    /\ (forall ty, Some "blog" = Some ty -> ty <> "" ->
          is_content_type ty = false ->
          forallb (fun r => is_content_type (c_type r)) (t_content seed_tables) = true ->
          items = []).
Proof.
  apply (list_filters_exactly_and_orders
           (request None 0 (Some "blog") empty_body) (idle [false])).
  reflexivity.
Defined.

Example list_blog :
  fst (ContentRoutes.get_all (request None 0 (Some "blog") empty_body) (idle []))
  = Sent {| status := 200;
            json := ContentList
                      [ {| row := future_post; tags := ["AI"; "Education"] |};
                        {| row := admissions_post; tags := ["Admissions"] |} ] |}.
Proof. reflexivity. Qed.

End ListFacts.

(** ** Statements of the store *)

Module StorageFacts.
Import Storage Spec.

(** A bulk INSERT that goes through appends one row per value, in order. *)
Lemma add_tag_rows_appends content values :
  forall rows next rows' next',
    add_tag_rows content values rows next = inr (rows', next') ->
    exists added, rows' = rows ++ added /\ map tag_pair added = values.
Proof.
  induction values as [|[cid tag] values IH]; intros rows next rows' next';
    cbn [add_tag_rows].
  - intros [= <- <-]. exists []. rewrite app_nil_r. auto.
  - destruct (longer_than 255 (Some tag)); [discriminate|].
    destruct (existsb _ rows); [discriminate|].
    destruct (has_tag cid tag rows); [discriminate|].
    destruct (has_content_id cid content); [|discriminate]. cbn [negb].
    intros H. apply IH in H as (added & -> & <-).
    eexists (_ :: added). rewrite <- app_assoc. split; reflexivity.
Qed.

(** It is rejected when the first value refers to no content row. *)
Lemma add_tag_rows_orphan content cid tag values rows next :
  has_content_id cid content = false ->
  exists e, add_tag_rows content ((cid, tag) :: values) rows next = inl e.
Proof.
  intros H. cbn [add_tag_rows].
  destruct (longer_than 255 (Some tag)); [eauto|].
  destruct (existsb _ rows); [eauto|].
  destruct (has_tag cid tag rows); [eauto|].
  rewrite H. cbn [negb]. eauto.
Qed.

Lemma insert_content_tags_inv values d d' :
  insert_content_tags values d = inr (tt, d') ->
  t_content (tables d') = t_content (tables d)
  /\ t_media (tables d') = t_media (tables d)
  /\ current_timestamp d' = current_timestamp d
  /\ exists added,
      t_content_tags (tables d') = t_content_tags (tables d) ++ added
      /\ map tag_pair added = values.
Proof.
  unfold insert_content_tags.
  destruct (add_tag_rows _ _ _ _) as [e|[rows next]] eqn:E; [discriminate|].
  intros [= <-]. simpl. repeat split.
  eapply add_tag_rows_appends, E.
Qed.

Lemma insert_content_inv p d id d' :
  insert_content p d = inr (id, d') ->
  content_violation p = None
  /\ id = content_auto_increment d
  /\ has_content_id id (t_content (tables d)) = false
  /\ has_slug (text (p_slug p)) (t_content (tables d)) = false
  /\ t_content (tables d')
     = t_content (tables d) ++ [new_content_row id (current_timestamp d) p]
  /\ t_content_tags (tables d') = t_content_tags (tables d)
  /\ t_media (tables d') = t_media (tables d)
  /\ current_timestamp d' = current_timestamp d.
Proof.
  unfold insert_content.
  destruct (content_violation p); [discriminate|].
  destruct (has_content_id _ _) eqn:Hid; [discriminate|].
  destruct (has_slug _ _) eqn:Hs; [discriminate|].
  intros [= <- <-]. simpl. repeat split; auto.
Qed.

Lemma map_unmatched {A} (f : A -> bool) (g : A -> A) l :
  existsb f l = false -> map (fun a => if f a then g a else a) l = l.
Proof.
  induction l as [|a l IH]; simpl; auto.
  destruct (f a); simpl; [discriminate|].
  intros H. rewrite (IH H). reflexivity.
Qed.

(** An UPDATE that goes through has assigned the parameters to every row
    of the id and to no other row; if there is such a row, the parameters
    passed the column checks. *)
Lemma update_content_inv p id d n d' :
  update_content p id d = inr (n, d') ->
  t_content (tables d')
  = map (fun r => if c_id r =? id then assign_content (current_timestamp d) p r else r)
      (t_content (tables d))
  /\ t_content_tags (tables d') = t_content_tags (tables d)
  /\ t_media (tables d') = t_media (tables d)
  /\ current_timestamp d' = current_timestamp d
  /\ (has_content_id id (t_content (tables d)) = false -> n = 0 /\ d' = d)
  /\ (has_content_id id (t_content (tables d)) = true -> content_violation p = None).
Proof.
  unfold update_content.
  destruct (has_content_id id (t_content (tables d))) eqn:Hid; simpl.
  - destruct (content_violation p); [discriminate|].
    destruct (has_slug _ _); [discriminate|].
    intros [= <- <-]. simpl. repeat split; auto; discriminate.
  - intros [= <- <-]. repeat split; auto; try discriminate.
    symmetry. apply (map_unmatched (fun r => c_id r =? id)). exact Hid.
Qed.

Lemma filter_filter_negb {A} (f : A -> bool) l :
  filter f (filter (fun a => negb (f a)) l) = [].
Proof.
  induction l as [|a l IH]; simpl; auto.
  destruct (f a) eqn:E; simpl; auto. rewrite E. exact IH.
Qed.

(** What passed the column checks is what the row holds. *)
Lemma not_null_text (v : option string) : is_null v = false -> Some (text v) = v.
Proof. destruct v; [reflexivity | discriminate]. Qed.

Lemma content_violation_none p :
  content_violation p = None ->
  p_type p = Some (text (p_type p))
  /\ is_content_type (text (p_type p)) = true
  /\ p_title p = Some (text (p_title p))
  /\ p_content p = Some (text (p_content p))
  /\ p_slug p = Some (text (p_slug p))
  /\ p_author p = Some (text (p_author p)).
Proof.
  unfold content_violation, first_violation. simpl.
  destruct (is_null (p_type p)) eqn:H1; [discriminate|].
  destruct (is_content_type (text (p_type p))) eqn:H2; [|discriminate]. simpl.
  destruct (is_null (p_title p)) eqn:H3; [discriminate|].
  destruct (longer_than 255 (p_title p)); [discriminate|].
  destruct (is_null (p_content p)) eqn:H4; [discriminate|].
  destruct (longer_than 65535 (p_content p)); [discriminate|].
  destruct (is_null (p_slug p)) eqn:H5; [discriminate|].
  destruct (longer_than 255 (p_slug p)); [discriminate|].
  destruct (is_null (p_author p)) eqn:H6; [discriminate|].
  intros _. repeat split; auto; symmetry; apply not_null_text; assumption.
Qed.

End StorageFacts.

(** ** Creating content *)

Module CreateFacts.
Import Storage Pool Express Spec PoolFacts StorageFacts Samples ContentRoutes.
Local Open Scope request_scope.

Lemma insert_tags_if_provided_inv id tags st r st' :
  insert_tags_if_provided id tags st = (r, st') ->
  snapshot st' = snapshot st
  /\ match r with
     | inl e => db st' = db st
     | inr _ =>
         t_content (tables (db st')) = t_content (tables (db st))
         /\ t_media (tables (db st')) = t_media (tables (db st))
         /\ current_timestamp (db st') = current_timestamp (db st)
         /\ exists added,
             t_content_tags (tables (db st'))
             = t_content_tags (tables (db st)) ++ added
             /\ map tag_pair added = tag_values id tags
     end.
Proof.
  unfold insert_tags_if_provided.
  destruct tags as [[|t ts]|].
  - intros [= <- <-]. repeat split. exists []. rewrite app_nil_r. auto.
  - intros H. apply query_inv in H as (Hs & _ & H). split; [exact Hs|].
    destruct r as [e|[]]; [exact H|].
    apply insert_content_tags_inv in H as (Hc & Hm & Ht & added & Ha & Hp).
    repeat split; auto. exists added. auto.
  - intros [= <- <-]. repeat split. exists []. rewrite app_nil_r. auto.
Qed.

(** The statements between BEGIN and COMMIT: either they fail and a
    rollback gives back the tables they started from, or they are
    committed and have written exactly the new row and its tags. *)
Lemma post_writes_inv req st r st' :
  snapshot st = None ->
  post_writes req st = (r, st') ->
  match r with
  | inl e => rolled_back st' = tables (db st)
  | inr contentId => snapshot st' = None /\ created req contentId (db st) (db st')
  end.
Proof.
  intros Hsnap. unfold post_writes, bind.
  destruct (beginTransaction st) as [[e1|[]] s1] eqn:E1;
    apply beginTransaction_inv in E1 as [Hd1 Hs1].
  { intros [= <- <-]. unfold rolled_back. rewrite Hs1, Hsnap, Hd1. reflexivity. }
  destruct (query _ s1) as [[e2|id] s2] eqn:E2;
    apply query_inv in E2 as (Hs2 & _ & H2).
  { intros [= <- <-]. unfold rolled_back. rewrite Hs2, Hs1. reflexivity. }
  destruct (insert_tags_if_provided id _ s2) as [[e3|[]] s3] eqn:E3;
    apply insert_tags_if_provided_inv in E3 as (Hs3 & H3).
  { intros [= <- <-]. unfold rolled_back. rewrite Hs3, Hs2, Hs1. reflexivity. }
  destruct (commit s3) as [[e4|[]] s4] eqn:E4;
    apply commit_inv in E4 as [Hd4 Hs4].
  { intros [= <- <-]. unfold rolled_back. rewrite Hs4, Hs3, Hs2, Hs1. reflexivity. }
  unfold ret. intros [= <- <-]. split; [exact Hs4|].
  rewrite Hd1 in H2.
  apply insert_content_inv in H2 as (_ & _ & Hfresh & _ & Hc & Ht & Hm & _).
  destruct H3 as (Hc3 & Hm3 & _ & added & Ha & Hp).
  unfold created. rewrite Hd4. repeat split.
  - rewrite Hc3. exact Hc.
  - exists added. rewrite Ha, Ht. auto.
  - rewrite Hm3. exact Hm.
  - exact Hfresh.
Qed.

Lemma first_row_inv rows st r st' :
  first_row rows st = (inr r, st') -> st' = st /\ exists rest, rows = r :: rest.
Proof.
  destruct rows as [|r0 rest]; simpl; [discriminate|].
  intros [= <- <-]. eauto.
Qed.

Lemma post_read_back_inv id st res st' :
  post_read_back id st = (inr res, st') ->
  db st' = db st
  /\ exists r rest,
      select_content_by_id id (db st) = r :: rest
      /\ res = {| status := 201;
                  json := Content (with_tags r (select_tags id (db st))) |}.
Proof.
  unfold post_read_back, bind.
  destruct (select _ st) as [[e|rows] s1] eqn:E1; [discriminate|].
  apply select_inv in E1 as (Hd1 & _ & _ & ->).
  destruct (select _ s1) as [[e|tag_rows] s2] eqn:E2; [discriminate|].
  apply select_inv in E2 as (Hd2 & _ & _ & ->).
  destruct (first_row _ s2) as [[e|r] s3] eqn:E3; [discriminate|].
  apply first_row_inv in E3 as (-> & rest & Hrows).
  unfold release, ret. intros [= <- <-]. simpl.
  split; [congruence|]. exists r, rest. rewrite Hd1. split; [congruence|reflexivity].
Qed.

Lemma select_new_row id now p rows :
  has_content_id id rows = false ->
  filter (fun r => c_id r =? id) (rows ++ [new_content_row id now p])
  = [new_content_row id now p].
Proof.
  intros H. rewrite filter_app.
  destruct (DeleteFacts.filter_none _ _ H) as [-> _]. simpl.
  rewrite Z.eqb_refl. reflexivity.
Qed.










Example create_answers_201 :
  post create_request (idle [])
  = (Sent {| status := 201;
             json := Content
                       {| row := new_content_row 7 300
                                   (content_params (blog_body (Some ["ai"; "edu"])));
                          tags := ["ai"; "edu"] |} |},
     after_create).
Proof. reflexivity. Qed.


(** A connection lost at COMMIT undoes the row and the tags as well. *)
Example create_fault_at_commit :
  let (res, st') := post create_request (idle [false; false; false; false; true]) in
  res = Sent server_error /\ tables (db st') = seed_tables.
Proof. split; reflexivity. Qed.

(** A connection lost after COMMIT, during the read-back, answers 500
    although the row and its tags are stored. *)
Example create_fault_after_commit :
  let (res, st') :=
    post create_request (idle [false; false; false; false; false; true]) in
  res = Sent server_error /\ tables (db st') = tables (db after_create).
Proof. split; reflexivity. Qed.

End CreateFacts.

(** ** Updating content *)

Module UpdateFacts.
Import Storage Pool Express Spec PoolFacts StorageFacts Samples ContentRoutes CreateFacts.
Local Open Scope request_scope.

Lemma put_writes_inv req st r st' :
  snapshot st = None ->
  put_writes req st = (r, st') ->
  match r with
  | inl e => rolled_back st' = tables (db st)
  | inr _ =>
      snapshot st' = None /\ replaced req (db st) (db st')
      /\ (has_content_id (params_id req) (t_content (tables (db st))) = true ->
          content_violation (content_params (body req)) = None)
  end.
Proof.
  intros Hsnap. unfold put_writes, bind.
  destruct (beginTransaction st) as [[e1|[]] s1] eqn:E1;
    apply beginTransaction_inv in E1 as [Hd1 Hs1].
  { intros [= <- <-]. unfold rolled_back. rewrite Hs1, Hsnap, Hd1. reflexivity. }
  destruct (query (update_content _ _) s1) as [[e2|n] s2] eqn:E2;
    apply query_inv in E2 as (Hs2 & _ & H2).
  { intros [= <- <-]. unfold rolled_back. rewrite Hs2, Hs1. reflexivity. }
  destruct (query (delete_content_tags _) s2) as [[e3|[]] s3] eqn:E3;
    apply query_inv in E3 as (Hs3 & _ & H3).
  { intros [= <- <-]. unfold rolled_back. rewrite Hs3, Hs2, Hs1. reflexivity. }
  destruct (insert_tags_if_provided _ _ s3) as [[e4|[]] s4] eqn:E4;
    apply insert_tags_if_provided_inv in E4 as (Hs4 & H4).
  { intros [= <- <-]. unfold rolled_back. rewrite Hs4, Hs3, Hs2, Hs1. reflexivity. }
  destruct (commit s4) as [[e5|[]] s5] eqn:E5;
    apply commit_inv in E5 as [Hd5 Hs5]; intros [= <- <-].
  { unfold rolled_back. rewrite Hs5, Hs4, Hs3, Hs2, Hs1. reflexivity. }
  split; [exact Hs5|].
  rewrite Hd1 in H2.
  apply update_content_inv in H2 as (Hc2 & Ht2 & Hm2 & Hts2 & _ & Hok).
  unfold delete_content_tags in H3. injection H3 as H3.
  destruct H4 as (Hc4 & Hm4 & _ & added & Ha & Hp).
  split; [|exact Hok].
  unfold replaced. rewrite Hd5, Hc4, Hm4, Ha, <- H3. simpl.
  repeat split; auto.
  exists added. rewrite Ht2. auto.
Qed.

Lemma put_read_back_inv req st res st' :
  put_read_back req st = (inr res, st') ->
  db st' = db st
  /\ exists r rest,
      select_content_by_id (params_id req) (db st) = r :: rest
      /\ res = {| status := 200;
                  json := Content (with_tags r (select_tags (params_id req) (db st))) |}.
Proof.
  unfold put_read_back, bind.
  destruct (select _ st) as [[e|rows] s1] eqn:E1; [discriminate|].
  apply select_inv in E1 as (Hd1 & _ & _ & ->).
  destruct (select _ s1) as [[e|tag_rows] s2] eqn:E2; [discriminate|].
  apply select_inv in E2 as (Hd2 & _ & _ & ->).
  destruct (first_row _ s2) as [[e|r] s3] eqn:E3; [discriminate|].
  apply first_row_inv in E3 as (-> & rest & Hrows).
  unfold release, ret. intros [= <- <-]. simpl.
  split; [congruence|]. exists r, rest. rewrite Hd1. split; [congruence|reflexivity].
Qed.

(** The first row of the id after the UPDATE is a row of the id from
    before it, with the parameters assigned. *)
Lemma first_assigned id (g : ContentRow -> ContentRow) rows r rest :
  (forall x, c_id (g x) = c_id x) ->
  filter (fun x => c_id x =? id) (map (fun x => if c_id x =? id then g x else x) rows)
  = r :: rest ->
  exists r0, In r0 rows /\ c_id r0 = id /\ r = g r0.
Proof.
  intros Hg. induction rows as [|x rows IH]; simpl; [discriminate|].
  destruct (c_id x =? id) eqn:E.
  - rewrite Hg, E. intros [= <- _]. exists x. apply Z.eqb_eq in E. auto.
  - rewrite E. intros H. destruct (IH H) as (r0 & Hin & Hid & Hr). eauto.
Qed.

Lemma has_content_id_In id rows r :
  In r rows -> c_id r = id -> has_content_id id rows = true.
Proof.
  intros Hin Hid. unfold has_content_id. apply existsb_exists.
  exists r. split; auto. apply Z.eqb_eq, Hid.
Qed.

Lemma assigned_holds_body now b r :
  content_violation (content_params b) = None ->
  holds_body (assign_content now (content_params b) r) b.
Proof.
  intros H. apply content_violation_none in H as (H1 & _ & H2 & H3 & H4 & H5).
  unfold holds_body. simpl in *. repeat split; auto.
Qed.


(** The outcome of the whole PUT handler, read off its response. *)
Lemma put_inv req st res st' :
  put req st = (Sent res, st') ->
  (res = server_error
   \/ (has_content_id (params_id req) (t_content (tables (db st))) = true
       /\ replaced req (db st) (db st')
       /\ exists r,
           res = {| status := 200;
                    json := Content
                              {| row := r;
                                 tags := map ct_tag
                                           (select_tags (params_id req) (db st')) |} |}
           /\ hd_error (select_content_by_id (params_id req) (db st')) = Some r
           /\ holds_body r (body req))).
Proof.
  unfold put, respond.
  destruct (put_body req st) as [[e|res0] s'] eqn:B.
  { intros [= <- <-]. left. reflexivity. }
  intros [= <- <-]. right.
  unfold put_body in B. unfold bind at 1 in B.
  destruct (getConnection st) as [[e|[]] s1] eqn:Hg; [discriminate|].
  apply getConnection_inv in Hg as [Hd1 Hs1].
  unfold try_catch in B. unfold bind at 1 in B.
  destruct (put_writes req s1) as [[e|[]] s2] eqn:Hw.
  { destruct (rollback_release_throw (A := Response) e s2) as (x & E & _).
    rewrite E in B. discriminate. }
  pose proof (put_writes_inv req s1 _ _ Hs1 Hw) as (_ & Hrep & Hok).
  rewrite Hd1 in Hrep, Hok.
  destruct (put_read_back req s2) as [[e|res1] s3] eqn:Hrb.
  { destruct (rollback_release_throw (A := Response) e s3) as (x & E & _).
    rewrite E in B. discriminate. }
  injection B as -> ->.
  apply put_read_back_inv in Hrb as (Hd3 & r & rest & Hsel & ->).
  rewrite Hd3.
  pose proof Hsel as Hsel'. unfold select_content_by_id in Hsel'.
  rewrite (proj1 Hrep) in Hsel'.
  apply first_assigned in Hsel' as (r0 & Hin & Hid & ->); [|reflexivity].
  pose proof (has_content_id_In _ _ _ Hin Hid) as Hex.
  repeat split; try apply Hrep; auto.
  eexists. split; [reflexivity|]. split.
  - rewrite Hsel. reflexivity.
  - apply assigned_holds_body, Hok, Hex.
Qed.

Lemma no_tag_values id tags :
  tag_values id tags = [] -> insert_tags_if_provided id tags = ret tt.
Proof. destruct tags as [[|t ts]|]; simpl; auto. discriminate. Qed.

(** A PUT without tags, when no fault cuts it off and the UPDATE goes
    through: the tags are deleted, the transaction is committed, and the
    answer depends on the read-back finding a row. *)
Lemma put_without_tags_quiet req st n d :
  quiet st ->
  tag_values (params_id req) (b_tags (body req)) = [] ->
  update_content (content_params (body req)) (params_id req) (db st) = inr (n, d) ->
  exists st',
    db st' = tags_deleted (params_id req) d
    /\ put_body req st
       = (match select_content_by_id (params_id req) (tags_deleted (params_id req) d) with
          | r :: _ =>
              inr {| status := 200;
                     json := Content
                               (with_tags r
                                  (select_tags (params_id req)
                                     (tags_deleted (params_id req) d))) |}
          | [] => inl cannot_set_tags
          end, st').
Proof.
  intros Hq Hno Hup.
  destruct (getConnection_quiet st Hq) as (s1 & E1 & Hq1 & Hd1 & Hs1).
  destruct (beginTransaction_quiet s1 Hq1) as (s2 & E2 & Hq2 & Hd2 & Hs2).
  rewrite <- Hd1, <- Hd2 in Hup.
  destruct (query_quiet_ok _ s2 _ _ Hq2 Hup) as (s3 & E3 & Hq3 & Hd3 & Hs3).
  assert (Hdel : delete_content_tags (params_id req) (db s3)
                 = inr (tt, tags_deleted (params_id req) d)).
  { rewrite Hd3. reflexivity. }
  destruct (query_quiet_ok _ s3 _ _ Hq3 Hdel) as (s4 & E4 & Hq4 & Hd4 & Hs4).
  destruct (commit_quiet s4 Hq4) as (s5 & E5 & Hq5 & Hd5 & Hs5).
  assert (W : put_writes req s1 = (inr tt, s5)).
  { unfold put_writes.
    rewrite (bind_inr _ _ _ _ _ E2), (bind_inr _ _ _ _ _ E3),
      (bind_inr _ _ _ _ _ E4), (no_tag_values _ _ Hno).
    unfold bind at 1, ret. exact E5. }
  destruct (select_quiet (select_content_by_id (params_id req)) s5 Hq5)
    as (s6 & E6 & Hq6 & Hs6 & _ & Hd6).
  destruct (select_quiet (select_tags (params_id req)) s6 Hq6)
    as (s7 & E7 & Hq7 & Hs7 & _ & Hd7).
  assert (D5 : db s5 = tags_deleted (params_id req) d) by congruence.
  unfold put_body. rewrite (bind_inr _ _ _ _ _ E1). unfold try_catch.
  rewrite (bind_inr _ _ _ _ _ W).
  unfold put_read_back.
  rewrite (bind_inr _ _ _ _ _ E6), (bind_inr _ _ _ _ _ E7).
  rewrite Hd6, D5.
  destruct (select_content_by_id (params_id req) (tags_deleted (params_id req) d))
    as [|r rest].
  - cbn [first_row]. unfold bind at 1. unfold throw at 1.
    destruct (rollback_release_throw_quiet (A := Response) cannot_set_tags s7 Hq7)
      as (st' & E & Hd); [congruence|].
    exists st'. split; [congruence|]. exact E.
  - simpl. unfold bind, release, ret. simpl. eexists. split; [|reflexivity].
    simpl. congruence.
Qed.


Example update_answers_200 :
  put update_request (idle [])
  = (Sent {| status := 200;
             json := Content
                       {| row := assign_content 300 (content_params (blog_body None))
                                   future_post;
                          tags := [] |} |},
     after_update).
Proof. reflexivity. Qed.


(** An update whose slug another row holds is rejected and leaves the
    tags of the row in place. *)
Example update_with_taken_slug :
  let req := request (Some "admin-token") 5 None
               {| b_type := Some "blog"; b_title := Some "X"; b_content := Some "Y";
                  b_slug := Some "home"; b_author := Some "A"; b_featured := None;
                  b_image := None; b_category := None; b_tags := None;
                  b_position := None; b_company := None; b_url := None;
                  b_thumbnail_url := None; b_file_size := None;
                  b_dimensions := None; b_uploaded_by := None |} in
  let (res, st') := put req (idle []) in
  res = Sent server_error /\ tables (db st') = seed_tables.
Proof. split; reflexivity. Qed.

(** *** Updating an id that no row has *)

(** C6. When no content row has the id, the UPDATE reports zero affected
    rows and changes nothing, and whatever happens next the route
    answers 500, never a not-found result. Without submitted tags, and
    when no fault cuts the request off, the handler goes through the tag
    deletion, the commit and both read-back queries and then fails with
    the TypeError of setting [tags] on the missing first row. *)
Theorem update_of_missing_id_answers_500 req st :
  has_content_id (params_id req) (t_content (tables (db st))) = false ->
  update_content (content_params (body req)) (params_id req) (db st) = inr (0, db st)
  /\ (exists st', put req st = (Sent server_error, st'))
  /\ (quiet st ->
      b_tags (body req) = None \/ b_tags (body req) = Some [] ->
      exists st', put_body req st = (inl cannot_set_tags, st')).
Proof.
  intros Hid.
  assert (Hup : update_content (content_params (body req)) (params_id req) (db st)
                = inr (0, db st)).
  { unfold update_content. rewrite Hid. reflexivity. }
  split; [exact Hup|]. split.
  - destruct (put req st) as [out st'] eqn:E.
    assert (exists res, out = Sent res) as (res & ->).
    { unfold put, respond in E. destruct (put_body req st) as [[e|res] s];
        injection E as <- _; eauto. }
    exists st'. apply put_inv in E as [-> | (Hex & _)]; [reflexivity|].
    rewrite Hid in Hex. discriminate.
  - intros Hq Hz.
    assert (Hno : tag_values (params_id req) (b_tags (body req)) = [])
      by (destruct Hz as [-> | ->]; reflexivity).
    destruct (put_without_tags_quiet req st 0 (db st) Hq Hno Hup) as (st' & _ & B).
    assert (Hsel : select_content_by_id (params_id req)
                     (tags_deleted (params_id req) (db st)) = []).
    { unfold select_content_by_id, tags_deleted. simpl.
      apply (DeleteFacts.filter_none (fun r => c_id r =? params_id req)), Hid. }
    rewrite Hsel in B. eauto.
Qed.

Lemma update_of_missing_id_answers_500_witness :
  update_content (content_params (blog_body None)) 999 seed_db = inr (0, seed_db)
  /\ (exists st', put update_missing_request (idle []) = (Sent server_error, st'))
  /\ (quiet (idle []) ->
      @None (list string) = None \/ @None (list string) = Some [] ->
      exists st', put_body update_missing_request (idle []) = (inl cannot_set_tags, st')).
Proof.
  exact (update_of_missing_id_answers_500 update_missing_request (idle []) eq_refl).
Defined.

Example update_missing_runs :
  put_body update_missing_request (idle [])
  = (inl cannot_set_tags, idle [])
  /\ put update_missing_request (idle []) = (Sent server_error, idle []).
Proof. split; reflexivity. Qed.

(** With tags the foreign key stops the request before the commit. *)
Example update_missing_with_tags :
  put_body (request (Some "admin-token") 999 None (blog_body (Some ["ai"]))) (idle [])
  = (inl (ER_NO_REFERENCED_ROW_2 "content_tags_ibfk_1"), idle []).
Proof. reflexivity. Qed.

End UpdateFacts.

(* ================================================================== *)
(** * Part III: further properties of the routes and the client *)
(* ================================================================== *)

(** ** Rules for the request monad *)

Module MonadFacts.
Import Storage Pool Express Spec Laws PoolFacts.
Local Open Scope request_scope.

Section Keeps.
Variable R : Server -> Server -> Prop.
Hypothesis R_refl : forall st, R st st.
Hypothesis R_trans : forall a b c, R a b -> R b c -> R a c.

Lemma keeps_ret {A} (a : A) : keeps R (ret a).
Proof. intros st r st' [= <- <-]. apply R_refl. Qed.

Lemma keeps_throw {A} (e : Error) : keeps R (@throw A e).
Proof. intros st r st' [= <- <-]. apply R_refl. Qed.

Lemma keeps_bind {A B} (m : M A) (k : A -> M B) :
  keeps R m -> (forall a, keeps R (k a)) -> keeps R (bind m k).
Proof.
  intros Hm Hk st r st'. unfold bind.
  destruct (m st) as [[e|a] s1] eqn:E.
  - intros [= <- <-]. eapply Hm, E.
  - intros H. eapply R_trans; [eapply Hm, E | eapply Hk, H].
Qed.

Lemma keeps_try_catch {A} (m : M A) (h : Error -> M A) :
  keeps R m -> (forall e, keeps R (h e)) -> keeps R (try_catch m h).
Proof.
  intros Hm Hh st r st'. unfold try_catch.
  destruct (m st) as [[e|a] s1] eqn:E.
  - intros H. eapply R_trans; [eapply Hm, E | eapply Hh, H].
  - intros [= <- <-]. eapply Hm, E.
Qed.

Lemma keeps_mapM {A B} (f : A -> M B) l :
  (forall a, keeps R (f a)) -> keeps R (mapM f l).
Proof.
  intros Hf. induction l as [|a l IH]; simpl.
  - apply keeps_ret.
  - apply keeps_bind; [apply Hf|]. intros b.
    apply keeps_bind; [apply IH|]. intros bs. apply keeps_ret.
Qed.

Lemma keeps_respond (m : M Response) :
  keeps R m -> forall st out st', respond m st = (out, st') -> R st st'.
Proof.
  intros Hm st out st'. unfold respond.
  destruct (m st) as [[e|res] s1] eqn:E; intros [= <- <-]; eapply Hm, E.
Qed.

End Keeps.

Lemma untouched_refl st : untouched st st.
Proof. repeat split. Qed.

Lemma untouched_trans a b c : untouched a b -> untouched b c -> untouched a c.
Proof. unfold untouched. intros (? & ? & ?) (? & ? & ?). repeat split; congruence. Qed.

Lemma select_untouched {A} (rows : Database -> A) : keeps untouched (select rows).
Proof.
  intros st r st' H. apply select_inv in H as (? & ? & ? & _). repeat split; auto.
Qed.

Lemma answers_ret {A} (P : A -> Prop) a : P a -> answers P (ret a).
Proof. intros H st x st' [= <- <-]. exact H. Qed.

Lemma answers_throw {A} (P : A -> Prop) e : answers P (throw e).
Proof. intros st x st'. discriminate. Qed.

Lemma answers_bind {A B} (P : B -> Prop) (m : M A) (k : A -> M B) :
  (forall a, answers P (k a)) -> answers P (bind m k).
Proof.
  intros Hk st b st'. unfold bind.
  destruct (m st) as [[e|a] s1]; [discriminate|]. apply Hk.
Qed.

Lemma answers_try_catch {A} (P : A -> Prop) (m : M A) (h : Error -> M A) :
  answers P m -> (forall e, answers P (h e)) -> answers P (try_catch m h).
Proof.
  intros Hm Hh st a st'. unfold try_catch.
  destruct (m st) as [[e|a0] s1] eqn:E.
  - apply Hh.
  - intros [= <- <-]. eapply Hm, E.
Qed.

Lemma answers_respond (P : Response -> Prop) (m : M Response) st res st' :
  answers P m -> P server_error ->
  respond m st = (Sent res, st') -> P res.
Proof.
  intros Hm H500. unfold respond.
  destruct (m st) as [[e|res0] s1] eqn:E; intros [= <- <-]; [exact H500|].
  eapply Hm, E.
Qed.

Lemma respond_sends (m : M Response) st :
  exists res st', respond m st = (Sent res, st').
Proof. unfold respond. destruct (m st) as [[e|res] s1]; eauto. Qed.

End MonadFacts.

(** ** Who reaches a handler, and what the routes answer *)

Module AccessFacts.
Import Storage Pool Express Auth App Samples Spec Laws PoolFacts MonadFacts.
Local Open Scope request_scope.

Definition handler_status (s : Z) : Prop := In s [200; 201; 404; 500].

Lemma rollback_release_throw_answers {A} (P : A -> Prop) e :
  answers P (rollback ;; release ;; @throw A e).
Proof.
  intros st a st' H.
  destruct (rollback_release_throw (A := A) e st) as (x & E & _).
  rewrite E in H. discriminate.
Qed.

Ltac status_rules :=
  repeat first
    [ apply answers_ret; unfold handler_status; simpl; tauto
    | apply answers_throw
    | apply rollback_release_throw_answers
    | apply answers_try_catch; [|intros ?]
    | apply answers_bind; intros ?
    | match goal with
      | |- answers _ (match ?x with _ => _ end) => destruct x
      | |- answers _ (if ?x then _ else _) => destruct x
      end ].

(** What the nine handlers send is 200, 201, 404 or 500. *)
Lemma final_handler_status r req st res st' :
  final_handler r req st = (Sent res, st') -> handler_status (status res).
Proof.
  intros H.
  destruct r; simpl in H;
    (eapply (answers_respond (fun res => handler_status (status res)));
     [ | | exact H]; [|unfold handler_status; simpl; tauto]);
    unfold ContentRoutes.get_all_body, ContentRoutes.get_by_id_body,
      ContentRoutes.post_body, ContentRoutes.post_read_back,
      ContentRoutes.put_body, ContentRoutes.put_read_back,
      ContentRoutes.delete_body, MediaRoutes.get_all_body,
      MediaRoutes.get_by_id_body, MediaRoutes.post_body,
      MediaRoutes.delete_body;
    status_rules.
Qed.

Lemma final_handler_sends r req st :
  exists res st', final_handler r req st = (Sent res, st').
Proof. destruct r; apply respond_sends. Qed.

Section WithJwt.
Context {JWT : Jsonwebtoken}.
Variable env_JWT_SECRET : option string.

Lemma stack_of_reading (r : Route) :
  mutating r = false -> stack env_JWT_SECRET r = [final_handler r].
Proof. destruct r; simpl; intros H; try discriminate; reflexivity. Qed.

Lemma stack_of_writing (r : Route) :
  mutating r = true ->
  stack env_JWT_SECRET r
  = [authenticate (JWT_SECRET env_JWT_SECRET); isAdmin; final_handler r].
Proof. destruct r; simpl; intros H; try discriminate; reflexivity. Qed.

(** The four ways out of a mutating route. *)
Lemma mutating_route_outcome (r : Route) req st :
  mutating r = true ->
  let out := handle env_JWT_SECRET r req st in
  out = (no_token, st)
  \/ out = (invalid_token, st)
  \/ out = (forbidden, st)
  \/ exists u, final_handler r (set_user req u) st = (Sent (fst out), snd out).
Proof.
  intros Hm out. subst out. unfold handle.
  rewrite (stack_of_writing r Hm). simpl. unfold authenticate.
  destruct (truthy_string (x_auth_token req)); simpl; [|left; reflexivity].
  right.
  destruct (verify (text (x_auth_token req)) (JWT_SECRET env_JWT_SECRET))
    as [u|]; [|left; reflexivity].
  right. unfold isAdmin. simpl.
  destruct (String.eqb (role u) "admin"); simpl; [|left; reflexivity].
  right. exists u.
  destruct (final_handler_sends r (set_user req u) st) as (res & st' & E).
  rewrite E. reflexivity.
Qed.

(** X1. On a mutating route exactly one of four things happens: without
    a token the answer is the no-token 401; with a token that does not
    verify it is 401 "Token is not valid"; with a verified token of
    another role it is 403; in these three cases the server state is
    untouched. Only with a verified admin token does the route's handler
    run, on the request with [req.user] set to the token's payload. *)
Theorem mutating_route_decision (r : Route) req st :
  mutating r = true ->
  let token := x_auth_token req in
  let out := handle env_JWT_SECRET r req st in
  (truthy_string token = false /\ out = (no_token, st))
  \/ (truthy_string token = true
      /\ verify (text token) (JWT_SECRET env_JWT_SECRET) = None
      /\ out = (invalid_token, st))
  \/ (exists u,
         truthy_string token = true
         /\ verify (text token) (JWT_SECRET env_JWT_SECRET) = Some u
         /\ role u <> "admin"
         /\ out = (forbidden, st))
  \/ (exists u,
         truthy_string token = true
         /\ verify (text token) (JWT_SECRET env_JWT_SECRET) = Some u
         /\ role u = "admin"
         /\ final_handler r (set_user req u) st = (Sent (fst out), snd out)).
Proof.
  intros Hm token out. subst out. unfold handle.
  rewrite (stack_of_writing r Hm). simpl. unfold authenticate. fold token.
  destruct (truthy_string token) eqn:Ht; simpl; [|left; auto].
  right.
  destruct (verify (text token) (JWT_SECRET env_JWT_SECRET)) as [u|] eqn:Hv;
    [|left; auto].
  right. unfold isAdmin. simpl.
  destruct (String.eqb_spec (role u) "admin") as [Ha|Ha]; simpl.
  - right. exists u. repeat split; auto.
    destruct (final_handler_sends r (set_user req u) st) as (res & st' & E).
    rewrite E. reflexivity.
  - left. exists u. repeat split; auto.
Qed.

(** X2. No route ever answers 401 "Not authenticated": behind
    [authenticate] the check of [isAdmin] for a missing [req.user] cannot
    fire. A reading route answers 200, 404 or 500 only; a mutating route
    may also answer 201, 401 or 403. *)
Theorem route_statuses (r : Route) req st :
  let res := fst (handle env_JWT_SECRET r req st) in
  res <> not_authenticated
  /\ In (status res)
       (if mutating r then [200; 201; 401; 403; 404; 500] else [200; 404; 500]).
Proof.
  destruct (mutating r) eqn:Hm.
  - destruct (mutating_route_outcome r req st Hm) as [E | [E | [E | (u & E)]]];
      simpl in *.
    + rewrite E. simpl. split; [discriminate | tauto].
    + rewrite E. simpl. split; [discriminate | tauto].
    + rewrite E. simpl. split; [discriminate | tauto].
    + apply final_handler_status in E. unfold handler_status in E. simpl in E.
      split.
      * intros Hna. rewrite Hna in E. simpl in E.
        repeat (destruct E as [E|E]; try discriminate). exact E.
      * simpl. tauto.
  - simpl. unfold handle. rewrite (stack_of_reading r Hm). simpl.
    destruct (final_handler_sends r req st) as (res & st' & E).
    rewrite E. simpl.
    assert (In (status res) [200; 404; 500]) as Hs.
    { revert E. destruct r; try discriminate; simpl; intros E;
        apply (answers_respond (fun res => In (status res) [200; 404; 500])) in E;
        auto; try (simpl; tauto);
        unfold ContentRoutes.get_all_body, ContentRoutes.get_by_id_body,
          MediaRoutes.get_all_body, MediaRoutes.get_by_id_body;
        repeat first
          [ apply answers_ret; simpl; tauto
          | apply answers_bind; intros ?
          | match goal with
            | |- answers _ (match ?x with _ => _ end) => destruct x
            end ]. }
    split; [|exact Hs].
    intros Hna. rewrite Hna in Hs. simpl in Hs.
    repeat (destruct Hs as [Hs|Hs]; try discriminate). exact Hs.
Qed.

(** X3. The reading routes are public: what they answer depends on the
    [:id] and [type] parameters only, not on the token, on [req.user] or
    on the body. *)
Theorem reading_routes_ignore_credentials (r : Route) req req' st :
  mutating r = false ->
  params_id req = params_id req' ->
  query_type req = query_type req' ->
  handle env_JWT_SECRET r req st = handle env_JWT_SECRET r req' st.
Proof.
  intros Hm Hid Hty. unfold handle. rewrite (stack_of_reading r Hm). simpl.
  destruct r; try discriminate; simpl;
    unfold ContentRoutes.get_all, ContentRoutes.get_all_body,
      ContentRoutes.get_by_id, ContentRoutes.get_by_id_body,
      MediaRoutes.get_all, MediaRoutes.get_all_body,
      MediaRoutes.get_by_id, MediaRoutes.get_by_id_body;
    rewrite ?Hid, ?Hty; reflexivity.
Qed.

(** X4. The reading routes only read: whatever faults occur, the
    database, the transaction state and the count of borrowed
    connections are afterwards what they were. *)
Theorem reading_routes_only_read (r : Route) req st res st' :
  mutating r = false ->
  handle env_JWT_SECRET r req st = (res, st') ->
  untouched st st'.
Proof.
  intros Hm. unfold handle. rewrite (stack_of_reading r Hm). simpl.
  destruct (final_handler r req st) as [out s1] eqn:E.
  assert (untouched st s1) as Hu.
  { revert E. destruct r; try discriminate; simpl; intros E;
      eapply (keeps_respond untouched) in E; eauto;
      unfold ContentRoutes.get_all_body, ContentRoutes.get_by_id_body,
        MediaRoutes.get_all_body, MediaRoutes.get_by_id_body;
      repeat first
        [ apply (keeps_ret untouched untouched_refl)
        | apply select_untouched
        | apply (keeps_mapM untouched untouched_refl untouched_trans); intros ?
        | apply (keeps_bind untouched untouched_trans); [|intros ?]
        | match goal with
          | |- keeps _ (match ?x with _ => _ end) => destruct x
          end ]. }
  destruct out; intros [= <- <-]; exact Hu.
Qed.

End WithJwt.

Lemma mutating_route_decision_witness :
  final_handler POST_media
    (set_user (request (Some "admin-token") 0 None empty_body)
       {| user_id := 1; role := "admin" |}) (idle [])
  = (Sent server_error, idle []).
Proof.
  destruct (mutating_route_decision None POST_media
              (request (Some "admin-token") 0 None empty_body) (idle []) eq_refl)
    as [[H _] | [(_ & H & _) | [(u & _ & Hv & Hr & _) | (u & _ & Hv & _ & E)]]].
  - discriminate H.
  - discriminate H.
  - injection Hv as <-. exfalso. apply Hr. reflexivity.
  - injection Hv as <-. exact E.
Defined.

Lemma reading_routes_ignore_credentials_witness :
  handle None GET_content_id (request None 5 None empty_body) (idle [])
  = handle None GET_content_id
      (request (Some "editor-token") 5 None (blog_body None)) (idle []).
Proof.
  apply (reading_routes_ignore_credentials None GET_content_id); reflexivity.
Defined.

Lemma reading_routes_only_read_witness :
  untouched (idle [false; true])
    (snd (handle None GET_content (request None 0 None empty_body)
            (idle [false; true]))).
Proof.
  apply (reading_routes_only_read None GET_content
           (request None 0 None empty_body) (idle [false; true])
           (fst (handle None GET_content (request None 0 None empty_body)
                   (idle [false; true])))).
  - reflexivity.
  - reflexivity.
Defined.

End AccessFacts.

(** ** Outcomes of the transactional handlers under every fault *)

Module OutcomeFacts.
Import Storage Pool Express Samples Spec Laws PoolFacts StorageFacts MonadFacts.
Import ContentRoutes CreateFacts UpdateFacts.
Local Open Scope request_scope.

(** The database and the transaction state are as before. *)
Definition same_data (st st' : Server) : Prop :=
  db st' = db st /\ snapshot st' = snapshot st.

(** The count of borrowed connections is as before. *)
Definition same_lease (st st' : Server) : Prop := borrowed st' = borrowed st.

Lemma same_data_refl st : same_data st st.
Proof. split; reflexivity. Qed.

Lemma same_data_trans a b c : same_data a b -> same_data b c -> same_data a c.
Proof. unfold same_data. intros [? ?] [? ?]. split; congruence. Qed.

Lemma same_lease_refl st : same_lease st st.
Proof. reflexivity. Qed.

Lemma same_lease_trans a b c : same_lease a b -> same_lease b c -> same_lease a c.
Proof. unfold same_lease. congruence. Qed.

Lemma query_same_lease {A} (statement : Database -> Result (A * Database)) :
  keeps same_lease (query statement).
Proof. intros st r st' H. apply query_inv in H as (_ & H & _). exact H. Qed.

Lemma round_trip_same_lease : keeps same_lease round_trip.
Proof. intros st r st' H. apply round_trip_inv in H as (_ & _ & H). exact H. Qed.

Lemma beginTransaction_same_lease : keeps same_lease beginTransaction.
Proof.
  unfold beginTransaction.
  apply (keeps_bind same_lease same_lease_trans); [apply round_trip_same_lease|].
  intros _ st r st' [= <- <-]. reflexivity.
Qed.

Lemma commit_same_lease : keeps same_lease commit.
Proof.
  unfold commit.
  apply (keeps_bind same_lease same_lease_trans); [apply round_trip_same_lease|].
  intros _ st r st' [= <- <-]. reflexivity.
Qed.

Lemma insert_tags_same_lease id tags :
  keeps same_lease (insert_tags_if_provided id tags).
Proof.
  unfold insert_tags_if_provided. destruct tags as [[|t ts]|];
    try apply (keeps_ret same_lease same_lease_refl).
  apply query_same_lease.
Qed.

Lemma post_writes_same_lease req : keeps same_lease (post_writes req).
Proof.
  unfold post_writes.
  repeat first
    [ apply beginTransaction_same_lease | apply commit_same_lease
    | apply query_same_lease | apply insert_tags_same_lease
    | apply (keeps_ret same_lease same_lease_refl)
    | apply (keeps_bind same_lease same_lease_trans); [|intros ?] ].
Qed.

Lemma put_writes_same_lease req : keeps same_lease (put_writes req).
Proof.
  unfold put_writes.
  repeat first
    [ apply beginTransaction_same_lease | apply commit_same_lease
    | apply query_same_lease | apply insert_tags_same_lease
    | apply (keeps_bind same_lease same_lease_trans); [|intros ?] ].
Qed.

Lemma getConnection_lease st r st' :
  getConnection st = (r, st') ->
  db st' = db st
  /\ match r with
     | inl _ => borrowed st' = borrowed st /\ snapshot st' = snapshot st
     | inr _ => borrowed st' = S (borrowed st) /\ snapshot st' = None
     end.
Proof.
  unfold getConnection, bind.
  destruct (round_trip st) as [[e|[]] s1] eqn:E;
    apply round_trip_inv in E as (Hd & Hs & Hb); intros [= <- <-]; simpl; auto.
Qed.

(** The read-back after the commit: it leaves the data alone, and it
    has given the connection back exactly when it returns. *)
Lemma read_back_frame (rows : Database -> list ContentRow)
      (tag_rows : Database -> list TagRow) (code : Z) st r st' :
  (newContent <- select rows ;;
   contentTags <- select tag_rows ;;
   createdContent <- first_row newContent ;;
   release ;;
   ret {| status := code; json := Content (with_tags createdContent contentTags) |})
    st = (r, st') ->
  same_data st st'
  /\ borrowed st' = match r with
                    | inl _ => borrowed st
                    | inr _ => Nat.pred (borrowed st)
                    end.
Proof.
  unfold bind.
  destruct (select rows st) as [[e|a] s1] eqn:E1;
    apply select_inv in E1 as (Hd1 & Hs1 & Hb1 & _).
  { intros [= <- <-]. repeat split; auto. }
  destruct (select tag_rows s1) as [[e|b] s2] eqn:E2;
    apply select_inv in E2 as (Hd2 & Hs2 & Hb2 & _).
  { intros [= <- <-]. repeat split; congruence. }
  destruct a as [|x a]; simpl.
  { intros [= <- <-]. repeat split; congruence. }
  intros [= <- <-]. unfold same_data. simpl. repeat split; congruence.
Qed.

(** The connections borrowed after the catch block, when the block was
    entered with one connection more than [n] borrowed: the connection is
    given back unless the ROLLBACK was cut off. *)
Lemma catch_lease n st x :
  borrowed st = S n ->
  borrowed x = borrowed_after_catch st ->
  borrowed x = n \/ borrowed x = S n.
Proof.
  unfold borrowed_after_catch. intros Hb ->.
  destruct (hd false (faults st)); [right | left]; rewrite Hb; auto.
Qed.

(** Everything a POST /content can end in. *)
Lemma post_outcome req st res st' :
  post req st = (Sent res, st') ->
  (borrowed st' = borrowed st
   \/ (res = server_error /\ borrowed st' = S (borrowed st)))
  /\ (snapshot st = None -> snapshot st' = None)
  /\ ((res = server_error /\ tables (db st') = tables (db st))
      \/ exists id,
          created req id (db st) (db st')
          /\ (res = server_error
              \/ res = {| status := 201;
                          json := Content
                                    (with_tags
                                       (new_content_row id (current_timestamp (db st))
                                          (content_params (body req)))
                                       (select_tags id (db st'))) |})).
Proof.
  unfold post, respond.
  destruct (post_body req st) as [[e|res0] s'] eqn:B;
    intros [= <- <-]; unfold post_body in B; unfold bind at 1 in B;
    destruct (getConnection st) as [[e0|[]] s1] eqn:Hg;
    apply getConnection_lease in Hg as (Hd1 & Hb1 & Hs1);
    try discriminate.
  - injection B as <- <-. split; [left; exact Hb1|]. split; [congruence|].
    left. rewrite Hd1. auto.
  - unfold try_catch in B. unfold bind at 1 in B.
    destruct (post_writes req s1) as [[e1|id] s2] eqn:Hw.
    + pose proof (post_writes_inv req s1 _ _ Hs1 Hw) as Hr. simpl in Hr.
      apply post_writes_same_lease in Hw.
      destruct (rollback_release_throw (A := Response) e1 s2)
        as (x & E & Ht & Hsn & Hb).
      rewrite E in B. injection B as _ <-. unfold same_lease in Hw.
      split; [|split; [auto|]].
      * destruct (catch_lease (borrowed st) s2 x) as [L | L];
          [congruence | exact Hb | left; exact L | right; split; [reflexivity | exact L]].
      * left. split; auto. rewrite Ht, Hr, Hd1. reflexivity.
    + pose proof (post_writes_inv req s1 _ _ Hs1 Hw) as [Hs2 Hc].
      rewrite Hd1 in Hc.
      apply post_writes_same_lease in Hw. unfold same_lease in Hw.
      destruct (post_read_back id s2) as [[e2|res1] s3] eqn:Hrb;
        [|discriminate].
      unfold post_read_back in Hrb.
      apply read_back_frame in Hrb as ((Hd3 & Hs3) & Hb3).
      destruct (rollback_release_throw (A := Response) e2 s3)
        as (x & E & Ht & Hsn & Hb).
      rewrite E in B. injection B as _ <-.
      split; [|split; [auto|]].
      * destruct (catch_lease (borrowed st) s3 x) as [L | L];
          [congruence | exact Hb | left; exact L | right; split; [reflexivity | exact L]].
      * right. exists id. split; [|left; reflexivity].
        unfold rolled_back in Ht. rewrite Hs3, Hs2, Hd3 in Ht.
        unfold created in *. rewrite Ht. exact Hc.
  - unfold try_catch in B. unfold bind at 1 in B.
    destruct (post_writes req s1) as [[e1|id] s2] eqn:Hw.
    { destruct (rollback_release_throw (A := Response) e1 s2) as (x & E & _).
      rewrite E in B. discriminate. }
    pose proof (post_writes_inv req s1 _ _ Hs1 Hw) as [Hs2 Hc].
    rewrite Hd1 in Hc.
    apply post_writes_same_lease in Hw. unfold same_lease in Hw.
    destruct (post_read_back id s2) as [[e2|res1] s3] eqn:Hrb.
    { destruct (rollback_release_throw (A := Response) e2 s3) as (x & E & _).
      rewrite E in B. discriminate. }
    injection B as <- <-.
    pose proof Hrb as Hfr. unfold post_read_back in Hfr.
    apply read_back_frame in Hfr as ((Hd3 & Hs3) & Hb3).
    apply CreateFacts.post_read_back_inv in Hrb as (_ & r & rest & Hsel & ->).
    destruct Hc as (Hrows & Htags & Hmedia & Hfresh).
    unfold select_content_by_id in Hsel. rewrite Hrows in Hsel.
    rewrite (CreateFacts.select_new_row _ _ _ _ Hfresh) in Hsel.
    injection Hsel as <- <-.
    split; [left; rewrite Hb3, Hw, Hb1; reflexivity|]. split; [congruence|].
    right. exists id. rewrite Hd3. split; [|right; reflexivity].
    repeat split; auto.
Qed.

(** Everything a PUT /content/:id can end in. *)
Lemma put_outcome req st res st' :
  put req st = (Sent res, st') ->
  (borrowed st' = borrowed st
   \/ (res = server_error /\ borrowed st' = S (borrowed st)))
  /\ (snapshot st = None -> snapshot st' = None)
  /\ ((res = server_error /\ tables (db st') = tables (db st))
      \/ (replaced req (db st) (db st')
          /\ (res = server_error
              \/ exists r,
                  res = {| status := 200;
                           json := Content
                                     (with_tags r
                                        (select_tags (params_id req) (db st'))) |}
                  /\ hd_error (select_content_by_id (params_id req) (db st')) = Some r
                  /\ holds_body r (body req)))).
Proof.
  unfold put, respond.
  destruct (put_body req st) as [[e|res0] s'] eqn:B;
    intros [= <- <-]; unfold put_body in B; unfold bind at 1 in B;
    destruct (getConnection st) as [[e0|[]] s1] eqn:Hg;
    apply getConnection_lease in Hg as (Hd1 & Hb1 & Hs1);
    try discriminate.
  - injection B as <- <-. split; [left; exact Hb1|]. split; [congruence|].
    left. rewrite Hd1. auto.
  - unfold try_catch in B. unfold bind at 1 in B.
    destruct (put_writes req s1) as [[e1|[]] s2] eqn:Hw.
    + pose proof (put_writes_inv req s1 _ _ Hs1 Hw) as Hr. simpl in Hr.
      apply put_writes_same_lease in Hw.
      destruct (rollback_release_throw (A := Response) e1 s2)
        as (x & E & Ht & Hsn & Hb).
      rewrite E in B. injection B as _ <-. unfold same_lease in Hw.
      split; [|split; [auto|]].
      * destruct (catch_lease (borrowed st) s2 x) as [L | L];
          [congruence | exact Hb | left; exact L | right; split; [reflexivity | exact L]].
      * left. split; auto. rewrite Ht, Hr, Hd1. reflexivity.
    + pose proof (put_writes_inv req s1 _ _ Hs1 Hw) as (Hs2 & Hc & _).
      rewrite Hd1 in Hc.
      apply put_writes_same_lease in Hw. unfold same_lease in Hw.
      destruct (put_read_back req s2) as [[e2|res1] s3] eqn:Hrb;
        [|discriminate].
      unfold put_read_back in Hrb.
      apply read_back_frame in Hrb as ((Hd3 & Hs3) & Hb3).
      destruct (rollback_release_throw (A := Response) e2 s3)
        as (x & E & Ht & Hsn & Hb).
      rewrite E in B. injection B as _ <-.
      split; [|split; [auto|]].
      * destruct (catch_lease (borrowed st) s3 x) as [L | L];
          [congruence | exact Hb | left; exact L | right; split; [reflexivity | exact L]].
      * right. split; [|left; reflexivity].
        unfold rolled_back in Ht. rewrite Hs3, Hs2, Hd3 in Ht.
        unfold replaced in *. rewrite Ht. exact Hc.
  - unfold try_catch in B. unfold bind at 1 in B.
    destruct (put_writes req s1) as [[e1|[]] s2] eqn:Hw.
    { destruct (rollback_release_throw (A := Response) e1 s2) as (x & E & _).
      rewrite E in B. discriminate. }
    pose proof (put_writes_inv req s1 _ _ Hs1 Hw) as (Hs2 & Hc & Hok).
    rewrite Hd1 in Hc, Hok.
    apply put_writes_same_lease in Hw. unfold same_lease in Hw.
    destruct (put_read_back req s2) as [[e2|res1] s3] eqn:Hrb.
    { destruct (rollback_release_throw (A := Response) e2 s3) as (x & E & _).
      rewrite E in B. discriminate. }
    injection B as <- <-.
    pose proof Hrb as Hfr. unfold put_read_back in Hfr.
    apply read_back_frame in Hfr as ((Hd3 & Hs3) & Hb3).
    apply put_read_back_inv in Hrb as (_ & r & rest & Hsel & ->).
    pose proof Hsel as Hsel'. unfold select_content_by_id in Hsel'.
    rewrite (proj1 Hc) in Hsel'.
    apply first_assigned in Hsel' as (r0 & Hin & Hid & ->); [|reflexivity].
    pose proof (has_content_id_In _ _ _ Hin Hid) as Hex.
    split; [left; rewrite Hb3, Hw, Hb1; reflexivity|]. split; [congruence|].
    right. rewrite Hd3. split; [exact Hc|]. right.
    eexists. split; [reflexivity|]. split.
    + rewrite Hsel. reflexivity.
    + apply assigned_holds_body, Hok, Hex.
Qed.

(** X5. Whatever faults occur and wherever, after a POST or a PUT on
    content the stored rows are either exactly those from before the
    request or those with the request's writes complete: the content row
    together with all its tag rows. *)
Theorem content_writes_all_or_nothing req st :
  (forall res st',
      post req st = (Sent res, st') ->
      tables (db st') = tables (db st)
      \/ exists contentId, created req contentId (db st) (db st'))
  /\ (forall res st',
         put req st = (Sent res, st') ->
         tables (db st') = tables (db st) \/ replaced req (db st) (db st')).
Proof.
  split; intros res st' H.
  - apply post_outcome in H as (_ & _ & [[_ H] | (id & H & _)]); eauto.
  - apply put_outcome in H as (_ & _ & [[_ H] | (H & _)]); auto.
Qed.

(** No fault lies ahead afterwards if none did before. *)
Definition stays_quiet (st st' : Server) : Prop := quiet st -> quiet st'.

Lemma stays_quiet_refl st : stays_quiet st st.
Proof. intros H. exact H. Qed.

Lemma stays_quiet_trans a b c : stays_quiet a b -> stays_quiet b c -> stays_quiet a c.
Proof. unfold stays_quiet. auto. Qed.

Lemma round_trip_stays_quiet : keeps stays_quiet round_trip.
Proof.
  intros st r st' H Hq.
  destruct (round_trip_quiet st Hq) as (s & E & _ & _ & _ & Hq').
  rewrite E in H. injection H as _ <-. exact Hq'.
Qed.

Lemma query_stays_quiet {A} (statement : Database -> Result (A * Database)) :
  keeps stays_quiet (query statement).
Proof.
  unfold query.
  apply (keeps_bind stays_quiet stays_quiet_trans); [apply round_trip_stays_quiet|].
  intros _ st r st'. destruct (statement (db st)) as [e|[a d]];
    intros [= <- <-] Hq; exact Hq.
Qed.

Lemma beginTransaction_stays_quiet : keeps stays_quiet beginTransaction.
Proof.
  unfold beginTransaction.
  apply (keeps_bind stays_quiet stays_quiet_trans); [apply round_trip_stays_quiet|].
  intros _ st r st' [= <- <-] Hq. exact Hq.
Qed.

Lemma commit_stays_quiet : keeps stays_quiet commit.
Proof.
  unfold commit.
  apply (keeps_bind stays_quiet stays_quiet_trans); [apply round_trip_stays_quiet|].
  intros _ st r st' [= <- <-] Hq. exact Hq.
Qed.

Lemma getConnection_stays_quiet : keeps stays_quiet getConnection.
Proof.
  unfold getConnection.
  apply (keeps_bind stays_quiet stays_quiet_trans); [apply round_trip_stays_quiet|].
  intros _ st r st' [= <- <-] Hq. exact Hq.
Qed.

Lemma release_stays_quiet : keeps stays_quiet release.
Proof. intros st r st' [= <- <-] Hq. exact Hq. Qed.

Lemma first_row_stays_quiet rows : keeps stays_quiet (first_row rows).
Proof. destruct rows; intros st r st' [= <- <-] Hq; exact Hq. Qed.

Lemma insert_tags_stays_quiet id tags :
  keeps stays_quiet (insert_tags_if_provided id tags).
Proof.
  unfold insert_tags_if_provided. destruct tags as [[|t ts]|];
    try apply (keeps_ret stays_quiet stays_quiet_refl).
  apply query_stays_quiet.
Qed.

Ltac quiet_rules :=
  repeat first
    [ apply beginTransaction_stays_quiet | apply commit_stays_quiet
    | apply query_stays_quiet | apply insert_tags_stays_quiet
    | apply release_stays_quiet | apply first_row_stays_quiet
    | apply (keeps_ret stays_quiet stays_quiet_refl)
    | apply (keeps_bind stays_quiet stays_quiet_trans); [|intros ?] ].

Ltac lease_rules :=
  repeat first
    [ apply beginTransaction_same_lease | apply commit_same_lease
    | apply query_same_lease | apply insert_tags_same_lease
    | apply (keeps_ret same_lease same_lease_refl)
    | apply (keeps_bind same_lease same_lease_trans); [|intros ?] ].

(** The [try] block of the POST handler and that of the PUT handler. *)
Definition post_try (req : Request) : M Response :=
  contentId <- post_writes req ;; post_read_back contentId.

Definition put_try (req : Request) : M Response :=
  put_writes req ;; put_read_back req.

(** A [try] block gives the connection back exactly when it returns. *)
Definition releases_on_return (body : M Response) : Prop :=
  forall st r st',
    body st = (r, st') ->
    borrowed st' = match r with
                   | inl _ => borrowed st
                   | inr _ => Nat.pred (borrowed st)
                   end.

Lemma post_try_releases req : releases_on_return (post_try req).
Proof.
  intros st r st'. unfold post_try. unfold bind at 1.
  destruct (post_writes req st) as [[e|id] s1] eqn:Hw;
    apply post_writes_same_lease in Hw; unfold same_lease in Hw.
  - intros [= <- <-]. exact Hw.
  - intros H. unfold post_read_back in H.
    apply read_back_frame in H as [_ H]. rewrite H, Hw. reflexivity.
Qed.

Lemma put_try_releases req : releases_on_return (put_try req).
Proof.
  intros st r st'. unfold put_try. unfold bind at 1.
  destruct (put_writes req st) as [[e|[]] s1] eqn:Hw;
    apply put_writes_same_lease in Hw; unfold same_lease in Hw.
  - intros [= <- <-]. exact Hw.
  - intros H. unfold put_read_back in H.
    apply read_back_frame in H as [_ H]. rewrite H, Hw. reflexivity.
Qed.

Lemma post_try_stays_quiet req : keeps stays_quiet (post_try req).
Proof.
  unfold post_try, post_writes, post_read_back, select. quiet_rules.
Qed.

Lemma put_try_stays_quiet req : keeps stays_quiet (put_try req).
Proof.
  unfold put_try, put_writes, put_read_back, select. quiet_rules.
Qed.

(** getConnection; try { body } catch (err) { rollback; release; throw
    err }, under the outer [try] that answers 500: what is answered and
    how many connections are borrowed afterwards, by the way the request
    went. *)
Lemma transaction_lease (body : M Response) st :
  releases_on_return body ->
  let out := respond (getConnection ;;
                      try_catch body (fun err => rollback ;; release ;; throw err)) st in
  match getConnection st with
  | (inl _, _) =>
      fst out = Sent server_error /\ borrowed (snd out) = borrowed st
  | (inr _, st1) =>
      match body st1 with
      | (inr res, _) =>
          fst out = Sent res /\ borrowed (snd out) = borrowed st
      | (inl e, st2) =>
          fst out = Sent server_error
          /\ snapshot (snd out) = None
          /\ borrowed (snd out)
             = if hd false (faults st2) then S (borrowed st) else borrowed st
      end
  end.
Proof.
  intros Hbody. cbv zeta.
  destruct (getConnection st) as [[e0|[]] s1] eqn:Hg.
  - unfold respond. rewrite (bind_inl _ _ _ _ _ Hg). simpl.
    apply getConnection_lease in Hg as (_ & Hb1 & _). auto.
  - pose proof Hg as Hg'. apply getConnection_lease in Hg' as (_ & Hb1 & _).
    destruct (body s1) as [[e|res] s2] eqn:Hw;
      pose proof (Hbody _ _ _ Hw) as Hl; simpl in Hl;
      unfold respond; rewrite (bind_inr _ _ _ _ _ Hg); unfold try_catch;
      rewrite Hw.
    + destruct (rollback_release_throw (A := Response) e s2)
        as (x & E & _ & Hs & Hb).
      rewrite E. simpl. split; [reflexivity|]. split; [exact Hs|].
      rewrite Hb. unfold borrowed_after_catch.
      destruct (hd false (faults s2)); rewrite Hl, Hb1; reflexivity.
    + simpl. split; [reflexivity|]. rewrite Hl, Hb1. reflexivity.
Qed.

Lemma transaction_lease_quiet (body : M Response) st :
  releases_on_return body ->
  keeps stays_quiet body ->
  quiet st ->
  borrowed (snd (respond (getConnection ;;
                          try_catch body (fun err => rollback ;; release ;; throw err))
                   st))
  = borrowed st.
Proof.
  intros Hbody Hquiet Hq. pose proof (transaction_lease body st Hbody) as H.
  cbv zeta in H.
  destruct (getConnection st) as [[e0|[]] s1] eqn:Hg; [apply H|].
  apply getConnection_stays_quiet in Hg. specialize (Hg Hq).
  destruct (body s1) as [[e|res] s2] eqn:Hw; [|apply H].
  apply Hquiet in Hw. specialize (Hw Hg).
  destruct H as (_ & _ & ->). unfold quiet in Hw.
  destruct (faults s2) as [|[] rest]; simpl in *; auto. discriminate.
Qed.

(** X6. The POST and the PUT handler give the connection borrowed from
    the pool back on every path but one. When their [try] block fails,
    the catch block awaits the ROLLBACK before it releases: if the
    ROLLBACK is rejected too, [release] is not reached and the
    connection stays borrowed, the answer being 500 as after any other
    failure. So a handler leaves the count of borrowed connections as it
    was or one higher, and the latter only with a 500; with no fault
    ahead it leaves the count as it was, whether the statements go
    through or break a constraint. No transaction is left open on any
    path. *)
Theorem connection_released_unless_rollback_fails req st :
  (forall st1 e st2,
      getConnection st = (inr tt, st1) ->
      post_try req st1 = (inl e, st2) ->
      fst (post req st) = Sent server_error
      /\ snapshot (snd (post req st)) = None
      /\ borrowed (snd (post req st))
         = if hd false (faults st2) then S (borrowed st) else borrowed st)
  /\ (forall st1 e st2,
         getConnection st = (inr tt, st1) ->
         put_try req st1 = (inl e, st2) ->
         fst (put req st) = Sent server_error
         /\ snapshot (snd (put req st)) = None
         /\ borrowed (snd (put req st))
            = if hd false (faults st2) then S (borrowed st) else borrowed st)
  /\ (forall res st',
         post req st = (Sent res, st') ->
         (snapshot st = None -> snapshot st' = None)
         /\ (borrowed st' = borrowed st
             \/ (res = server_error /\ borrowed st' = S (borrowed st))))
  /\ (forall res st',
         put req st = (Sent res, st') ->
         (snapshot st = None -> snapshot st' = None)
         /\ (borrowed st' = borrowed st
             \/ (res = server_error /\ borrowed st' = S (borrowed st))))
  /\ (quiet st ->
      borrowed (snd (post req st)) = borrowed st
      /\ borrowed (snd (put req st)) = borrowed st).
Proof.
  split; [|split; [|split; [|split]]].
  - intros st1 e st2 Hg Hw.
    pose proof (transaction_lease (post_try req) st (post_try_releases req)) as H.
    cbv zeta in H. rewrite Hg, Hw in H. exact H.
  - intros st1 e st2 Hg Hw.
    pose proof (transaction_lease (put_try req) st (put_try_releases req)) as H.
    cbv zeta in H. rewrite Hg, Hw in H. exact H.
  - intros res st' H. apply post_outcome in H as (Hb & Hs & _). auto.
  - intros res st' H. apply put_outcome in H as (Hb & Hs & _). auto.
  - intros Hq. split.
    + apply (transaction_lease_quiet (post_try req) st);
        [apply post_try_releases | apply post_try_stays_quiet | exact Hq].
    + apply (transaction_lease_quiet (put_try req) st);
        [apply put_try_releases | apply put_try_stays_quiet | exact Hq].
Qed.

Lemma content_writes_all_or_nothing_witness :
  tables (db (snd (post create_request (idle [false; false; false; true]))))
  = tables (db (idle [false; false; false; true]))
  \/ exists contentId,
      created create_request contentId (db (idle [false; false; false; true]))
        (db (snd (post create_request (idle [false; false; false; true])))).
Proof.
  apply (proj1 (content_writes_all_or_nothing create_request
                  (idle [false; false; false; true]))
           server_error).
  reflexivity.
Defined.

(** The UPDATE is cut off, and the ROLLBACK after it: the connection
    stays borrowed. *)
Lemma connection_released_unless_rollback_fails_witness :
  fst (put update_request (idle [false; false; true; true])) = Sent server_error
  /\ snapshot (snd (put update_request (idle [false; false; true; true]))) = None
  /\ borrowed (snd (put update_request (idle [false; false; true; true]))) = 1%nat.
Proof.
  exact (proj1 (proj2 (connection_released_unless_rollback_fails update_request
                         (idle [false; false; true; true])))
           _ PROTOCOL_CONNECTION_LOST _ eq_refl eq_refl).
Defined.

End OutcomeFacts.

(** ** Reading back what was written *)

Module ReadFacts.
Import Storage Pool Express Samples Spec Laws PoolFacts StorageFacts MonadFacts.
Import ContentRoutes CreateFacts UpdateFacts OutcomeFacts.
Local Open Scope request_scope.

(** GET /content/:id when no fault cuts it off. *)
Lemma get_by_id_quiet req st :
  quiet st ->
  exists st',
    db st' = db st
    /\ get_by_id req st
       = (Sent match select_content_by_id (params_id req) (db st) with
               | [] => content_not_found
               | r :: _ =>
                   {| status := 200;
                      json := Content (with_tags r (select_tags (c_id r) (db st))) |}
               end, st').
Proof.
  intros Hq. unfold get_by_id, respond, get_by_id_body.
  destruct (select_quiet (select_content_by_id (params_id req)) st Hq)
    as (s1 & E1 & Hq1 & _ & _ & Hd1).
  rewrite (bind_inr _ _ _ _ _ E1).
  destruct (select_content_by_id (params_id req) (db st)) as [|r rest].
  - exists s1. split; [exact Hd1 | reflexivity].
  - destruct (select_quiet (select_tags (c_id r)) s1 Hq1)
      as (s2 & E2 & _ & _ & _ & Hd2).
    rewrite (bind_inr _ _ _ _ _ E2). rewrite Hd1.
    exists s2. split; [congruence | reflexivity].
Qed.

Lemma select_by_id_empty id d :
  has_content_id id (t_content (tables d)) = false <->
  select_content_by_id id d = [].
Proof.
  unfold has_content_id, select_content_by_id.
  induction (t_content (tables d)) as [|r rows IH]; simpl; [tauto|].
  destruct (c_id r =? id); simpl; [split; discriminate | exact IH].
Qed.

Lemma select_by_id_first id d r rest :
  select_content_by_id id d = r :: rest ->
  c_id r = id /\ In r (t_content (tables d)).
Proof.
  intros H.
  assert (In r (select_content_by_id id d)) as Hin by (rewrite H; left; reflexivity).
  apply filter_In in Hin as [Hin Hid]. apply Z.eqb_eq in Hid. auto.
Qed.

(** X7. When no fault cuts the request off, GET /content/:id answers 404
    "Content not found" exactly when no row has the id; otherwise it
    answers 200 with a stored row of that id and the tags stored for it.
    The database is left as it was. *)
Theorem get_by_id_finds_exactly_stored req st :
  quiet st ->
  exists res st',
    get_by_id req st = (Sent res, st')
    /\ db st' = db st
    /\ (res = content_not_found
        <-> has_content_id (params_id req) (t_content (tables (db st))) = false)
    /\ (has_content_id (params_id req) (t_content (tables (db st))) = true ->
        exists r,
          res = {| status := 200;
                   json := Content
                             {| row := r;
                                tags := map ct_tag
                                          (select_tags (params_id req) (db st)) |} |}
          /\ c_id r = params_id req
          /\ In r (t_content (tables (db st)))).
Proof.
  intros Hq. destruct (get_by_id_quiet req st Hq) as (st' & Hd & E).
  eexists. exists st'. split; [exact E|]. split; [exact Hd|].
  destruct (select_content_by_id (params_id req) (db st)) as [|r rest] eqn:S.
  - apply select_by_id_empty in S. split; [tauto|].
    intros H. congruence.
  - assert (has_content_id (params_id req) (t_content (tables (db st))) = true)
      as Hex.
    { destruct (has_content_id _ _) eqn:H; auto.
      apply select_by_id_empty in H. congruence. }
    apply select_by_id_first in S as [Hid Hin]. split.
    + split; [discriminate | congruence].
    + intros _. exists r. rewrite Hid. auto.
Qed.

Lemma get_by_id_finds_exactly_stored_witness :
  exists res st',
    get_by_id (request None 5 None empty_body) (idle [false; false])
    = (Sent res, st')
    /\ db st' = seed_db
    /\ (res = content_not_found <-> has_content_id 5 (t_content seed_tables) = false)
    /\ (has_content_id 5 (t_content seed_tables) = true ->
        exists r,
          res = {| status := 200;
                   json := Content
                             {| row := r;
                                tags := map ct_tag (select_tags 5 seed_db) |} |}
          /\ c_id r = 5
          /\ In r (t_content seed_tables)).
Proof.
  apply (get_by_id_finds_exactly_stored
           (request None 5 None empty_body) (idle [false; false])).
  reflexivity.
Defined.

(** X8. What POST /content answers with 201 is what a later GET of the
    generated id answers with 200, as long as the database has not
    changed in between and no fault cuts the GET off. *)
Theorem created_content_is_read_back req st res st1 :
  post req st = (Sent res, st1) ->
  status res = 201 ->
  exists item,
    json res = Content item
    /\ forall req' st2,
        params_id req' = c_id (row item) ->
        db st2 = db st1 ->
        quiet st2 ->
        fst (get_by_id req' st2) = Sent {| status := 200; json := Content item |}.
Proof.
  intros Hp H201.
  apply post_outcome in Hp as (_ & _ & [[-> _] | (id & Hc & [-> | ->])]);
    try discriminate.
  eexists. split; [reflexivity|]. simpl.
  intros req' st2 Hid Hd Hq.
  destruct (get_by_id_quiet req' st2 Hq) as (s & _ & E). rewrite E. simpl.
  destruct Hc as (Hrows & _ & _ & Hfresh).
  unfold select_content_by_id. rewrite Hid, Hd, Hrows.
  rewrite (select_new_row _ _ _ _ Hfresh). reflexivity.
Qed.

Lemma created_content_is_read_back_witness :
  exists item,
    Content {| row := new_content_row 7 300
                        (content_params (blog_body (Some ["ai"; "edu"])));
               tags := ["ai"; "edu"] |}
    = Content item
    /\ forall req' st2,
        params_id req' = c_id (row item) ->
        db st2 = db after_create ->
        quiet st2 ->
        fst (get_by_id req' st2) = Sent {| status := 200; json := Content item |}.
Proof.
  exact (created_content_is_read_back create_request (idle []) _ _
           create_answers_201 eq_refl).
Defined.

(** X9. What PUT /content/:id answers with 200 is what a later GET of
    the same id answers, under the same conditions. *)
Theorem updated_content_is_read_back req st res st1 :
  put req st = (Sent res, st1) ->
  status res = 200 ->
  forall req' st2,
    params_id req' = params_id req ->
    db st2 = db st1 ->
    quiet st2 ->
    fst (get_by_id req' st2) = Sent res.
Proof.
  intros Hp H200 req' st2 Hid Hd Hq.
  apply put_outcome in Hp
    as (_ & _ & [[-> _] | (_ & [-> | (r & -> & Hhd & _)])]);
    try discriminate.
  destruct (get_by_id_quiet req' st2 Hq) as (s & _ & E). rewrite E. simpl.
  rewrite Hid, Hd.
  destruct (select_content_by_id (params_id req) (db st1)) as [|r0 rest] eqn:S;
    [discriminate|].
  injection Hhd as ->.
  apply select_by_id_first in S as [-> _]. reflexivity.
Qed.

Lemma updated_content_is_read_back_witness :
  fst (get_by_id (request None 5 None empty_body) after_update)
  = Sent {| status := 200;
            json := Content
                      {| row := assign_content 300 (content_params (blog_body None))
                                  future_post;
                         tags := [] |} |}.
Proof.
  exact (updated_content_is_read_back update_request (idle []) _ _
           update_answers_200 eq_refl
           (request None 5 None empty_body) after_update
           eq_refl eq_refl eq_refl).
Defined.

End ReadFacts.

(** ** Deleting a row that exists *)

Module DeleteExistingFacts.
Import Storage Pool Express Samples Spec Laws PoolFacts StorageFacts MonadFacts.
Import DeleteFacts ReadFacts.
Local Open Scope request_scope.

Definition content_deleted : Response :=
  {| status := 200; json := Message "Content deleted" |}.

Definition media_deleted : Response :=
  {| status := 200; json := Message "Media deleted" |}.

Lemma filter_matching_nonempty {A} (f : A -> bool) l :
  existsb f l = true -> (Z.of_nat (List.length (filter f l)) =? 0) = false.
Proof.
  induction l as [|a l IH]; simpl; [discriminate|].
  destruct (f a); simpl; [|exact IH].
  intros _. reflexivity.
Qed.

Lemma existsb_filter_negb {A} (f : A -> bool) l :
  existsb f (filter (fun a => negb (f a)) l) = false.
Proof.
  induction l as [|a l IH]; simpl; auto.
  destruct (f a) eqn:E; simpl; auto. rewrite E. exact IH.
Qed.

Lemma delete_body_unfaulted req st :
  hd false (faults st) = false ->
  exists st' n,
    delete_content (params_id req) (db st) = inr (n, db st')
    /\ ContentRoutes.delete req st
       = (Sent (if has_content_id (params_id req) (t_content (tables (db st)))
                then content_deleted else content_not_found), st').
Proof.
  intros Hf. destruct (round_trip_unfaulted st Hf) as (s1 & E & Hd).
  destruct (delete_content (params_id req) (db st)) as [e|[n d]] eqn:D;
    [unfold delete_content in D; discriminate|].
  assert (Q : query (delete_content (params_id req)) st = (inr n, set_db s1 d)).
  { unfold query. rewrite (bind_inr _ _ _ _ _ E). rewrite Hd, D. reflexivity. }
  exists (set_db s1 d), n. split; [reflexivity|].
  unfold ContentRoutes.delete, respond, ContentRoutes.delete_body.
  rewrite (bind_inr _ _ _ _ _ Q).
  unfold delete_content in D. injection D as <- _.
  destruct (has_content_id (params_id req) (t_content (tables (db st)))) eqn:Hex.
  - unfold has_content_id in Hex.
    rewrite (filter_matching_nonempty _ _ Hex). reflexivity.
  - destruct (filter_none _ _ Hex) as [-> _]. reflexivity.
Qed.

(** X10. When the round trip is not cut off, deleting a content id that
    exists answers 200 "Content deleted"; the row and every tag row of
    the id are gone, all other content rows, tag rows and media rows are
    kept in order; and a second DELETE of the id answers 404. *)
Theorem delete_removes_row_and_its_tags req st :
  hd false (faults st) = false ->
  has_content_id (params_id req) (t_content (tables (db st))) = true ->
  exists st',
    ContentRoutes.delete req st = (Sent content_deleted, st')
    /\ t_content (tables (db st'))
       = filter (fun r => negb (c_id r =? params_id req)) (t_content (tables (db st)))
    /\ t_content_tags (tables (db st'))
       = filter (fun r => negb (ct_content_id r =? params_id req))
           (t_content_tags (tables (db st)))
    /\ t_media (tables (db st')) = t_media (tables (db st))
    /\ select_content_by_id (params_id req) (db st') = []
    /\ select_tags (params_id req) (db st') = []
    /\ forall st2,
        db st2 = db st' ->
        hd false (faults st2) = false ->
        fst (ContentRoutes.delete req st2) = Sent content_not_found.
Proof.
  intros Hf Hex. destruct (delete_body_unfaulted req st Hf) as (st' & n & Hd & E).
  rewrite Hex in E. exists st'. split; [exact E|].
  unfold delete_content in Hd. rewrite Hex in Hd. injection Hd as _ Hd.
  rewrite <- Hd. simpl. repeat split.
  - unfold select_content_by_id. simpl.
    apply (filter_filter_negb (fun r => c_id r =? params_id req)).
  - unfold select_tags. simpl.
    apply (filter_filter_negb (fun r => ct_content_id r =? params_id req)).
  - intros st2 Hd2 Hf2.
    destruct (delete_body_unfaulted req st2 Hf2) as (s & m & _ & E2).
    rewrite E2. simpl. rewrite Hd2. simpl. unfold has_content_id.
    rewrite (existsb_filter_negb (fun r => c_id r =? params_id req)).
    reflexivity.
Qed.

Lemma delete_removes_row_and_its_tags_witness :
  exists st',
    ContentRoutes.delete (request (Some "admin-token") 5 None empty_body) (idle [])
    = (Sent content_deleted, st')
    /\ t_content (tables (db st'))
       = filter (fun r => negb (c_id r =? 5)) (t_content seed_tables)
    /\ t_content_tags (tables (db st'))
       = filter (fun r => negb (ct_content_id r =? 5)) (t_content_tags seed_tables)
    /\ t_media (tables (db st')) = t_media seed_tables
    /\ select_content_by_id 5 (db st') = []
    /\ select_tags 5 (db st') = []
    /\ forall st2,
        db st2 = db st' ->
        hd false (faults st2) = false ->
        fst (ContentRoutes.delete (request (Some "admin-token") 5 None empty_body) st2)
        = Sent content_not_found.
Proof.
  apply (delete_removes_row_and_its_tags
           (request (Some "admin-token") 5 None empty_body) (idle []));
    reflexivity.
Defined.

End DeleteExistingFacts.

(** ** The schema's constraints as an invariant of the routes *)

Module InvariantFacts.
Import Storage Pool Express Auth App Samples Spec Laws PoolFacts StorageFacts.
Import MonadFacts DeleteFacts OutcomeFacts.
Local Open Scope request_scope.

Lemma existsb_eqb_In {A B} (f : A -> B) (eqb : B -> B -> bool) x rows :
  (forall a b, eqb a b = true <-> a = b) ->
  existsb (fun r => eqb (f r) x) rows = true <-> In x (map f rows).
Proof.
  intros Heq. rewrite existsb_exists, in_map_iff.
  split; intros (r & H1 & H2); exists r.
  - apply Heq in H2. auto.
  - split; [exact H2|]. apply Heq. exact H1.
Qed.

Lemma has_content_id_spec id rows :
  has_content_id id rows = true <-> In id (map c_id rows).
Proof. apply existsb_eqb_In. intros a b. apply Z.eqb_eq. Qed.

Lemma has_slug_spec s rows : has_slug s rows = true <-> In s (map c_slug rows).
Proof. apply existsb_eqb_In. intros a b. apply String.eqb_eq. Qed.

Lemma has_tag_spec cid tag rows :
  has_tag cid tag rows = true <-> In (cid, tag) (map tag_pair rows).
Proof.
  unfold has_tag. rewrite existsb_exists, in_map_iff.
  split; intros (r & H1 & H2); exists r.
  - apply andb_true_iff in H2 as [Ha Hb].
    apply Z.eqb_eq in Ha. apply String.eqb_eq in Hb.
    unfold tag_pair. split; [congruence | exact H1].
  - unfold tag_pair in H1. injection H1 as <- <-. split; [exact H2|].
    rewrite Z.eqb_refl, String.eqb_refl. reflexivity.
Qed.

Lemma not_true_notin b (P : Prop) : (b = true <-> P) -> b = false -> ~ P.
Proof. intros H Hb HP. apply H in HP. congruence. Qed.

Lemma NoDup_snoc {A} (l : list A) a : NoDup l -> ~ In a l -> NoDup (l ++ [a]).
Proof.
  intros Hl Ha. apply NoDup_app; auto.
  - constructor; [intros []|constructor].
  - intros x Hx [<-|[]]. contradiction.
Qed.

Lemma NoDup_map_filter {A B} (f : A -> B) (g : A -> bool) l :
  NoDup (map f l) -> NoDup (map f (filter g l)).
Proof.
  induction l as [|a l IH]; simpl; auto.
  intros H. inversion H as [|x xs Hx Hxs]; subst.
  destruct (g a); simpl; auto.
  constructor; auto.
  intros Hin. apply Hx. apply in_map_iff in Hin as (r & Hr & Hin).
  apply filter_In in Hin as [Hin _]. apply in_map_iff. eauto.
Qed.

Lemma Forall_filter_keep {A} (P : A -> Prop) (g : A -> bool) l :
  Forall P l -> Forall P (filter g l).
Proof.
  rewrite !Forall_forall. intros H x Hx. apply filter_In in Hx as [Hx _]. auto.
Qed.

(** *** The statements keep the constraints *)

Lemma insert_content_consistent p d id d' :
  insert_content p d = inr (id, d') ->
  consistent (tables d) -> consistent (tables d').
Proof.
  intros H (Hid & Hslug & Hty & Htid & Htp & Hfk & Hmid & Hmty).
  apply insert_content_inv in H
    as (Hok & _ & Hfresh & Hfree & Hc & Ht & Hm & _).
  apply content_violation_none in Hok as (_ & Hvalid & _).
  unfold consistent. rewrite Hc, Ht, Hm. rewrite !map_app. simpl.
  repeat split; auto.
  - apply NoDup_snoc; auto.
    apply (not_true_notin _ _ (has_content_id_spec _ _)), Hfresh.
  - apply NoDup_snoc; auto.
    apply (not_true_notin _ _ (has_slug_spec _ _)), Hfree.
  - apply Forall_app. split; auto.
  - eapply Forall_impl; [|exact Hfk]. intros r Hr. simpl in Hr.
    unfold has_content_id. rewrite existsb_app. unfold has_content_id in Hr.
    rewrite Hr. reflexivity.
Qed.

Lemma assigned_slugs id (g : ContentRow -> ContentRow) s rows :
  (forall r, c_slug (g r) = s) ->
  NoDup (map c_id rows) ->
  NoDup (map c_slug rows) ->
  has_slug s (filter (fun r => negb (c_id r =? id)) rows) = false ->
  NoDup (map c_slug (map (fun r => if c_id r =? id then g r else r) rows)).
Proof.
  intros Hg. induction rows as [|a rows IH]; simpl; [constructor|].
  intros Hid Hslug Hfree.
  inversion Hid as [|x xs Hx Hxs]; subst.
  inversion Hslug as [|y ys Hy Hys]; subst.
  destruct (c_id a =? id) eqn:E; simpl in Hfree.
  - apply Z.eqb_eq in E.
    assert (existsb (fun r => c_id r =? id) rows = false) as Hnone.
    { destruct (existsb _ rows) eqn:H; auto.
      apply has_content_id_spec in H. rewrite E in Hx. contradiction. }
    rewrite (map_unmatched (fun r => c_id r =? id) g rows Hnone).
    destruct (filter_none _ _ Hnone) as [_ Hkeep]. rewrite Hkeep in Hfree.
    rewrite Hg. constructor; auto.
    apply (not_true_notin _ _ (has_slug_spec _ _)), Hfree.
  - apply orb_false_iff in Hfree as [Ha Hfree].
    constructor; [|apply IH; auto].
    intros Hin. apply in_map_iff in Hin as (r' & Hs & Hin).
    apply in_map_iff in Hin as (r & <- & Hin).
    destruct (c_id r =? id).
    + rewrite Hg in Hs. rewrite String.eqb_sym in Ha.
      apply String.eqb_neq in Ha. congruence.
    + apply Hy. apply in_map_iff. eauto.
Qed.

Lemma map_id_assigned id (g : ContentRow -> ContentRow) rows :
  (forall r, c_id (g r) = c_id r) ->
  map c_id (map (fun r => if c_id r =? id then g r else r) rows) = map c_id rows.
Proof.
  intros Hg. induction rows as [|a rows IH]; simpl; auto.
  rewrite IH. destruct (c_id a =? id); rewrite ?Hg; reflexivity.
Qed.

Lemma update_content_consistent p id d n d' :
  update_content p id d = inr (n, d') ->
  consistent (tables d) -> consistent (tables d').
Proof.
  unfold update_content.
  destruct (has_content_id id (t_content (tables d))) eqn:Hex; simpl;
    [|intros [= _ <-]; auto].
  destruct (content_violation p) eqn:Hok; [discriminate|].
  destruct (has_slug _ _) eqn:Hfree; [discriminate|].
  intros [= _ <-] (Hid & Hslug & Hty & Htid & Htp & Hfk & Hmid & Hmty).
  apply content_violation_none in Hok as (_ & Hvalid & _).
  unfold consistent. simpl.
  assert (Hids : map c_id
                   (map (fun r => if c_id r =? id
                                  then assign_content (current_timestamp d) p r
                                  else r) (t_content (tables d)))
                 = map c_id (t_content (tables d)))
    by (apply map_id_assigned; reflexivity).
  repeat split; auto.
  - rewrite Hids. exact Hid.
  - apply assigned_slugs with (s := text (p_slug p)); auto.
  - apply Forall_forall. intros r Hin.
    apply in_map_iff in Hin as (r0 & <- & Hin).
    destruct (c_id r0 =? id); [exact Hvalid|].
    rewrite Forall_forall in Hty. auto.
  - eapply Forall_impl; [|exact Hfk]. intros r Hr. simpl in Hr.
    apply has_content_id_spec. rewrite Hids. apply has_content_id_spec, Hr.
Qed.

Lemma add_tag_rows_consistent content values :
  forall rows next rows' next',
    add_tag_rows content values rows next = inr (rows', next') ->
    NoDup (map ct_id rows) ->
    NoDup (map tag_pair rows) ->
    Forall (fun r => has_content_id (ct_content_id r) content = true) rows ->
    NoDup (map ct_id rows')
    /\ NoDup (map tag_pair rows')
    /\ Forall (fun r => has_content_id (ct_content_id r) content = true) rows'.
Proof.
  induction values as [|[cid tag] values IH]; intros rows next rows' next';
    cbn [add_tag_rows].
  - intros [= <- <-]. auto.
  - destruct (longer_than 255 (Some tag)); [discriminate|].
    destruct (existsb _ rows) eqn:Hnext; [discriminate|].
    destruct (has_tag cid tag rows) eqn:Hdup; [discriminate|].
    destruct (has_content_id cid content) eqn:Hfk; [|discriminate]. cbn [negb].
    intros H Hid Hp Hf. apply IH in H; auto.
    + rewrite map_app. simpl. apply NoDup_snoc; auto.
      refine (not_true_notin _ _ _ Hnext).
      apply (existsb_eqb_In ct_id Z.eqb). intros a b. apply Z.eqb_eq.
    + rewrite map_app. simpl. apply NoDup_snoc; auto.
      apply (not_true_notin _ _ (has_tag_spec _ _ _)), Hdup.
    + apply Forall_app. split; auto.
Qed.

Lemma insert_content_tags_consistent values d d' :
  insert_content_tags values d = inr (tt, d') ->
  consistent (tables d) -> consistent (tables d').
Proof.
  unfold insert_content_tags.
  destruct (add_tag_rows _ _ _ _) as [e|[rows next]] eqn:E; [discriminate|].
  intros [= <-] (Hid & Hslug & Hty & Htid & Htp & Hfk & Hmid & Hmty).
  apply add_tag_rows_consistent in E as (H1 & H2 & H3); auto.
  unfold consistent. simpl. repeat split; auto.
Qed.

Lemma delete_content_tags_consistent id d d' :
  delete_content_tags id d = inr (tt, d') ->
  consistent (tables d) -> consistent (tables d').
Proof.
  unfold delete_content_tags.
  intros [= <-] (Hid & Hslug & Hty & Htid & Htp & Hfk & Hmid & Hmty).
  unfold consistent. simpl. repeat split; auto.
  - apply NoDup_map_filter, Htid.
  - apply (NoDup_map_filter tag_pair), Htp.
  - apply Forall_filter_keep, Hfk.
Qed.

Lemma delete_content_consistent id d n d' :
  delete_content id d = inr (n, d') ->
  consistent (tables d) -> consistent (tables d').
Proof.
  unfold delete_content.
  intros [= _ <-] (Hid & Hslug & Hty & Htid & Htp & Hfk & Hmid & Hmty).
  unfold consistent. simpl.
  destruct (has_content_id id (t_content (tables d))) eqn:Hex.
  - repeat split; auto.
    + apply NoDup_map_filter, Hid.
    + apply NoDup_map_filter, Hslug.
    + apply Forall_filter_keep, Hty.
    + apply NoDup_map_filter, Htid.
    + apply (NoDup_map_filter tag_pair), Htp.
    + apply Forall_forall. intros r Hin.
      apply filter_In in Hin as [Hin Hne].
      rewrite Forall_forall in Hfk. specialize (Hfk r Hin). simpl in Hfk.
      unfold has_content_id in *. apply existsb_exists in Hfk as (c & Hc & Hcid).
      apply existsb_exists. exists c. split; [|exact Hcid].
      apply filter_In. split; [exact Hc|].
      apply Z.eqb_eq in Hcid. rewrite Hcid. exact Hne.
  - destruct (filter_none _ _ Hex) as [_ ->]. repeat split; auto.
Qed.

Lemma insert_media_consistent p d id d' :
  insert_media p d = inr (id, d') ->
  consistent (tables d) -> consistent (tables d').
Proof.
  unfold insert_media.
  destruct (media_violation p) eqn:Hok; [discriminate|].
  destruct (existsb _ _) eqn:Hfresh; [discriminate|].
  intros [= _ <-] (Hid & Hslug & Hty & Htid & Htp & Hfk & Hmid & Hmty).
  unfold consistent. simpl. rewrite map_app. simpl. repeat split; auto.
  - apply NoDup_snoc; auto.
    refine (not_true_notin _ _ _ Hfresh).
    apply (existsb_eqb_In m_id Z.eqb). intros a b. apply Z.eqb_eq.
  - apply Forall_app. split; auto. constructor; [|constructor]. simpl.
    unfold media_violation, first_violation in Hok. simpl in Hok.
    destruct (is_null (mp_type p)); [discriminate|].
    destruct (is_media_type (text (mp_type p))); [reflexivity | discriminate].
Qed.

Lemma delete_media_consistent id d n d' :
  delete_media id d = inr (n, d') ->
  consistent (tables d) -> consistent (tables d').
Proof.
  unfold delete_media.
  intros [= _ <-] (Hid & Hslug & Hty & Htid & Htp & Hfk & Hmid & Hmty).
  unfold consistent. simpl. repeat split; auto.
  - apply NoDup_map_filter, Hmid.
  - apply Forall_filter_keep, Hmty.
Qed.

(** *** The handlers keep the constraints *)

(** The tables are consistent, and so are those a rollback would put
    back. *)
Definition sound (st : Server) : Prop :=
  consistent (tables (db st))
  /\ forall t, snapshot st = Some t -> consistent t.

Definition stays_sound (st st' : Server) : Prop := sound st -> sound st'.

Lemma stays_sound_refl st : stays_sound st st.
Proof. intros H. exact H. Qed.

Lemma stays_sound_trans a b c :
  stays_sound a b -> stays_sound b c -> stays_sound a c.
Proof. unfold stays_sound. auto. Qed.

(** A statement that keeps the constraints. *)
Definition lawful {A} (statement : Database -> Result (A * Database)) : Prop :=
  forall d a d',
    statement d = inr (a, d') -> consistent (tables d) -> consistent (tables d').

Lemma round_trip_sound : keeps stays_sound round_trip.
Proof.
  intros st r st' H [Hc Hs]. apply round_trip_inv in H as (Hd & Hsn & _).
  split; [rewrite Hd; exact Hc | rewrite Hsn; exact Hs].
Qed.

Lemma query_sound {A} (statement : Database -> Result (A * Database)) :
  lawful statement -> keeps stays_sound (query statement).
Proof.
  intros Hl st r st' H [Hc Hs]. apply query_inv in H as (Hsn & _ & H).
  split; [|rewrite Hsn; exact Hs].
  destruct r as [e|a]; [rewrite H; exact Hc|]. eapply Hl; eauto.
Qed.

Lemma select_sound {A} (rows : Database -> A) : keeps stays_sound (select rows).
Proof.
  apply query_sound. intros d a d' [= _ <-]. auto.
Qed.

Lemma getConnection_sound : keeps stays_sound getConnection.
Proof.
  intros st r st' H [Hc Hs]. apply getConnection_lease in H as (Hd & H).
  split; [rewrite Hd; exact Hc|].
  destruct r as [e|u]; destruct H as [_ Hsn]; rewrite Hsn; auto. discriminate.
Qed.

Lemma beginTransaction_sound : keeps stays_sound beginTransaction.
Proof.
  intros st r st' H [Hc Hs]. apply beginTransaction_inv in H as (Hd & H).
  split; [rewrite Hd; exact Hc|].
  destruct r as [e|u]; rewrite H; auto. intros t [= <-]. exact Hc.
Qed.

Lemma commit_sound : keeps stays_sound commit.
Proof.
  intros st r st' H [Hc Hs]. apply commit_inv in H as (Hd & H).
  split; [rewrite Hd; exact Hc|].
  destruct r as [e|u]; rewrite H; auto. discriminate.
Qed.

Lemma rollback_sound : keeps stays_sound rollback.
Proof.
  intros st r st' H [Hc Hs]. apply rollback_inv in H as (Ht & Hsn & _).
  split.
  - rewrite Ht. unfold rolled_back. destruct (snapshot st) as [t|]; auto.
  - rewrite Hsn. discriminate.
Qed.

Lemma release_sound : keeps stays_sound release.
Proof. intros st r st' [= <- <-] H. exact H. Qed.

Lemma first_row_sound rows : keeps stays_sound (ContentRoutes.first_row rows).
Proof. destruct rows; intros st r st' [= <- <-] H; exact H. Qed.

Lemma insert_tags_sound id tags :
  keeps stays_sound (ContentRoutes.insert_tags_if_provided id tags).
Proof.
  unfold ContentRoutes.insert_tags_if_provided. destruct tags as [[|t ts]|];
    try apply (keeps_ret stays_sound stays_sound_refl).
  apply query_sound. intros d [] d'. apply insert_content_tags_consistent.
Qed.

Ltac sound_rules :=
  repeat first
    [ apply (keeps_ret stays_sound stays_sound_refl)
    | apply (keeps_throw stays_sound stays_sound_refl)
    | apply select_sound | apply getConnection_sound
    | apply beginTransaction_sound | apply commit_sound
    | apply rollback_sound | apply release_sound | apply first_row_sound
    | apply insert_tags_sound
    | apply query_sound;
      first [ intros ? ? ?; apply insert_content_consistent
            | intros ? ? ?; apply update_content_consistent
            | intros ? [] ?; apply delete_content_tags_consistent
            | intros ? ? ?; apply delete_content_consistent
            | intros ? ? ?; apply insert_media_consistent
            | intros ? ? ?; apply delete_media_consistent ]
    | apply (keeps_mapM stays_sound stays_sound_refl stays_sound_trans); intros ?
    | apply (keeps_try_catch stays_sound stays_sound_trans); [|intros ?]
    | apply (keeps_bind stays_sound stays_sound_trans); [|intros ?]
    | match goal with
      | |- keeps _ (match ?x with _ => _ end) => destruct x
      | |- keeps _ (if ?x then _ else _) => destruct x
      end ].

Lemma final_handler_sound r req st out st' :
  final_handler r req st = (out, st') -> stays_sound st st'.
Proof.
  destruct r; simpl; intros H;
    eapply (keeps_respond stays_sound) in H; eauto;
    unfold ContentRoutes.get_all_body, ContentRoutes.get_by_id_body,
      ContentRoutes.post_body, ContentRoutes.post_writes,
      ContentRoutes.post_read_back, ContentRoutes.put_body,
      ContentRoutes.put_writes, ContentRoutes.put_read_back,
      ContentRoutes.delete_body, MediaRoutes.get_all_body,
      MediaRoutes.get_by_id_body, MediaRoutes.post_body,
      MediaRoutes.delete_body;
    sound_rules.
Qed.

(** The transaction state is as before. *)
Definition same_txn (st st' : Server) : Prop := snapshot st' = snapshot st.

Lemma same_txn_refl st : same_txn st st.
Proof. reflexivity. Qed.

Lemma same_txn_trans a b c : same_txn a b -> same_txn b c -> same_txn a c.
Proof. unfold same_txn. congruence. Qed.

Lemma query_same_txn {A} (statement : Database -> Result (A * Database)) :
  keeps same_txn (query statement).
Proof. intros st r st' H. apply query_inv in H as (H & _). exact H. Qed.

(** No transaction is open after a handler if none was open before. *)
Lemma final_handler_closes r req st out st' :
  final_handler r req st = (out, st') ->
  snapshot st = None -> snapshot st' = None.
Proof.
  intros H Hs.
  destruct (AccessFacts.final_handler_sends r req st) as (res & s & E).
  rewrite E in H. injection H as <- <-.
  destruct r; simpl in E;
    try (apply post_outcome in E as (_ & E & _); auto; fail);
    try (apply put_outcome in E as (_ & E & _); auto; fail);
    (eapply (keeps_respond same_txn) in E;
     [unfold same_txn in E; rewrite E; exact Hs | ]);
    unfold ContentRoutes.get_all_body, ContentRoutes.get_by_id_body,
      ContentRoutes.delete_body, MediaRoutes.get_all_body,
      MediaRoutes.get_by_id_body, MediaRoutes.post_body,
      MediaRoutes.delete_body, select;
    repeat first
      [ apply (keeps_ret same_txn same_txn_refl)
      | apply query_same_txn
      | apply (keeps_mapM same_txn same_txn_refl same_txn_trans); intros ?
      | apply (keeps_bind same_txn same_txn_trans); [|intros ?]
      | match goal with
        | |- keeps _ (match ?x with _ => _ end) => destruct x
        | |- keeps _ (if ?x then _ else _) => destruct x
        end ].
Qed.

Section WithJwt.
Context {JWT : Jsonwebtoken}.
Variable env_JWT_SECRET : option string.

(** A route either leaves the state alone or runs its handler. *)
Lemma handle_cases r req st res st' :
  handle env_JWT_SECRET r req st = (res, st') ->
  st' = st \/ exists req', final_handler r req' st = (Sent res, st').
Proof.
  unfold handle. destruct (mutating r) eqn:Hm.
  - rewrite (AccessFacts.stack_of_writing env_JWT_SECRET r Hm). simpl.
    unfold authenticate.
    destruct (truthy_string (x_auth_token req)); simpl;
      [|intros [= _ <-]; auto].
    destruct (verify _ _) as [u|]; [|intros [= _ <-]; auto].
    unfold isAdmin. simpl.
    destruct (String.eqb (role u) "admin"); simpl; [|intros [= _ <-]; auto].
    destruct (AccessFacts.final_handler_sends r (set_user req u) st)
      as (res0 & s & E).
    rewrite E. intros [= <- <-]. eauto.
  - rewrite (AccessFacts.stack_of_reading env_JWT_SECRET r Hm). simpl.
    destruct (AccessFacts.final_handler_sends r req st) as (res0 & s & E).
    rewrite E. intros [= <- <-]. eauto.
Qed.

(** X11. Every route, on every request and under every fault, takes a
    server whose tables satisfy the schema's constraints (unique ids,
    unique slugs, unique tags per content, tags only of content that
    exists, ENUM values) and that has no transaction open to such a
    server again. *)
Theorem routes_keep_schema_constraints (r : Route) req st res st' :
  handle env_JWT_SECRET r req st = (res, st') ->
  at_rest st -> at_rest st'.
Proof.
  intros H [Hc Hs]. apply handle_cases in H as [-> | (req' & H)];
    [split; auto|].
  split.
  - pose proof (final_handler_sound _ _ _ _ _ H) as Hk.
    assert (sound st) as Hsound by (split; [exact Hc | rewrite Hs; discriminate]).
    exact (proj1 (Hk Hsound)).
  - eapply final_handler_closes; eauto.
Qed.

End WithJwt.

Lemma seed_tables_consistent : consistent seed_tables.
Proof.
  unfold consistent. simpl.
  repeat split;
    repeat first
      [ apply NoDup_nil | apply Forall_nil
      | apply NoDup_cons; [simpl; intuition (try discriminate; try congruence)|]
      | apply Forall_cons; [reflexivity|] ].
Qed.

Lemma routes_keep_schema_constraints_witness :
  at_rest (snd (handle None PUT_content_id update_request (idle []))).
Proof.
  apply (routes_keep_schema_constraints None PUT_content_id update_request
           (idle []) (fst (handle None PUT_content_id update_request (idle [])))).
  - reflexivity.
  - split; [exact seed_tables_consistent | reflexivity].
Defined.

End InvariantFacts.

(** ** Requests the store rejects *)

Module RejectionFacts.
Import Storage Pool Express Samples Spec Laws PoolFacts StorageFacts MonadFacts.
Import ContentRoutes CreateFacts UpdateFacts OutcomeFacts InvariantFacts.
Local Open Scope request_scope.

(** The tags of a body, none when the property is absent. *)
Definition submitted_tags (b : Body) : list string :=
  match b_tags b with
  | Some tags => tags
  | None => []
  end.

(** A bulk INSERT that goes through had no value twice and none that
    was stored already. *)
Lemma add_tag_rows_distinct content values :
  forall rows next rows' next',
    add_tag_rows content values rows next = inr (rows', next') ->
    NoDup values /\ forall v, In v values -> ~ In v (map tag_pair rows).
Proof.
  induction values as [|[cid tag] values IH]; intros rows next rows' next';
    cbn [add_tag_rows].
  - intros _. split; [constructor | intros v []].
  - destruct (longer_than 255 (Some tag)); [discriminate|].
    destruct (existsb _ rows); [discriminate|].
    destruct (has_tag cid tag rows) eqn:Hdup; [discriminate|].
    destruct (has_content_id cid content); [|discriminate]. cbn [negb].
    intros H. apply IH in H as [Hnd Hnew].
    assert (Hfirst : ~ In (cid, tag) (map tag_pair rows))
      by (apply (not_true_notin _ _ (has_tag_spec _ _ _)), Hdup).
    split.
    + constructor; [|exact Hnd]. intros Hin. apply (Hnew _ Hin).
      rewrite map_app. apply in_or_app. right. left. reflexivity.
    + intros v [<- | Hin]; [exact Hfirst|].
      intros Hrows. apply (Hnew _ Hin). rewrite map_app.
      apply in_or_app. left. exact Hrows.
Qed.

Lemma NoDup_map_pair (id : Z) (tags : list string) :
  NoDup (map (fun t => (id, t)) tags) -> NoDup tags.
Proof. apply NoDup_map_inv. Qed.

(** What the statements of a committed creation have checked. *)
Lemma post_writes_accepts req st id st' :
  post_writes req st = (inr id, st') ->
  content_violation (content_params (body req)) = None
  /\ has_slug (text (b_slug (body req))) (t_content (tables (db st))) = false
  /\ NoDup (submitted_tags (body req)).
Proof.
  unfold post_writes, bind.
  destruct (beginTransaction st) as [[e1|[]] s1] eqn:E1; [discriminate|].
  apply beginTransaction_inv in E1 as [Hd1 _].
  destruct (query _ s1) as [[e2|id2] s2] eqn:E2; [discriminate|].
  apply query_inv in E2 as (_ & _ & H2). rewrite Hd1 in H2.
  apply insert_content_inv in H2 as (Hok & _ & _ & Hfree & _).
  destruct (insert_tags_if_provided id2 _ s2) as [[e3|[]] s3] eqn:E3;
    [discriminate|].
  intros _. split; [exact Hok|]. split; [exact Hfree|].
  unfold submitted_tags. unfold insert_tags_if_provided in E3.
  destruct (b_tags (body req)) as [[|t ts]|]; [constructor| |constructor].
  apply query_inv in E3 as (_ & _ & H3). unfold insert_content_tags in H3.
  destruct (add_tag_rows _ _ _ _) as [e|[rows next]] eqn:A; [discriminate|].
  apply add_tag_rows_distinct in A as [A _].
  apply NoDup_map_pair in A. exact A.
Qed.

(** A POST that changes the tables has committed its statements. *)
Lemma post_commits_or_keeps req st res st' :
  post req st = (Sent res, st') ->
  (res = server_error /\ tables (db st') = tables (db st))
  \/ exists s1 id s2,
      db s1 = db st /\ post_writes req s1 = (inr id, s2).
Proof.
  unfold post, respond, post_body. unfold bind at 1.
  destruct (getConnection st) as [[e0|[]] s1] eqn:Hg;
    apply getConnection_lease in Hg as (Hd1 & _ & Hs1).
  { intros [= <- <-]. left. rewrite Hd1. auto. }
  unfold try_catch. unfold bind at 1.
  destruct (post_writes req s1) as [[e1|id] s2] eqn:Hw; [|eauto 6].
  pose proof (post_writes_inv req s1 _ _ Hs1 Hw) as Hr. simpl in Hr.
  destruct (rollback_release_throw (A := Response) e1 s2) as (x & E & Ht & _).
  rewrite E. intros [= <- <-]. left. split; auto. congruence.
Qed.

(** X12. A creation whose values fail a column check (a required field
    missing, an unknown type, a value too long), whose slug a stored row
    already has, or whose tag list names a tag twice is answered 500
    under every fault schedule, and no row of it is stored: the content
    row does not stay without its tags. *)
Theorem rejected_creation_stores_nothing req st res st' :
  post req st = (Sent res, st') ->
  content_violation (content_params (body req)) <> None
  \/ has_slug (text (b_slug (body req))) (t_content (tables (db st))) = true
  \/ ~ NoDup (submitted_tags (body req)) ->
  res = server_error /\ tables (db st') = tables (db st).
Proof.
  intros H Hrej.
  apply post_commits_or_keeps in H as [H | (s1 & id & s2 & Hd & Hw)]; [exact H|].
  apply post_writes_accepts in Hw as (Hok & Hfree & Hnd). rewrite Hd in Hfree.
  destruct Hrej as [Hrej | [Hrej | Hrej]]; [contradiction | congruence | contradiction].
Qed.

Lemma rejected_creation_stores_nothing_witness :
  fst (post create_request_twice (idle [])) = Sent server_error
  /\ tables (db (snd (post create_request_twice (idle [])))) = seed_tables.
Proof.
  assert (H : forall res, Sent res = fst (post create_request_twice (idle [])) ->
                          Sent res = Sent server_error
                          /\ tables (db (snd (post create_request_twice (idle []))))
                             = seed_tables).
  { intros res E.
    destruct (rejected_creation_stores_nothing create_request_twice (idle [])
                res (snd (post create_request_twice (idle [])))) as [-> Ht].
    - rewrite E. reflexivity.
    - right. right. intros Hnd. inversion Hnd as [|x l Hx _]. apply Hx. left.
      reflexivity.
    - auto. }
  apply (H server_error). reflexivity.
Defined.

(** X13. On a server at rest, a PUT to an id that no content row has is
    answered 500 under every fault schedule and leaves all tables as
    they were. *)
Theorem update_of_missing_id_stores_nothing req st res st' :
  at_rest st ->
  has_content_id (params_id req) (t_content (tables (db st))) = false ->
  put req st = (Sent res, st') ->
  res = server_error /\ tables (db st') = tables (db st).
Proof.
  intros [Hc Hs] Hid H.
  pose proof (final_handler_sound App.PUT_content_id req st _ _ H) as Hk.
  assert (sound st) as Hsound by (split; [exact Hc | rewrite Hs; discriminate]).
  destruct (Hk Hsound) as [Hc' _].
  apply put_outcome in H as (_ & _ & [H | (Hrep & Hres)]); [exact H|].
  destruct Hrep as (Hrows & (added & Htags & Hvals) & Hmedia).
  assert (Hsame : t_content (tables (db st')) = t_content (tables (db st))).
  { rewrite Hrows. apply (map_unmatched (fun r => c_id r =? params_id req)), Hid. }
  split.
  - destruct Hres as [-> | (r & _ & Hhd & _)]; [reflexivity|].
    unfold select_content_by_id in Hhd. rewrite Hsame in Hhd.
    destruct (DeleteFacts.filter_none _ _ Hid) as [Hnone _].
    unfold has_content_id in Hid. rewrite Hnone in Hhd. discriminate.
  - destruct Hc as (_ & _ & _ & _ & _ & Hfk & _).
    destruct Hc' as (_ & _ & _ & _ & _ & Hfk' & _).
    assert (Hkeep : filter (fun r => negb (ct_content_id r =? params_id req))
                      (t_content_tags (tables (db st)))
                    = t_content_tags (tables (db st))).
    { apply DeleteFacts.filter_none.
      destruct (existsb _ _) eqn:Hex; auto.
      apply existsb_exists in Hex as (t & Hin & Heq). apply Z.eqb_eq in Heq.
      rewrite Forall_forall in Hfk. specialize (Hfk t Hin). simpl in Hfk.
      congruence. }
    assert (added = []) as ->.
    { destruct added as [|t added]; auto. exfalso.
      rewrite Forall_forall in Hfk'.
      assert (In t (t_content_tags (tables (db st')))) as Hin
        by (rewrite Htags; apply in_or_app; right; left; reflexivity).
      specialize (Hfk' t Hin). simpl in Hfk'. rewrite Hsame in Hfk'.
      assert (ct_content_id t = params_id req) as Ht.
      { destruct (b_tags (body req)) as [[|x xs]|]; simpl in Hvals;
          try discriminate.
        injection Hvals as Hv _. unfold tag_pair in Hv. congruence. }
      congruence. }
    rewrite app_nil_r, Hkeep in Htags.
    destruct (tables (db st')) as [c' t' m'], (tables (db st)) as [c t m].
    simpl in *. congruence.
Qed.

Lemma update_of_missing_id_stores_nothing_witness :
  fst (put update_missing_request (idle [])) = Sent server_error
  /\ tables (db (snd (put update_missing_request (idle [])))) = seed_tables.
Proof.
  destruct (update_of_missing_id_stores_nothing update_missing_request (idle [])
              server_error (snd (put update_missing_request (idle []))))
    as [_ Ht].
  - split; [exact seed_tables_consistent | reflexivity].
  - reflexivity.
  - reflexivity.
  - split; [reflexivity | exact Ht].
Defined.

End RejectionFacts.

(** ** The media routes *)

Module MediaFacts.
Import Storage Pool Express Samples Spec Laws PoolFacts StorageFacts MonadFacts.
Import DeleteFacts DeleteExistingFacts InvariantFacts.
Local Open Scope request_scope.

Definition has_media_id (id : Z) (rows : list MediaRow) : bool :=
  existsb (fun r => m_id r =? id) rows.

(** The row holds the body's values in all seven writable columns. *)
Definition holds_media_body (m : MediaRow) (b : Body) : Prop :=
  b_type b = Some (m_type m)
  /\ b_title b = Some (m_title m)
  /\ b_url b = Some (m_url m)
  /\ m_thumbnail_url m = b_thumbnail_url b
  /\ m_file_size m = b_file_size b
  /\ m_dimensions m = b_dimensions b
  /\ b_uploaded_by b = Some (m_uploaded_by m).

(** Ordered by [created_at], latest first. *)
Definition newest_media_first (rows : list MediaRow) : Prop :=
  StronglySorted (fun a b => m_created_at b <= m_created_at a) rows.

Lemma insert_media_inv p d id d' :
  insert_media p d = inr (id, d') ->
  media_violation p = None
  /\ has_media_id id (t_media (tables d)) = false
  /\ exists m,
      t_media (tables d') = t_media (tables d) ++ [m]
      /\ m_id m = id
      /\ m_created_at m = current_timestamp d
      /\ mp_type p = Some (m_type m)
      /\ mp_title p = Some (m_title m)
      /\ mp_url p = Some (m_url m)
      /\ m_thumbnail_url m = mp_thumbnail_url p
      /\ m_file_size m = mp_file_size p
      /\ m_dimensions m = mp_dimensions p
      /\ mp_uploaded_by p = Some (m_uploaded_by m)
      /\ t_content (tables d') = t_content (tables d)
      /\ t_content_tags (tables d') = t_content_tags (tables d).
Proof.
  unfold insert_media.
  destruct (media_violation p) eqn:Hok; [discriminate|].
  destruct (existsb _ _) eqn:Hfresh; [discriminate|].
  intros [= <- <-]. split; [reflexivity|]. split; [exact Hfresh|].
  eexists. split; [reflexivity|]. simpl.
  unfold media_violation, first_violation in Hok. simpl in Hok.
  destruct (is_null (mp_type p)) eqn:H1; [discriminate|].
  destruct (is_media_type (text (mp_type p))); [|discriminate]. simpl in Hok.
  destruct (is_null (mp_title p)) eqn:H2; [discriminate|].
  destruct (longer_than 255 (mp_title p)); [discriminate|].
  destruct (is_null (mp_url p)) eqn:H3; [discriminate|].
  destruct (longer_than 255 (mp_url p)); [discriminate|].
  destruct (longer_than 255 (mp_thumbnail_url p)); [discriminate|].
  destruct (longer_than 50 (mp_dimensions p)); [discriminate|].
  destruct (is_null (mp_uploaded_by p)) eqn:H4; [discriminate|].
  repeat split; auto; symmetry; apply not_null_text; assumption.
Qed.

Lemma select_new_media id (m : MediaRow) rows :
  has_media_id id rows = false -> m_id m = id ->
  filter (fun r => m_id r =? id) (rows ++ [m]) = [m].
Proof.
  intros H Hm. rewrite filter_app.
  destruct (filter_none _ _ H) as [-> _]. simpl.
  rewrite Hm, Z.eqb_refl. reflexivity.
Qed.

(** X14. POST /media stores one row or none. If the values fail a
    column check, the answer is 500 and the database is unchanged. A 201
    answer carries the row as it is now stored: the only new row, under
    the generated id, holding the request's values; content and tags are
    untouched. The same row is what GET /media/:id answers afterwards. *)
Theorem media_post_stores_what_it_returns req st res st' :
  MediaRoutes.post req st = (Sent res, st') ->
  (media_violation (MediaRoutes.media_params (body req)) <> None ->
   res = server_error /\ db st' = db st)
  /\ (status res = 201 ->
      exists m,
        json res = Media m
        /\ t_media (tables (db st')) = t_media (tables (db st)) ++ [m]
        /\ has_media_id (m_id m) (t_media (tables (db st))) = false
        /\ holds_media_body m (body req)
        /\ t_content (tables (db st')) = t_content (tables (db st))
        /\ t_content_tags (tables (db st')) = t_content_tags (tables (db st))
        /\ forall req' st2,
            params_id req' = m_id m ->
            db st2 = db st' ->
            quiet st2 ->
            fst (MediaRoutes.get_by_id req' st2)
            = Sent {| status := 200; json := Media m |}).
Proof.
  unfold MediaRoutes.post, respond, MediaRoutes.post_body. unfold bind at 1.
  destruct (query _ st) as [[e|id] s1] eqn:Q;
    apply query_inv in Q as (_ & _ & HQ).
  { intros [= <- <-]. split; [auto | discriminate]. }
  apply insert_media_inv in HQ
    as (Hok & Hfresh & m & Hrows & Hid & _ & H1 & H2 & H3 & H4 & H5 & H6 & H7
        & Hc & Ht).
  unfold bind at 1.
  destruct (select _ s1) as [[e|rows] s2] eqn:S;
    apply select_inv in S as (Hd2 & _ & _ & HS).
  { intros [= <- <-]. split; [contradiction | discriminate]. }
  subst rows. unfold select_media_by_id. rewrite Hrows.
  rewrite (select_new_media _ _ _ Hfresh Hid).
  intros [= <- <-]. split; [contradiction|]. intros _.
  exists m. rewrite Hd2. repeat split; auto; try congruence.
  intros req' st2 Hp Hd Hq.
  unfold MediaRoutes.get_by_id, respond, MediaRoutes.get_by_id_body.
  destruct (select_quiet (select_media_by_id (params_id req')) st2 Hq)
    as (s3 & E & _).
  rewrite (bind_inr _ _ _ _ _ E). unfold select_media_by_id.
  rewrite Hd, Hrows, Hp. rewrite <- Hid in Hfresh.
  rewrite (select_new_media _ _ _ Hfresh eq_refl). reflexivity.
Qed.

Definition image_body : Body :=
  {| b_type := Some "image"; b_title := Some "Logo"; b_content := None;
     b_slug := None; b_author := None; b_featured := None; b_image := None;
     b_category := None; b_tags := None; b_position := None; b_company := None;
     b_url := Some "https://images.example/logo.png";
     b_thumbnail_url := None; b_file_size := Some 2048;
     b_dimensions := Some "64x64"; b_uploaded_by := Some "Admin" |}.

Lemma media_post_stores_what_it_returns_witness :
  exists m,
    json (match fst (MediaRoutes.post (request None 0 None image_body) (idle []))
          with Sent res => res | Next _ => server_error end)
    = Media m
    /\ m_id m = 2
    /\ holds_media_body m image_body.
Proof.
  destruct (MediaRoutes.post (request None 0 None image_body) (idle []))
    as [out st'] eqn:E.
  assert (exists res, out = Sent res /\ status res = 201) as (res & -> & H201).
  { vm_compute in E. injection E as <- _. eexists. split; reflexivity. }
  destruct (media_post_stores_what_it_returns _ _ _ _ E) as [_ H].
  destruct (H H201) as (m & Hj & Hrows & _ & Hb & _).
  exists m. simpl. split; [exact Hj|]. split; [|exact Hb].
  vm_compute in E. injection E as <- <-. simpl in Hj, Hrows.
  injection Hj as <-. reflexivity.
Defined.

Lemma media_sort_newest_first rows : newest_media_first (MediaSort.sort rows).
Proof.
  unfold newest_media_first.
  apply ListFacts.StronglySorted_impl
    with (R := fun a b => is_true (CreatedAtDesc.leb a b)).
  - intros a b H. apply Z.leb_le. exact H.
  - apply MediaSort.StronglySorted_sort.
    intros a b c Hab Hbc.
    unfold CreatedAtDesc.leb, created_at_desc, is_true in *.
    apply Z.leb_le in Hab, Hbc. apply Z.leb_le. lia.
Qed.

(** X15. When no fault cuts the query off, GET /media answers 200 with
    media rows ordered by [created_at], latest first, and leaves the
    database alone. With a non-empty [type] they are exactly the rows
    of that type; with [type] absent or empty they are all rows. *)
Theorem media_list_filters_and_orders req st :
  quiet st ->
  exists items st',
    MediaRoutes.get_all req st
    = (Sent {| status := 200; json := MediaList items |}, st')
    /\ db st' = db st
    /\ newest_media_first items
    /\ (forall ty, query_type req = Some ty -> ty <> "" ->
          Permutation items
            (filter (fun r => String.eqb (m_type r) ty) (t_media (tables (db st)))))
    /\ (query_type req = None \/ query_type req = Some "" ->
          Permutation items (t_media (tables (db st)))).
Proof.
  intros Hq. unfold MediaRoutes.get_all, respond, MediaRoutes.get_all_body.
  set (ty := if truthy_string (query_type req) then query_type req else None).
  destruct (select_quiet (select_media ty) st Hq) as (s1 & E & _ & _ & _ & Hd).
  rewrite (bind_inr _ _ _ _ _ E). unfold ret.
  eexists. exists s1. split; [reflexivity|]. split; [exact Hd|].
  unfold select_media. split; [apply media_sort_newest_first|]. split.
  - intros t Ht Hne. subst ty. rewrite Ht. simpl.
    destruct (String.eqb_spec t ""); [contradiction|]. simpl.
    apply Permutation_sym, MediaSort.Permuted_sort.
  - intros [Ht | Ht]; subst ty; rewrite Ht; simpl;
      apply Permutation_sym, MediaSort.Permuted_sort.
Qed.

Lemma media_list_filters_and_orders_witness :
  exists items st',
    MediaRoutes.get_all (request None 0 (Some "image") empty_body) (idle [false])
    = (Sent {| status := 200; json := MediaList items |}, st')
    /\ db st' = seed_db
    /\ newest_media_first items
    /\ (forall ty, Some "image" = Some ty -> ty <> "" ->
          Permutation items
            (filter (fun r => String.eqb (m_type r) ty) (t_media seed_tables)))
    /\ (Some "image" = None \/ Some "image" = Some "" ->
          Permutation items (t_media seed_tables)).
Proof.
  apply (media_list_filters_and_orders
           (request None 0 (Some "image") empty_body) (idle [false])).
  reflexivity.
Defined.

Lemma media_delete_unfaulted req st :
  hd false (faults st) = false ->
  exists st',
    db st'
    = with_tables (db st)
        (with_media (tables (db st))
           (filter (fun r => negb (m_id r =? params_id req))
              (t_media (tables (db st)))))
    /\ MediaRoutes.delete req st
       = (Sent (if has_media_id (params_id req) (t_media (tables (db st)))
                then media_deleted else media_not_found), st').
Proof.
  intros Hf. destruct (round_trip_unfaulted st Hf) as (s1 & E & Hd).
  exists (set_db s1
            (with_tables (db st)
               (with_media (tables (db st))
                  (filter (fun r => negb (m_id r =? params_id req))
                     (t_media (tables (db st))))))).
  split; [reflexivity|].
  unfold MediaRoutes.delete, respond, MediaRoutes.delete_body, query.
  unfold bind at 1. unfold bind at 1. rewrite E, Hd. unfold delete_media.
  cbn [ret].
  unfold has_media_id.
  destruct (existsb (fun r => m_id r =? params_id req)
              (t_media (tables (db st)))) eqn:Hex.
  - rewrite (filter_matching_nonempty _ _ Hex). reflexivity.
  - destruct (filter_none _ _ Hex) as [-> _]. reflexivity.
Qed.

(** X16. When the round trip is not cut off, deleting a media id that
    exists answers 200 "Media deleted" and removes the rows of that id
    and nothing else; a GET of the id then answers 404 "Media not
    found", and so does a second DELETE. *)
Theorem media_delete_removes_only_that_row req st :
  hd false (faults st) = false ->
  has_media_id (params_id req) (t_media (tables (db st))) = true ->
  exists st',
    MediaRoutes.delete req st = (Sent media_deleted, st')
    /\ t_media (tables (db st'))
       = filter (fun r => negb (m_id r =? params_id req)) (t_media (tables (db st)))
    /\ t_content (tables (db st')) = t_content (tables (db st))
    /\ t_content_tags (tables (db st')) = t_content_tags (tables (db st))
    /\ forall st2,
        db st2 = db st' ->
        hd false (faults st2) = false ->
        fst (MediaRoutes.get_by_id req st2) = Sent media_not_found
        /\ fst (MediaRoutes.delete req st2) = Sent media_not_found.
Proof.
  intros Hf Hex. destruct (media_delete_unfaulted req st Hf) as (st' & Hd & E).
  rewrite Hex in E. exists st'. split; [exact E|].
  rewrite Hd. simpl. repeat split.
  - destruct (round_trip_unfaulted st2 H0) as (s & Er & Hds).
    unfold MediaRoutes.get_by_id, respond, MediaRoutes.get_by_id_body, select,
      query.
    unfold bind at 1. unfold bind at 1. rewrite Er, Hds, H.
    unfold select_media_by_id. cbn [tables with_tables t_media with_media].
    rewrite (filter_filter_negb (fun r => m_id r =? params_id req)).
    reflexivity.
  - destruct (media_delete_unfaulted req st2 H0) as (s & _ & E2).
    rewrite E2. simpl. rewrite H. simpl. unfold has_media_id.
    rewrite (existsb_filter_negb (fun r => m_id r =? params_id req)).
    reflexivity.
Qed.

Lemma media_delete_removes_only_that_row_witness :
  exists st',
    MediaRoutes.delete (request None 1 None empty_body) (idle [])
    = (Sent media_deleted, st')
    /\ t_media (tables (db st'))
       = filter (fun r => negb (m_id r =? 1)) (t_media seed_tables)
    /\ t_content (tables (db st')) = t_content seed_tables
    /\ t_content_tags (tables (db st')) = t_content_tags seed_tables
    /\ forall st2,
        db st2 = db st' ->
        hd false (faults st2) = false ->
        fst (MediaRoutes.get_by_id (request None 1 None empty_body) st2)
        = Sent media_not_found
        /\ fst (MediaRoutes.delete (request None 1 None empty_body) st2)
           = Sent media_not_found.
Proof.
  apply (media_delete_removes_only_that_row
           (request None 1 None empty_body) (idle []));
    reflexivity.
Defined.

End MediaFacts.

(** ** [generateSlug]: alphabet and fixed points *)

Module SlugShapeFacts.
Import JsString ContentManager Spec JsStringFacts SlugFacts.

Section WithCaseMapping.
Context {CM : CaseMapping}.

Lemma replace_runs_head p r c s :
  p c = true -> replace_runs p r false (c :: s) = r :: replace_runs p r true s.
Proof. intros H. simpl. rewrite H. reflexivity. Qed.

(** X17. Every code unit of a slug is a lower-case ASCII letter, a
    digit, [_] or [-]. The strings [generateSlug] leaves as they are are
    exactly those made of such units with no two hyphens in a row. The
    final [trim] removes nothing: a title whose lower-cased form begins
    with white space gets a slug that begins with a hyphen. *)
Theorem generateSlug_alphabet_and_fixed_points (title : jsstring) :
  forallb slug_unit (generateSlug title) = true
  /\ (generateSlug title = title
      <-> forallb slug_unit title = true /\ no_adjacent is_hyphen title = true)
  /\ (forall c rest,
         toLowerCase title = c :: rest -> is_space c = true ->
         exists rest', generateSlug title = HYPHEN :: rest').
Proof.
  rewrite !generateSlug_hyphenated. split; [apply hyphenated_units|]. split.
  - split.
    + intros E. rewrite <- E. split; [apply hyphenated_units|].
      apply replace_runs_no_adjacent.
    + intros [Hu Ha]. apply hyphenated_fixed; assumption.
  - intros c rest E Hc. unfold hyphenated. rewrite E.
    unfold remove_outside. cbn [filter].
    assert (Hk : kept c = true)
      by (unfold kept; rewrite Hc, orb_true_r; reflexivity).
    rewrite Hk. rewrite (replace_runs_head is_space HYPHEN c _ Hc).
    rewrite (replace_runs_head is_hyphen HYPHEN HYPHEN _ eq_refl).
    eexists. reflexivity.
Qed.

End WithCaseMapping.

End SlugShapeFacts.

(** ** The client's record formats *)

Module ClientFormatFacts.
Import Js Storage ContentManager ContentClient Express.

Lemma json_of_text_falsy v :
  truthy (Wire.json_of_text v) = false <-> v = None \/ v = Some "".
Proof.
  destruct v as [s|]; simpl.
  - destruct (String.eqb_spec s ""); simpl; split; intros H; auto;
      try discriminate.
    + subst. auto.
    + destruct H as [H|H]; [discriminate|]. injection H as ->. contradiction.
  - split; auto.
Qed.

Lemma js_or_undefined v :
  js_or v JUndefined = JUndefined <-> truthy v = false.
Proof.
  unfold js_or. destruct (truthy v) eqn:E; split; intros H; auto;
    try discriminate.
  subst v. discriminate.
Qed.

(** X18. Of a row that a media route sends, [formatMediaFromApi] makes
    an item whose id is the decimal string of the row's id; the
    thumbnail and the dimensions are [undefined] exactly when the column
    is NULL or empty, and the file size exactly when it is NULL or 0;
    [formatMediaForApi] of that item gives the row's type, title, url
    and uploader back. *)
Theorem formatMediaFromApi_of_sent_row (date_string : Z -> string) (m : MediaRow) :
  exists item,
    formatMediaFromApi (json_of_media date_string m) = Some item
    /\ item_id item = JStr (string_of_Z (m_id m))
    /\ (thumbnailUrl item = JUndefined
        <-> m_thumbnail_url m = None \/ m_thumbnail_url m = Some "")
    /\ (forall s, m_thumbnail_url m = Some s -> s <> "" -> thumbnailUrl item = JStr s)
    /\ (item_dimensions item = JUndefined
        <-> m_dimensions m = None \/ m_dimensions m = Some "")
    /\ (fileSize item = JUndefined
        <-> m_file_size m = None \/ m_file_size m = Some 0)
    /\ (forall n, m_file_size m = Some n -> n <> 0 -> fileSize item = JNum n)
    /\ body_type (formatMediaForApi item) = JStr (m_type m)
    /\ body_title (formatMediaForApi item) = JStr (m_title m)
    /\ body_url (formatMediaForApi item) = JStr (m_url m)
    /\ body_uploaded_by (formatMediaForApi item) = JStr (m_uploaded_by m).
Proof.
  unfold formatMediaFromApi, json_of_media. cbn [media_id toString].
  eexists. split; [reflexivity|]. cbn -[js_or truthy].
  repeat split; try reflexivity.
  - intros H. apply json_of_text_falsy, js_or_undefined, H.
  - intros H. apply js_or_undefined, json_of_text_falsy, H.
  - intros s -> Hs. unfold js_or. simpl.
    destruct (String.eqb_spec s ""); [contradiction|]. reflexivity.
  - intros H. apply json_of_text_falsy, js_or_undefined, H.
  - intros H. apply js_or_undefined, json_of_text_falsy, H.
  - intros H. apply js_or_undefined in H. destruct (m_file_size m) as [n|]; auto.
    simpl in H. apply negb_false_iff, Z.eqb_eq in H. subst. auto.
  - intros [-> | ->]; reflexivity.
  - intros n -> Hn. unfold js_or. simpl.
    destruct (Z.eqb_spec n 0); [contradiction|]. reflexivity.
Qed.

(** X19. Of an item that a content route sends, [formatContentFromApi]
    followed by [formatContentForApi] gives a request body that holds
    the row's type, title, content, slug and author, its [featured] as a
    boolean and its tags in the order sent; [image], [category],
    [position] and [company] are [undefined] exactly when the column is
    NULL or empty. *)
Theorem sent_content_formats_to_its_body (date_string : Z -> string) (c : ContentJson) :
  exists item,
    formatContentFromApi (Wire.json_of_content date_string c) = Some item
    /\ ContentManager.id item = JStr (string_of_Z (c_id (row c)))
    /\ body_content_type (formatContentForApi item) = JStr (c_type (row c))
    /\ body_content_title (formatContentForApi item) = JStr (c_title (row c))
    /\ body_content (formatContentForApi item) = JStr (c_content (row c))
    /\ body_slug (formatContentForApi item) = JStr (c_slug (row c))
    /\ body_author (formatContentForApi item) = JStr (c_author (row c))
    /\ body_featured (formatContentForApi item) = JBool (c_featured (row c))
    /\ body_tags (formatContentForApi item) = JArr (map JStr (Express.tags c))
    /\ (body_image (formatContentForApi item) = JUndefined
        <-> c_image (row c) = None \/ c_image (row c) = Some "")
    /\ (body_category (formatContentForApi item) = JUndefined
        <-> c_category (row c) = None \/ c_category (row c) = Some "")
    /\ (body_position (formatContentForApi item) = JUndefined
        <-> c_position (row c) = None \/ c_position (row c) = Some "")
    /\ (body_company (formatContentForApi item) = JUndefined
        <-> c_company (row c) = None \/ c_company (row c) = Some "").
Proof.
  unfold formatContentFromApi, Wire.json_of_content. cbn [api_id toString].
  eexists. split; [reflexivity|]. cbn -[js_or truthy Wire.json_of_text].
  repeat split; try reflexivity;
    try (intros H; apply json_of_text_falsy, js_or_undefined, H);
    try (intros H; apply js_or_undefined, json_of_text_falsy, H).
  destruct (c_featured (row c)); reflexivity.
Qed.

End ClientFormatFacts.

(** ** [ContentEditor]: the slug field and the tag list *)

Module EditorFacts.
Import JsString ContentManager Spec SlugFacts ContentEditor.

Lemma trim_start_starts s : starts_with is_space (trim_start s) = false.
Proof.
  induction s as [|c s IH]; simpl; auto.
  destruct (is_space c) eqn:Hc; auto.
Qed.

Lemma trim_start_snoc c :
  is_space c = false ->
  forall l, trim_start (l ++ [c]) = trim_start l ++ [c].
Proof.
  intros Hc. induction l as [|a l IH]; simpl.
  - rewrite Hc. reflexivity.
  - destruct (is_space a); auto.
Qed.

Lemma trim_starts s : starts_with is_space (trim s) = false.
Proof.
  unfold trim. pose proof (trim_start_starts s) as H.
  destruct (trim_start s) as [|c a]; simpl in *; auto.
  rewrite (trim_start_snoc c H), rev_app_distr. simpl. exact H.
Qed.

Lemma trim_ends s : starts_with is_space (rev (trim s)) = false.
Proof. unfold trim. rewrite rev_involutive. apply trim_start_starts. Qed.

(** A tag as [addTag] stores it: not empty, no white space at either
    end. *)
Definition clean_tag (t : jsstring) : Prop :=
  t <> []
  /\ starts_with is_space t = false
  /\ starts_with is_space (rev t) = false.

Definition tags_clean (st : Editor) : Prop :=
  Forall clean_tag (tags_or_empty (formData st)).

(** The event types into the slug field. *)
Definition slug_typed (e : Event) : bool :=
  match e with
  | Change slug_input _ => true
  | _ => false
  end.

Section WithCaseMapping.
Context {CM : CaseMapping}.

(** The slug the form shows after the titles [values] were typed one
    after the other into a new form: that of the first one whose slug is
    not empty. *)
Fixpoint first_slug (values : list jsstring) : jsstring :=
  match values with
  | [] => []
  | v :: vs =>
      match generateSlug v with
      | [] => first_slug vs
      | c :: s => c :: s
      end
  end.

Lemma set_field_slug name v f :
  slug (set_field name v f)
  = match name with slug_input => Some v | _ => slug f end.
Proof. destruct name; reflexivity. Qed.

Lemma set_field_tags name v f : tags (set_field name v f) = tags f.
Proof. destruct name; reflexivity. Qed.

Lemma handle_id e st : id (handle e st) = id st.
Proof.
  destruct e as [name v| | |key| |]; simpl; auto.
  - destruct name; simpl; auto.
    destruct (negb (truthy_text (id st)) && _); reflexivity.
  - unfold handleTagKeyDown, addTag.
    destruct (String.eqb key "Enter" && _); auto.
    destruct (trim (currentTag st)); reflexivity.
  - unfold addTag. destruct (trim (currentTag st)); reflexivity.
Qed.

Lemma handle_keeps_slug e st :
  truthy_text (id st) = true \/ truthy_text (slug (formData st)) = true ->
  slug_typed e = false ->
  slug (formData (handle e st)) = slug (formData st).
Proof.
  intros Hs He. destruct e as [name v| | |key| |]; simpl; auto.
  - destruct name; simpl in *; auto; try discriminate.
    destruct Hs as [-> | ->]; simpl; rewrite ?andb_false_r; reflexivity.
  - unfold handleTagKeyDown, addTag.
    destruct (String.eqb key "Enter" && _); auto.
    destruct (trim (currentTag st)); reflexivity.
  - unfold addTag. destruct (trim (currentTag st)); reflexivity.
Qed.

Lemma handle_all_cons e events st :
  handle_all (e :: events) st = handle_all events (handle e st).
Proof. reflexivity. Qed.

Lemma slug_frozen events :
  forall st,
    truthy_text (id st) = true \/ truthy_text (slug (formData st)) = true ->
    forallb (fun e => negb (slug_typed e)) events = true ->
    slug (formData (handle_all events st)) = slug (formData st).
Proof.
  induction events as [|e events IH]; intros st Hs He; auto.
  cbn [forallb] in He.
  apply andb_true_iff in He as [He1 He2]. apply negb_true_iff in He1.
  rewrite handle_all_cons, IH; auto.
  - apply handle_keeps_slug; assumption.
  - rewrite handle_id, (handle_keeps_slug e st Hs He1). exact Hs.
Qed.

Lemma titles_not_slug_typed values :
  forallb (fun e => negb (slug_typed e)) (map (Change title_input) values) = true.
Proof. induction values; simpl; auto. Qed.

Lemma typed_title_slug values :
  forall st,
    truthy_text (id st) = false ->
    truthy_text (slug (formData st)) = false ->
    values <> [] ->
    slug (formData (handle_all (map (Change title_input) values) st))
    = Some (first_slug values).
Proof.
  induction values as [|v vs IH]; intros st Hi Hs Hne; [contradiction|].
  cbn [map]. rewrite handle_all_cons.
  assert (H1 : slug (formData (handle (Change title_input v) st))
               = Some (generateSlug v)).
  { simpl. rewrite Hi, Hs. reflexivity. }
  cbn [first_slug]. destruct (generateSlug v) as [|c s] eqn:G.
  - destruct vs as [|v' vs']; [exact H1|].
    apply IH; [rewrite handle_id; exact Hi | rewrite H1; reflexivity
              | discriminate].
  - rewrite slug_frozen; auto.
    + right. rewrite H1. reflexivity.
    + apply titles_not_slug_typed.
Qed.

Lemma last_cons_default {A} (l : list A) :
  forall a d d', last (a :: l) d = last (a :: l) d'.
Proof.
  induction l as [|b l IH]; intros a d d'; [reflexivity|].
  change (last (b :: l) d = last (b :: l) d'). apply IH.
Qed.

Lemma typed_title_title values :
  forall st v,
    title (formData (handle_all (map (Change title_input) (v :: values)) st))
    = Some (last values v).
Proof.
  induction values as [|v' vs IH]; intros st v.
  - simpl. destruct (negb (truthy_text (id st)) && _); reflexivity.
  - change (handle_all (map (Change title_input) (v :: v' :: vs)) st)
      with (handle_all (map (Change title_input) (v' :: vs))
              (handle (Change title_input v) st)).
    rewrite IH. destruct vs as [|j vs]; [reflexivity|].
    f_equal. transitivity (last (j :: vs) v);
      [apply last_cons_default | reflexivity].
Qed.

(** X20. In the form of a new item the slug follows the title only
    until it is not empty: after titles typed one after the other the
    title field holds the last one, the slug that of the first one whose
    slug is not empty. Once the slug is not empty, or when an existing
    item is edited, no event but typing into the slug field changes
    it. *)
Theorem slug_follows_title_until_set (st : Editor) :
  (forall v values,
      truthy_text (id st) = false ->
      truthy_text (slug (formData st)) = false ->
      let st' := handle_all (map (Change title_input) (v :: values)) st in
      title (formData st') = Some (last values v)
      /\ slug (formData st') = Some (first_slug (v :: values)))
  /\ (forall events,
         truthy_text (id st) = true \/ truthy_text (slug (formData st)) = true ->
         forallb (fun e => negb (slug_typed e)) events = true ->
         slug (formData (handle_all events st)) = slug (formData st)).
Proof.
  split.
  - intros v values Hi Hs. split.
    + apply typed_title_title.
    + apply typed_title_slug; auto. discriminate.
  - intros events. apply slug_frozen.
Qed.

Lemma addTag_tags st c t :
  trim (currentTag st) = c :: t ->
  addTag st
  = with_form st
      (set_tags (tags_or_empty (formData st) ++ [c :: t]) (formData st)) [].
Proof. unfold addTag. intros ->. reflexivity. Qed.

Lemma clean_trim s : trim s <> [] -> clean_tag (trim s).
Proof. intros H. repeat split; auto using trim_starts, trim_ends. Qed.

Lemma addTag_clean st : tags_clean st -> tags_clean (addTag st).
Proof.
  intros H. destruct (trim (currentTag st)) as [|c t] eqn:E.
  - unfold addTag. rewrite E. exact H.
  - rewrite (addTag_tags st c t E). unfold tags_clean. simpl.
    apply Forall_app. split; [exact H|]. constructor; [|constructor].
    rewrite <- E. apply clean_trim. rewrite E. discriminate.
Qed.

Lemma handle_clean e st : tags_clean st -> tags_clean (handle e st).
Proof.
  intros H. destruct e as [name v| | |key| |tag]; simpl; auto.
  - unfold tags_clean, tags_or_empty in *.
    destruct name; simpl; auto.
    destruct (negb (truthy_text (id st)) && _); exact H.
  - unfold handleTagKeyDown.
    destruct (String.eqb key "Enter" && _); auto using addTag_clean.
  - apply addTag_clean, H.
  - unfold tags_clean, removeTag. simpl.
    apply Forall_forall. intros x Hx. apply filter_In in Hx as [Hx _].
    unfold tags_clean in H. rewrite Forall_forall in H. auto.
Qed.

(** X21. Whatever the user does to the form, no tag of the list is
    empty or has white space at either end, if that holds to begin
    with, as it does in the form of a new item. *)
Theorem tags_stay_clean (events : list Event) (st : Editor) :
  tags_clean st -> tags_clean (handle_all events st).
Proof.
  revert st. induction events as [|e events IH]; intros st H; auto.
  rewrite handle_all_cons. apply IH, handle_clean, H.
Qed.

Lemma same_text_eq a b : same_text a b = true <-> a = b.
Proof.
  unfold same_text. destruct (list_eq_dec Z.eq_dec a b); split; auto.
  discriminate.
Qed.

Lemma filter_other (t : jsstring) l :
  ~ In t l -> filter (fun x => negb (same_text x t)) l = l.
Proof.
  induction l as [|a l IH]; simpl; auto.
  intros H. destruct (same_text a t) eqn:E; simpl.
  - apply same_text_eq in E. subst. exfalso. auto.
  - rewrite IH; auto.
Qed.

(** X22. [addTag] appends the trimmed text of the tag input, also when
    the list holds it already, and empties the input; [removeTag] of
    that tag then removes every occurrence of it, which gives the list
    back exactly when the tag was new. *)
Theorem addTag_then_removeTag (st : Editor) (t : jsstring) :
  trim (currentTag st) = t ->
  t <> [] ->
  let added := addTag st in
  let removed := removeTag t added in
  tags (formData added) = Some (tags_or_empty (formData st) ++ [t])
  /\ currentTag added = []
  /\ tags (formData removed)
     = Some (filter (fun x => negb (same_text x t)) (tags_or_empty (formData st)))
  /\ (In t (tags_or_empty (formData st)) ->
      ~ NoDup (tags_or_empty (formData added))
      /\ List.length (tags_or_empty (formData removed))
         < List.length (tags_or_empty (formData st)))%nat
  /\ (~ In t (tags_or_empty (formData st)) ->
      tags_or_empty (formData removed) = tags_or_empty (formData st)).
Proof.
  intros E Hne. destruct t as [|c t]; [contradiction|].
  cbv zeta. rewrite (addTag_tags st c t E). unfold removeTag.
  remember (tags_or_empty (formData st)) as old_tags eqn:Eold.
  set (keep := fun x => negb (same_text x (c :: t))).
  change (tags_or_empty (formData (with_form st (set_tags (old_tags ++ [c :: t])
                                                    (formData st)) [])))
    with (old_tags ++ [c :: t]).
  cbn [formData with_form tags set_tags currentTag tags_or_empty].
  assert (F : filter keep (old_tags ++ [c :: t]) = filter keep old_tags).
  { rewrite filter_app. cbn [filter]. unfold keep at 2.
    rewrite (proj2 (same_text_eq (c :: t) (c :: t)) eq_refl).
    apply app_nil_r. }
  rewrite F. repeat split; auto.
  - intros Hn. apply NoDup_remove_2 in Hn. rewrite app_nil_r in Hn. auto.
  - clear F Eold. induction old_tags as [|a l IH]; [contradiction|].
    cbn [filter List.length]. unfold keep at 1.
    destruct (same_text a (c :: t)) eqn:Ea; cbn [negb List.length].
    + pose proof (filter_length_le keep l). lia.
    + destruct H as [H|H].
      * apply same_text_eq in H. congruence.
      * apply IH in H. lia.
  - apply filter_other.
Qed.

End WithCaseMapping.

Lemma tags_stay_clean_witness :
  tags_clean
    (handle_all
       [TagInput (of_string "  news "); TagKeyDown "Enter"; AddTagClick;
        Change title_input (of_string "Open Day"); RemoveTagClick (of_string "news")]
       (initial None (of_string "blog"))).
Proof.
  apply (tags_stay_clean
           [TagInput (of_string "  news "); TagKeyDown "Enter"; AddTagClick;
            Change title_input (of_string "Open Day");
            RemoveTagClick (of_string "news")]
           (initial None (of_string "blog"))).
  constructor.
Defined.

Definition tagging : Editor :=
  setCurrentTag (of_string " news ")
    (removeTag (of_string "none")
       (addTag (setCurrentTag (of_string "news") (initial None (of_string "blog"))))).

Lemma addTag_then_removeTag_witness :
  tags (formData (addTag tagging)) = Some [of_string "news"; of_string "news"]
  /\ currentTag (addTag tagging) = []
  /\ tags (formData (removeTag (of_string "news") (addTag tagging))) = Some [].
Proof.
  pose proof (addTag_then_removeTag tagging (of_string "news") eq_refl
                ltac:(discriminate)) as H.
  cbv zeta in H. destruct H as (H1 & H2 & H3 & _).
  split; [exact H1 | split; [exact H2 | exact H3]].
Defined.

(** Typing a title key by key: the slug is that of the first key. *)
Example slug_of_first_key :
  let st := handle_all
              [Change title_input (of_string "O");
               Change title_input (of_string "Op");
               Change title_input (of_string "Open")]
              (initial None (of_string "page")) in
  title (formData st) = Some (of_string "Open")
  /\ slug (formData st) = Some (of_string "o").
Proof. vm_compute. split; reflexivity. Qed.

End EditorFacts.

(** ** The client's session: [localStorage] and the route guard *)

Module AuthClientFacts.
Import ClientApi AuthClient.

Lemma getItem_removeItem key ls : getItem key (removeItem key ls) = None.
Proof.
  induction ls as [|[k v] ls IH]; simpl; auto.
  destruct (String.eqb k key) eqn:E; simpl; auto.
  rewrite E. exact IH.
Qed.

Lemma getItem_removeItem_other key key' ls :
  key' <> key -> getItem key' (removeItem key ls) = getItem key' ls.
Proof.
  intros Hne. induction ls as [|[k v] ls IH]; simpl; auto.
  destruct (String.eqb_spec k key) as [->|Hk]; simpl.
  - destruct (String.eqb_spec key key'); [congruence|]. exact IH.
  - rewrite IH. reflexivity.
Qed.

Lemma getItem_setItem key value ls : getItem key (setItem key value ls) = Some value.
Proof. unfold setItem. simpl. rewrite String.eqb_refl. reflexivity. Qed.

Lemma getItem_setItem_other key key' value ls :
  key' <> key -> getItem key' (setItem key value ls) = getItem key' ls.
Proof.
  intros Hne. unfold setItem. simpl.
  destruct (String.eqb_spec key key'); [congruence|].
  apply getItem_removeItem_other, Hne.
Qed.

Lemma logout_logout ls : logout (logout ls) = logout ls.
Proof.
  unfold logout, removeItem.
  induction ls as [|[k v] ls IH]; simpl; auto.
  destruct (String.eqb k "token") eqn:E1; simpl; auto.
  destruct (String.eqb k "isAuthenticated") eqn:E2; simpl; auto.
  rewrite E1. simpl. rewrite E2. simpl. rewrite IH. reflexivity.
Qed.

(** X23. A login that the API accepts leaves the flag set and the
    token of the answer in [localStorage], whatever was there; one that
    the API refuses changes nothing and throws the error on. After
    [logout] the flag and the token are gone, and a second [logout]
    changes nothing. Neither touches any other key. *)
Theorem login_and_logout_on_storage (ls : LocalStorage) :
  (forall data,
      fst (login (Resolved data) ls) = inr data
      /\ isAuthenticated (snd (login (Resolved data) ls)) = true
      /\ getItem "token" (snd (login (Resolved data) ls)) = Some (token data))
  /\ login Rejected ls = (inl RequestFailed, ls)
  /\ isAuthenticated (logout ls) = false
  /\ getItem "token" (logout ls) = None
  /\ logout (logout ls) = logout ls
  /\ (forall key reply,
         key <> "token" -> key <> "isAuthenticated" ->
         getItem key (snd (login reply ls)) = getItem key ls
         /\ getItem key (logout ls) = getItem key ls).
Proof.
  split; [|split; [|split; [|split; [|split]]]].
  - intros data. unfold login, isAuthenticated.
    cbn [await_api resolve fst snd].
    split; [reflexivity|]. rewrite getItem_setItem. split; [reflexivity|].
    rewrite getItem_setItem_other by discriminate. apply getItem_setItem.
  - reflexivity.
  - unfold isAuthenticated, logout. rewrite getItem_removeItem. reflexivity.
  - unfold logout. rewrite getItem_removeItem_other by discriminate.
    apply getItem_removeItem.
  - apply logout_logout.
  - intros key reply H1 H2. split.
    + destruct reply as [data|]; [|reflexivity].
      unfold login. cbn [await_api resolve snd].
      rewrite !getItem_setItem_other by assumption. reflexivity.
    + unfold logout. rewrite !getItem_removeItem_other by assumption.
      reflexivity.
Qed.

(** X24. When [checkAuth] is done the spinner is gone, and the guard
    shows its children exactly when the flag is set in [localStorage]
    and the API answers with a user whose role is admin; in every other
    case it redirects to the login page. Without the flag the answer of
    the API makes no difference; so after [logout] the guard redirects,
    and after an accepted login it follows the API's answer alone. *)
Theorem guard_decision (ls : LocalStorage) (reply : Reply (option User)) :
  loading (checkAuth ls reply) = false
  /\ (render (checkAuth ls reply) = Children
      <-> isAuthenticated ls = true
          /\ exists u, reply = Resolved (Some u) /\ role u = "admin")
  /\ (render (checkAuth ls reply) <> Children ->
      render (checkAuth ls reply) = RedirectToLogin)
  /\ (isAuthenticated ls = false ->
      forall reply', checkAuth ls reply' = checkAuth ls reply)
  /\ render (checkAuth (logout ls) reply) = RedirectToLogin
  /\ (forall data,
         render (checkAuth (snd (login (Resolved data) ls)) reply) = Children
         <-> exists u, reply = Resolved (Some u) /\ role u = "admin").
Proof.
  assert (G : forall l,
             isAuthenticated l = true ->
             (render (checkAuth l reply) = Children
              <-> exists u, reply = Resolved (Some u) /\ role u = "admin")).
  { intros l Hl. unfold checkAuth. rewrite Hl. simpl.
    destruct reply as [[u|]|]; simpl.
    - destruct (String.eqb_spec (role u) "admin") as [Hr|Hr]; simpl; split;
        intros H; auto; try discriminate.
      + eauto.
      + destruct H as (u' & [= <-] & Hu). contradiction.
    - split; [discriminate|]. intros (u & H & _). discriminate.
    - split; [discriminate|]. intros (u & H & _). discriminate. }
  split; [|split; [|split; [|split; [|split]]]].
  - unfold checkAuth. destruct (isAuthenticated ls); simpl; auto.
    destruct reply as [[u|]|]; simpl; auto.
    destruct (String.eqb (role u) "admin"); reflexivity.
  - destruct (isAuthenticated ls) eqn:Hl.
    + rewrite (G ls Hl). split; [auto|]. intros [_ H]. exact H.
    + unfold checkAuth. rewrite Hl. simpl. split; [discriminate|].
      intros [H _]. discriminate.
  - unfold checkAuth. destruct (isAuthenticated ls); simpl; auto.
    destruct reply as [[u|]|]; simpl; auto.
    destruct (String.eqb (role u) "admin"); simpl; auto.
    intros H. exfalso. apply H. reflexivity.
  - intros Hl reply'. unfold checkAuth. rewrite Hl. reflexivity.
  - unfold checkAuth, isAuthenticated, logout.
    rewrite getItem_removeItem. reflexivity.
  - intros data. apply G. unfold login, isAuthenticated.
    cbn [await_api resolve snd]. rewrite getItem_setItem. reflexivity.
Qed.

End AuthClientFacts.

(** ** The client's calls to the API *)

Module ContentClientFacts.
Import Js Storage ContentManager ClientApi ContentClient Express.

Lemma map_throwing_all {A B} (f : A -> option B) l :
  (forall a, In a l -> f a <> None) ->
  exists bs, map_throwing f l = inr bs /\ map Some bs = map f l.
Proof.
  induction l as [|a l IH]; intros H; simpl.
  - exists []. auto.
  - destruct (f a) as [b|] eqn:E;
      [|exfalso; apply (H a); [left; reflexivity | exact E]].
    destruct IH as (bs & Ebs & Hbs); [intros x Hx; apply H; right; exact Hx|].
    exists (b :: bs). rewrite Ebs. simpl. rewrite Hbs. auto.
Qed.

Lemma map_throwing_one_bad {A B} (f : A -> option B) l a :
  In a l -> f a = None -> map_throwing f l = inl TypeError.
Proof.
  induction l as [|x l IH]; intros Hin Ha; [contradiction|]. simpl.
  destruct (f x) as [b|] eqn:E; [|reflexivity].
  destruct Hin as [->|Hin]; [congruence|].
  rewrite (IH Hin Ha). reflexivity.
Qed.

Lemma map_throwing_error {A B} (f : A -> option B) l e :
  map_throwing f l = inl e -> e = TypeError /\ exists a, In a l /\ f a = None.
Proof.
  induction l as [|x l IH]; simpl; [discriminate|].
  destruct (f x) as [b|] eqn:E.
  - destruct (map_throwing f l) as [e'|bs]; simpl; [|discriminate].
    intros [= <-]. destruct (IH eq_refl) as (-> & a & Ha & Hf).
    split; [reflexivity|]. exists a. auto.
  - intros [= <-]. split; [reflexivity|]. exists x. auto.
Qed.

Lemma map_Some_length {A} (l : list A) (o : list (option A)) :
  map Some l = o -> List.length l = List.length o.
Proof. intros <-. symmetry. apply length_map. Qed.

Lemma list_read_resolves {A B} (f : A -> option B) (reply : Reply (list A)) :
  exists items,
    catch (and_then (await_api reply) (map_throwing f)) (fun _ => resolve [])
    = inr items
    /\ (items <> [] ->
        exists data, reply = Resolved data /\ map Some items = map f data).
Proof.
  destruct reply as [data|]; simpl.
  - destruct (map_throwing f data) as [e|bs] eqn:E; simpl.
    + exists []. split; [reflexivity|]. intros H. contradiction.
    + exists bs. split; [reflexivity|]. intros _. exists data.
      split; [reflexivity|].
      destruct (map_throwing_all f data) as (bs' & E' & Hbs).
      * intros a Ha Hf. rewrite (map_throwing_one_bad f data a Ha Hf) in E.
        discriminate.
      * congruence.
  - exists []. split; [reflexivity|]. intros H. contradiction.
Qed.

(** X25. The reading calls of the client never reject. Of the records
    a content route sends, [getAllContent] gives one item per record, in
    the order sent, each under the decimal string of the row's id; a
    refused request, or a single record whose id has no [toString],
    gives the empty list. [deleteContent] tells by its result whether
    the request was accepted. The fall-back of [getContentStats] is
    never taken: its result is always the four lengths. *)
Theorem client_reads_never_reject :
  (forall reply, exists items, getAllContent reply = inr items)
  /\ (forall date_string sent,
         exists items,
           getAllContent (Resolved (map (Wire.json_of_content date_string) sent))
           = inr items
           /\ map ContentManager.id items
              = map (fun c => JStr (string_of_Z (c_id (row c)))) sent)
  /\ (forall data a,
         In a data -> toString (api_id a) = None ->
         getAllContent (Resolved data) = inr [])
  /\ getAllContent Rejected = inr []
  /\ (forall (reply : Reply unit),
         deleteContent reply
         = inr (match reply with Resolved _ => true | Rejected => false end))
  /\ (forall page_reply blog_reply testimonial_reply media_reply,
         exists pages blogPosts testimonials mediaItems,
           getContentByType page_reply = inr pages
           /\ getContentByType blog_reply = inr blogPosts
           /\ getContentByType testimonial_reply = inr testimonials
           /\ getAllMedia media_reply = inr mediaItems
           /\ getContentStats page_reply blog_reply testimonial_reply media_reply
              = inr {| ContentClient.pages := List.length pages;
                       ContentClient.blogPosts := List.length blogPosts;
                       ContentClient.testimonials := List.length testimonials;
                       ContentClient.media := List.length mediaItems |}).
Proof.
  split; [|split; [|split; [|split; [|split]]]].
  - intros reply.
    destruct (list_read_resolves formatContentFromApi reply) as (items & E & _).
    exists items. exact E.
  - intros ds sent. unfold getAllContent. cbn [await_api resolve and_then].
    destruct (map_throwing_all formatContentFromApi
                (map (Wire.json_of_content ds) sent)) as (items & E & Hitems).
    { intros a Ha. apply in_map_iff in Ha as (x & <- & _). discriminate. }
    exists items. rewrite E. split; [reflexivity|].
    rewrite map_map in Hitems. clear E. revert items Hitems.
    induction sent as [|c sent IH]; intros [|item items] H; try discriminate;
      [reflexivity|].
    cbn [map] in *. injection H as H1 H2. rewrite (IH items H2).
    subst item. reflexivity.
  - intros data a Ha Hid. unfold getAllContent. simpl.
    rewrite (map_throwing_one_bad formatContentFromApi data a Ha); [reflexivity|].
    unfold formatContentFromApi. rewrite Hid. reflexivity.
  - reflexivity.
  - intros [[]|]; reflexivity.
  - intros p b t m.
    destruct (list_read_resolves formatContentFromApi p) as (ps & Ep & _).
    destruct (list_read_resolves formatContentFromApi b) as (bs & Eb & _).
    destruct (list_read_resolves formatContentFromApi t) as (ts & Et & _).
    destruct (list_read_resolves formatMediaFromApi m) as (ms & Em & _).
    exists ps, bs, ts, ms. unfold getContentStats, getContentByType, getAllMedia.
    rewrite Ep, Eb, Et, Em. repeat split.
Qed.

End ContentClientFacts.
